(** * moldesign.utils.json_extension: the [to_json] fallback encoder

    The module under study is three definitions long:

      class JsonEncoder(json.JSONEncoder):
          def default(self, obj):
              if hasattr(obj, 'to_json'):
                  obj = obj.to_json()
              return obj

      @args_from(json.dump)
      def json_dump( *args, **kwargs):
          return json.dump( *args, cls=JsonEncoder, **kwargs)

      @args_from(json.dumps)
      def json_dumps( *args, **kwargs):
          return json.dumps( *args, cls=JsonEncoder, **kwargs)

    Everything it does happens inside the interpreter's [json] package,
    which calls [default] back for each value it cannot encode by itself.
    The development therefore has three layers:

    - [Section Values] .. [Module json]: the part of the Python run time the
      three definitions rely on (values, attribute lookup, calls, keyword
      arguments, and the encoder and decoder of CPython's Lib/json),
      transcribed function by function;
    - [Module JsonEncoder], [json_dump], [json_dumps]: the source itself;
    - the theorems.

    Conventions.  Text is a [string], one character per code point below
    256.  A list, tuple or dict is a finite tree that carries the identity
    [id()] gives it; an instance of a user class is a reference [VObj i] into
    the heap of the interpreter, so a [to_json] method may return the object
    itself, another object that converts back to it, or an endless supply of
    new ones.  A method is represented by what calling it with no argument
    does (return a value or raise); methods with effects are outside the
    model.  The recursion of the encoder is bounded by a fuel argument:
    [Unfinished] means the fuel ran out, and a run that is [Unfinished] for
    every fuel is the unbounded recursion that the interpreter ends with a
    stack overflow. *)

From stdpp Require Import gmap strings list.
From Stdlib Require Import ZArith String Ascii DecimalString DecimalPos DecimalZ Lia.

Local Open Scope string_scope.
Set Warnings "-register-all".

(** ** Values *)

Section Values.

(** [id(o)] *)
Definition ident := nat.

(** A float is seen by the encoder through three comparisons and
    [float.__repr__] only; a finite one is the dyadic [m * 2^e]. *)
Inductive pyfloat : Type :=
| FNaN
| FInf
| FNegInf
| FFinite (m e : Z).

(** Dict keys: the kinds [_iterencode_dict] turns into text, and tuples of
    integers for the hashable keys it does not. *)
Inductive key : Type :=
| KStr (s : string)
| KInt (n : Z)
| KBool (b : bool)
| KNone
| KTuple (t : list Z).

Inductive value : Type :=
| VNone
| VBool (b : bool)
| VInt (n : Z)
| VFloat (f : pyfloat)
| VStr (s : string)
| VList (i : ident) (items : list value)
| VTuple (i : ident) (items : list value)
| VDict (i : ident) (items : list (key * value))
| VObj (i : ident).

(** Exceptions: the class name and the message. *)
Inductive exn : Type :=
| Exn (cls msg : string).

Inductive result (A : Type) : Type :=
| Return (a : A)
| Raise (e : exn).

(** An attribute of an instance: a plain value, or something callable,
    given by what the call [attr()] does. *)
Inductive attribute : Type :=
| Data (v : value)
| Method (body : result value).

Record pyobject : Type := PyObject {
  ob_type : string;
  ob_dict : gmap string attribute
}.

(** The interpreter state the encoder reads: the heap of instances and the
    two float builtins that are not modelled, [float.__repr__] and
    [float(text)]. *)
Record interp : Type := Interp {
  heap : ident -> pyobject;
  float_repr : Z -> Z -> string;
  float_of_literal : string -> pyfloat
}.

End Values.

Arguments Return {A} a.
Arguments Raise {A} e.

Definition TypeError (msg : string) : exn := Exn "TypeError" msg.
Definition ValueError (msg : string) : exn := Exn "ValueError" msg.

Global Instance exn_eq_dec : EqDecision exn.
Proof. solve_decision. Defined.

Global Instance key_eq_dec : EqDecision key.
Proof. solve_decision. Defined.

(** [type(o).__name__] *)
Definition type_name (w : interp) (o : value) : string :=
  match o with
  | VNone => "NoneType"
  | VBool _ => "bool"
  | VInt _ => "int"
  | VFloat _ => "float"
  | VStr _ => "str"
  | VList _ _ => "list"
  | VTuple _ _ => "tuple"
  | VDict _ _ => "dict"
  | VObj i => ob_type (heap w i)
  end.

(** Attribute lookup.  The builtin types define no [to_json]; their own
    attributes are not modelled. *)
Definition getattr (w : interp) (o : value) (name : string) : option attribute :=
  match o with
  | VObj i => ob_dict (heap w i) !! name
  | _ => None
  end.

Definition hasattr (w : interp) (o : value) (name : string) : bool :=
  match getattr w o name with
  | Some _ => true
  | None => false
  end.

(** [a()] *)
Definition call (w : interp) (a : attribute) : result value :=
  match a with
  | Method body => body
  | Data v => Raise (TypeError ("'" +:+ type_name w v +:+ "' object is not callable"))
  end.

(** [o.name()] *)
Definition call_method (w : interp) (o : value) (name : string) : result value :=
  match getattr w o name with
  | Some a => call w a
  | None =>
      Raise (Exn "AttributeError"
               ("'" +:+ type_name w o +:+ "' object has no attribute '" +:+ name +:+ "'"))
  end.

(** ** Text helpers of the encoder *)

Definition dquote : string := String (ascii_of_nat 34) "".
Definition newline : string := String (ascii_of_nat 10) "".

(** [s * n] *)
Fixpoint py_repeat (s : string) (n : nat) : string :=
  match n with
  | O => ""
  | S n' => s +:+ py_repeat s n'
  end.

(** [int.__repr__] *)
Definition _intstr (n : Z) : string := NilZero.string_of_int (Z.to_int n).

Definition hex_digit (n : nat) : ascii :=
  ascii_of_nat (if Nat.ltb n 10 then 48 + n else 87 + n)%nat.

(** ['\\u{0:04x}'.format(n)] for [n < 256] *)
Definition u_escape (n : nat) : string :=
  "\u00" +:+ String (hex_digit (n / 16)) (String (hex_digit (n mod 16)) "").

(** [ESCAPE_DCT] *)
Definition ESCAPE_DCT (c : ascii) : option string :=
  let n := nat_of_ascii c in
  if Nat.eqb n 92 then Some "\\"
  else if Nat.eqb n 34 then Some ("\" +:+ dquote)
  else if Nat.eqb n 8 then Some "\b"
  else if Nat.eqb n 12 then Some "\f"
  else if Nat.eqb n 10 then Some "\n"
  else if Nat.eqb n 13 then Some "\r"
  else if Nat.eqb n 9 then Some "\t"
  else if Nat.ltb n 32 then Some (u_escape n)
  else None.

(** The replacement [ESCAPE.sub] makes for one character: only the
    characters of [ESCAPE_DCT] match the pattern. *)
Definition replace (c : ascii) : string :=
  match ESCAPE_DCT c with
  | Some r => r
  | None => String c ""
  end.

(** The replacement [ESCAPE_ASCII.sub] makes: the pattern also matches what
    lies outside [' ' .. '~']. *)
Definition replace_ascii (c : ascii) : string :=
  match ESCAPE_DCT c with
  | Some r => r
  | None => if Nat.ltb 126 (nat_of_ascii c) then u_escape (nat_of_ascii c) else String c ""
  end.

Fixpoint sub (f : ascii -> string) (s : string) : string :=
  match s with
  | EmptyString => ""
  | String c s' => f c +:+ sub f s'
  end.

Definition encode_basestring (s : string) : string :=
  dquote +:+ sub replace s +:+ dquote.

Definition encode_basestring_ascii (s : string) : string :=
  dquote +:+ sub replace_ascii s +:+ dquote.

(** ** Generators

    [_iterencode] is a generator that also updates the [markers] table.  A
    run of it is the list of chunks it yielded, the table it left, and how
    it ended. *)

Inductive status (A : Type) : Type :=
| Done (a : A)
| Raised (e : exn)
| Unfinished.

Arguments Done {A} a.
Arguments Raised {A} e.
Arguments Unfinished {A}.

(** [markers]: [None] when [check_circular] is off, else the identities on
    the path from the root to the value being encoded. *)
Definition markers := option (gset ident).

Record run (A : Type) : Type := Run {
  chunks : list string;
  table : markers;
  ending : status A
}.

Arguments Run {A} chunks table ending.
Arguments chunks {A} r.
Arguments table {A} r.
Arguments ending {A} r.

Definition gen (A : Type) : Type := markers -> run A.

Global Instance gen_ret : MRet gen := fun A a ms => Run [] ms (Done a).

Global Instance gen_bind : MBind gen := fun A B f m ms =>
  let r := m ms in
  match ending r with
  | Done a => let r' := f a (table r) in Run (chunks r ++ chunks r') (table r') (ending r')
  | Raised e => Run (chunks r) (table r) (Raised e)
  | Unfinished => Run (chunks r) (table r) Unfinished
  end.

Definition yield (s : string) : gen unit := fun ms => Run [s] ms (Done tt).
Definition raise {A} (e : exn) : gen A := fun ms => Run [] ms (Raised e).
Definition out_of_fuel {A} : gen A := fun ms => Run [] ms Unfinished.

Definition lift {A} (r : result A) : gen A :=
  match r with
  | Return a => mret a
  | Raise e => raise e
  end.

Definition circular_reference : exn := ValueError "Circular reference detected".

(** [if markers is not None:
       markerid = id(o)
       if markerid in markers: raise ValueError("Circular reference detected")
       markers[markerid] = o] *)
Definition mark (i : ident) : gen unit := fun ms =>
  match ms with
  | None => Run [] None (Done tt)
  | Some m =>
      if bool_decide (i ∈ m)
      then Run [] ms (Raised circular_reference)
      else Run [] (Some ({[i]} ∪ m)) (Done tt)
  end.

(** [if markers is not None: del markers[markerid]] *)
Definition unmark (i : ident) : gen unit := fun ms =>
  match ms with
  | None => Run [] None (Done tt)
  | Some m => Run [] (Some (m ∖ {[i]})) (Done tt)
  end.

Global Instance result_ret : MRet result := fun A a => Return a.

Global Instance result_bind : MBind result := fun A B f r =>
  match r with
  | Return a => f a
  | Raise e => Raise e
  end.

(** ** [sorted(dct.items())]

    Keys of one kind are ordered; a comparison across kinds, or with
    [None], raises.  Any comparison sort meets such a pair as soon as there
    is one among two or more keys, so the insertion sort below raises
    exactly when [sorted] does (the message of the interpreter also names
    the two types, which depends on the order of the comparisons and is
    left out). *)

Fixpoint tuple_ltb (a b : list Z) : bool :=
  match a, b with
  | [], [] => false
  | [], _ :: _ => true
  | _ :: _, [] => false
  | x :: a', y :: b' => if Z.ltb x y then true else if Z.eqb x y then tuple_ltb a' b' else false
  end.

Definition key_number (k : key) : option Z :=
  match k with
  | KInt n => Some n
  | KBool b => Some (if b then 1 else 0)%Z
  | _ => None
  end.

(** [a < b] *)
Definition key_lt (a b : key) : result bool :=
  match a, b with
  | KStr s, KStr t => Return (String.ltb s t)
  | KTuple s, KTuple t => Return (tuple_ltb s t)
  | _, _ =>
      match key_number a, key_number b with
      | Some m, Some n => Return (Z.ltb m n)
      | _, _ => Raise (TypeError "'<' not supported between instances")
      end
  end.

Fixpoint insort (x : key * value) (l : list (key * value)) : result (list (key * value)) :=
  match l with
  | [] => Return [x]
  | y :: l' =>
      lt ← key_lt (fst y) (fst x);
      if (lt : bool) then l'' ← insort x l'; Return (y :: l'') else Return (x :: l)
  end.

Fixpoint sorted (l : list (key * value)) : result (list (key * value)) :=
  match l with
  | [] => Return []
  | x :: l' => s ← sorted l'; insort x s
  end.

(** ** The [json] package (CPython, Lib/json) *)

(** The error of the base encoder for a value it cannot encode. *)
Definition not_serializable (w : interp) (o : value) : exn :=
  TypeError ("Object of type " +:+ type_name w o +:+ " is not JSON serializable").


Definition hook := value -> result value.

(** The [indent] argument: [None], an int or a str. *)
Inductive indent_arg : Type :=
| IndentNone
| IndentInt (n : Z)
| IndentStr (s : string).

(** An encoder class, as far as subclasses differ: its [default] method. *)
Record encoder_class : Type := EncoderClass {
  cls_name : string;
  cls_default : interp -> hook
}.

(** An encoder instance: the attributes [JSONEncoder.__init__] sets.
    [_default] is what [self.default] resolves to. *)
Record encoder : Type := Encoder {
  skipkeys : bool;
  ensure_ascii : bool;
  check_circular : bool;
  allow_nan : bool;
  sort_keys : bool;
  indent : indent_arg;
  item_separator : string;
  key_separator : string;
  _default : hook
}.

(** Keyword arguments of a call: each of the keywords of [json.dumps] is
    absent or bound; [cls], [separators] and [default] may be bound to
    [None]. *)
Record kwargs : Type := KwArgs {
  kw_skipkeys : option bool;
  kw_ensure_ascii : option bool;
  kw_check_circular : option bool;
  kw_allow_nan : option bool;
  kw_cls : option (option encoder_class);
  kw_indent : option indent_arg;
  kw_separators : option (option (string * string));
  kw_default : option (option hook);
  kw_sort_keys : option bool
}.

Definition no_kwargs : kwargs :=
  KwArgs None None None None None None None None None.

(** The module-level state of [json]: the cached [_default_encoder]. *)
Record json_module : Type := JsonModule {
  _default_encoder : encoder
}.

Module json.

Module JSONEncoder.

(** [def default(self, o):
       raise TypeError(f'Object of type {o.__class__.__name__} '
                       f'is not JSON serializable')] *)
Definition default (w : interp) (o : value) : result value :=
  Raise (not_serializable w o).

Definition class : encoder_class := EncoderClass "JSONEncoder" default.

(** [cls(skipkeys=.., .., default=default)]: [__init__] on a new instance
    of [cls]. *)
Definition __init__ (w : interp) (cls : encoder_class)
    (skipkeys ensure_ascii check_circular allow_nan sort_keys : bool)
    (indent : indent_arg) (separators : option (string * string))
    (default : option hook) : encoder :=
  {| skipkeys := skipkeys;
     ensure_ascii := ensure_ascii;
     check_circular := check_circular;
     allow_nan := allow_nan;
     sort_keys := sort_keys;
     indent := indent;
     item_separator :=
       match separators, indent with
       | Some (item, _), _ => item
       | None, IndentNone => ", "
       | None, _ => ","
       end;
     key_separator :=
       match separators with
       | Some (_, key) => key
       | None => ": "
       end;
     _default :=
       match default with
       | Some f => f
       | None => cls_default cls w
       end |}.

Section iterencode.

Variable w : interp.
Variable self : encoder.

Definition _encoder (s : string) : string :=
  if ensure_ascii self then encode_basestring_ascii s else encode_basestring s.

Definition floatstr (o : pyfloat) : result string :=
  match o with
  | FFinite m e => Return (float_repr w m e)
  | _ =>
      let text := match o with FNaN => "NaN" | FInf => "Infinity" | _ => "-Infinity" end in
      if allow_nan self then Return text
      else Raise (ValueError ("Out of range float values are not JSON compliant: "
                              +:+ match o with FNaN => "nan" | FInf => "inf" | _ => "-inf" end))
  end.

(** [_indent]: an int is turned into that many spaces. *)
Definition _indent : option string :=
  match indent self with
  | IndentNone => None
  | IndentInt n => Some (py_repeat " " (Z.to_nat n))
  | IndentStr s => Some s
  end.

Definition indent_text : string :=
  match _indent with
  | Some ind => ind
  | None => ""
  end.

(** ['\n' + _indent * _current_indent_level] *)
Definition newline_indent (level : nat) : option string :=
  match _indent with
  | Some ind => Some (newline +:+ py_repeat ind level)
  | None => None
  end.

(** The branches of the loops that yield the text of a value directly. *)
Definition atom (v : value) : option (result string) :=
  match v with
  | VStr s => Some (Return (_encoder s))
  | VNone => Some (Return "null")
  | VBool true => Some (Return "true")
  | VBool false => Some (Return "false")
  | VInt n => Some (Return (_intstr n))
  | VFloat f => Some (floatstr f)
  | _ => None
  end.

Section loops.

(** The recursive calls of the loops, to [_iterencode_list],
    [_iterencode_dict] or [_iterencode] by the type of the item, are what
    [_iterencode] does for that item. *)
Variable _iterencode : value -> nat -> gen unit.

Fixpoint list_loop (level : nat) (separator buf : string) (lst : list value) : gen unit :=
  match lst with
  | [] => mret tt
  | v :: lst' =>
      match atom v with
      | Some t => text ← lift t; yield (buf +:+ text)
      | None => yield buf;; _iterencode v level
      end;;
      list_loop level separator separator lst'
  end.

Definition _iterencode_list (i : ident) (lst : list value) (level : nat) : gen unit :=
  match lst with
  | [] => yield "[]"
  | _ =>
      mark i;;
      match newline_indent (S level) with
      | Some nl =>
          list_loop (S level) (item_separator self +:+ nl) ("[" +:+ nl) lst;;
          yield (newline +:+ py_repeat indent_text level)
      | None =>
          list_loop level (item_separator self) "[" lst
      end;;
      yield "]";;
      unmark i
  end.

(** The key as text; [None] for a key that is skipped. *)
Definition key_text (k : key) : option (result string) :=
  match k with
  | KStr s => Some (Return s)
  | KBool true => Some (Return "true")
  | KBool false => Some (Return "false")
  | KNone => Some (Return "null")
  | KInt n => Some (Return (_intstr n))
  | KTuple _ =>
      if skipkeys self then None
      else Some (Raise (TypeError "keys must be str, int, float, bool or None, not tuple"))
  end.

Fixpoint dict_loop (level : nat) (separator : string) (first : bool)
    (items : list (key * value)) : gen unit :=
  match items with
  | [] => mret tt
  | (k, v) :: items' =>
      match key_text k with
      | None => dict_loop level separator first items'
      | Some kt =>
          k' ← lift kt;
          (if first then mret tt else yield separator);;
          yield (_encoder k');;
          yield (key_separator self);;
          match atom v with
          | Some t => text ← lift t; yield text
          | None => _iterencode v level
          end;;
          dict_loop level separator false items'
      end
  end.

Definition _iterencode_dict (i : ident) (dct : list (key * value)) (level : nat) : gen unit :=
  match dct with
  | [] => yield "{}"
  | _ =>
      mark i;;
      yield "{";;
      match newline_indent (S level) with
      | Some nl =>
          yield nl;;
          items ← lift (if sort_keys self then sorted dct else Return dct);
          dict_loop (S level) (item_separator self +:+ nl) true items;;
          yield (newline +:+ py_repeat indent_text level)
      | None =>
          items ← lift (if sort_keys self then sorted dct else Return dct);
          dict_loop level (item_separator self) true items
      end;;
      yield "}";;
      unmark i
  end.

(** The body of [_iterencode]. *)
Definition _iterencode_body (o : value) (level : nat) : gen unit :=
  match o with
  | VStr s => yield (_encoder s)
  | VNone => yield "null"
  | VBool true => yield "true"
  | VBool false => yield "false"
  | VInt n => yield (_intstr n)
  | VFloat f => text ← lift (floatstr f); yield text
  | VList i lst | VTuple i lst => _iterencode_list i lst level
  | VDict i dct => _iterencode_dict i dct level
  | VObj i =>
      mark i;;
      o' ← lift (_default self o);
      _iterencode o' level;;
      unmark i
  end.

End loops.

Fixpoint _iterencode (fuel : nat) : value -> nat -> gen unit :=
  match fuel with
  | O => fun _ _ => out_of_fuel
  | S fuel' => _iterencode_body (_iterencode fuel')
  end.

(** [iterencode(o)]: the generator started on a new marker table. *)
Definition iterencode (fuel : nat) (o : value) : run unit :=
  _iterencode fuel o 0 (if check_circular self then Some ∅ else None).

(** [encode(o)] *)
Definition encode (fuel : nat) (o : value) : status string :=
  match o with
  | VStr s => Done (_encoder s)
  | _ =>
      let r := iterencode fuel o in
      match ending r with
      | Done _ => Done (String.concat "" (chunks r))
      | Raised e => Raised e
      | Unfinished => Unfinished
      end
  end.

End iterencode.

End JSONEncoder.

(** The value a keyword parameter is bound to. *)
Definition arg {A} (dflt : A) (a : option A) : A :=
  match a with
  | Some x => x
  | None => dflt
  end.

Definition is_none {A} (a : option A) : bool :=
  match a with
  | Some _ => false
  | None => true
  end.

(** The test both [dumps] and [dump] start with:
    [not skipkeys and ensure_ascii and check_circular and allow_nan and
     cls is None and indent is None and separators is None and
     default is None and not sort_keys and not kw] *)
Definition cached (kw : kwargs) : bool :=
  negb (arg false (kw_skipkeys kw))
  && arg true (kw_ensure_ascii kw)
  && arg true (kw_check_circular kw)
  && arg true (kw_allow_nan kw)
  && is_none (arg None (kw_cls kw))
  && match arg IndentNone (kw_indent kw) with IndentNone => true | _ => false end
  && is_none (arg None (kw_separators kw))
  && is_none (arg None (kw_default kw))
  && negb (arg false (kw_sort_keys kw)).

(** [if cls is None: cls = JSONEncoder
     cls(skipkeys=skipkeys, .., sort_keys=sort_keys, **kw)] *)
Definition make_encoder (w : interp) (kw : kwargs) : encoder :=
  JSONEncoder.__init__ w
    (arg JSONEncoder.class (arg None (kw_cls kw)))
    (arg false (kw_skipkeys kw))
    (arg true (kw_ensure_ascii kw))
    (arg true (kw_check_circular kw))
    (arg true (kw_allow_nan kw))
    (arg false (kw_sort_keys kw))
    (arg IndentNone (kw_indent kw))
    (arg None (kw_separators kw))
    (arg None (kw_default kw)).

(** The encoder a call uses. *)
Definition encoder_of (w : interp) (g : json_module) (kw : kwargs) : encoder :=
  if cached kw then _default_encoder g else make_encoder w kw.

(** [json.dumps(obj, **kw)] *)
Definition dumps (fuel : nat) (w : interp) (g : json_module) (obj : value) (kw : kwargs)
    : status string :=
  JSONEncoder.encode w (encoder_of w g kw) fuel obj.

(** [fp.write(chunk)] on a text buffer *)
Definition write (fp chunk : string) : string := fp +:+ chunk.

(** [json.dump(obj, fp, **kw)]: the chunks are written as they are yielded,
    so what was yielded before an exception is in the sink. *)
Definition dump (fuel : nat) (w : interp) (g : json_module) (obj : value) (fp : string)
    (kw : kwargs) : string * status unit :=
  let r := JSONEncoder.iterencode w (encoder_of w g kw) fuel obj in
  (fold_left write (chunks r) fp, ending r).

(** The module as imported:
    [_default_encoder = JSONEncoder(skipkeys=False, ensure_ascii=True,
       check_circular=True, allow_nan=True, indent=None, separators=None,
       default=None)] *)
Definition module (w : interp) : json_module :=
  JsonModule (JSONEncoder.__init__ w JSONEncoder.class false true true true false
                IndentNone None None).

(** *** Decoding (Lib/json/decoder.py and scanner.py)

    The decoder of [json.loads], without hooks.  It works on the text that
    is left to read instead of an index into it, so the position that ends
    the message of a [JSONDecodeError] is left out.  Containers are given
    identities from a counter of unused ones. *)

Definition JSONDecodeError (msg : string) : exn := Exn "JSONDecodeError" msg.

(** An escape for a code point that the model of text has no character
    for. *)
Definition not_modelled : exn := Exn "NotModelled" "code point above 255".

Global Instance status_ret : MRet status := fun A a => Done a.

Global Instance status_bind : MBind status := fun A B f r =>
  match r with
  | Done a => f a
  | Raised e => Raised e
  | Unfinished => Unfinished
  end.

Definition of_result {A} (r : result A) : status A :=
  match r with
  | Return a => Done a
  | Raise e => Raised e
  end.

(** [WHITESPACE = re.compile(r'[ \t\n\r]*')] *)
Definition is_ws (c : ascii) : bool :=
  let n := nat_of_ascii c in
  Nat.eqb n 32 || Nat.eqb n 9 || Nat.eqb n 10 || Nat.eqb n 13.

Fixpoint skip_ws (s : string) : string :=
  match s with
  | String c s' => if is_ws c then skip_ws s' else s
  | EmptyString => s
  end.

Definition is_digit (c : ascii) : bool :=
  Nat.leb 48 (nat_of_ascii c) && Nat.leb (nat_of_ascii c) 57.

(** The longest prefix of digits, and what follows it. *)
Fixpoint span_digits (s : string) : string * string :=
  match s with
  | String c s' =>
      if is_digit c then let '(d, r) := span_digits s' in (String c d, r) else ("", s)
  | EmptyString => ("", s)
  end.

Definition hex_value (c : ascii) : option nat :=
  let n := nat_of_ascii c in
  if is_digit c then Some (n - 48)
  else if Nat.leb 97 n && Nat.leb n 102 then Some (n - 87)
  else if Nat.leb 65 n && Nat.leb n 70 then Some (n - 55)
  else None.

(** [_decode_uXXXX] *)
Definition _decode_uXXXX (h1 h2 h3 h4 : ascii) : option nat :=
  a ← hex_value h1; b ← hex_value h2; c ← hex_value h3; d ← hex_value h4;
  Some (((a * 16 + b) * 16 + c) * 16 + d).

(** [BACKSLASH] *)
Definition BACKSLASH (esc : ascii) : option ascii :=
  let n := nat_of_ascii esc in
  if Nat.eqb n 34 then Some esc
  else if Nat.eqb n 92 then Some esc
  else if Nat.eqb n 47 then Some esc
  else if Nat.eqb n 98 then Some (ascii_of_nat 8)
  else if Nat.eqb n 102 then Some (ascii_of_nat 12)
  else if Nat.eqb n 110 then Some (ascii_of_nat 10)
  else if Nat.eqb n 114 then Some (ascii_of_nat 13)
  else if Nat.eqb n 116 then Some (ascii_of_nat 9)
  else None.

(** [py_scanstring(s, end)], strict: from the character after the opening
    quote, the content and the text after the closing quote. *)
Fixpoint scanstring (s : string) : result (string * string) :=
  match s with
  | EmptyString => Raise (JSONDecodeError "Unterminated string starting at")
  | String c s' =>
      if Nat.eqb (nat_of_ascii c) 34 then Return ("", s')
      else if Nat.eqb (nat_of_ascii c) 92 then
        match s' with
        | EmptyString => Raise (JSONDecodeError "Unterminated string starting at")
        | String esc s'' =>
            if Nat.eqb (nat_of_ascii esc) 117 then
              match s'' with
              | String h1 (String h2 (String h3 (String h4 s3))) =>
                  match _decode_uXXXX h1 h2 h3 h4 with
                  | Some uni =>
                      if Nat.ltb uni 256 then
                        '(content, rest) ← scanstring s3;
                        Return (String (ascii_of_nat uni) content, rest)
                      else Raise not_modelled
                  | None => Raise (JSONDecodeError "Invalid \uXXXX escape")
                  end
              | _ => Raise (JSONDecodeError "Invalid \uXXXX escape")
              end
            else
              match BACKSLASH esc with
              | Some char =>
                  '(content, rest) ← scanstring s'';
                  Return (String char content, rest)
              | None => Raise (JSONDecodeError "Invalid \escape")
              end
        end
      else if Nat.ltb (nat_of_ascii c) 32 then
        Raise (JSONDecodeError "Invalid control character at")
      else
        '(content, rest) ← scanstring s';
        Return (String c content, rest)
  end.

(** [NUMBER_RE]: an integer part (an optional minus, then a zero or a
    digit from 1 to 9 with any digits after), an optional fraction (a dot
    and digits) and an optional exponent (e or E, an optional sign, digits).
    Here the integer part, and what follows it. *)
Definition match_integer (s : string) : option (string * string) :=
  let '(sign, s1) :=
    match s with
    | String c s' => if Nat.eqb (nat_of_ascii c) 45 then (String c "", s') else ("", s)
    | EmptyString => ("", s)
    end in
  match s1 with
  | String c s2 =>
      if Nat.eqb (nat_of_ascii c) 48 then Some (sign +:+ String c "", s2)
      else if is_digit c then let '(d, r) := span_digits s1 in Some (sign +:+ d, r)
      else None
  | EmptyString => None
  end.

(** The fraction, empty when there is none. *)
Definition match_frac (s : string) : string * string :=
  match s with
  | String c s' =>
      if Nat.eqb (nat_of_ascii c) 46 then
        match span_digits s' with
        | (EmptyString, _) => ("", s)
        | (d, r) => (String c d, r)
        end
      else ("", s)
  | EmptyString => ("", s)
  end.

(** The exponent, empty when there is none. *)
Definition match_exp (s : string) : string * string :=
  match s with
  | String c s' =>
      if Nat.eqb (nat_of_ascii c) 101 || Nat.eqb (nat_of_ascii c) 69 then
        let '(sign, s1) :=
          match s' with
          | String c' s'' =>
              if Nat.eqb (nat_of_ascii c') 45 || Nat.eqb (nat_of_ascii c') 43
              then (String c' "", s'') else ("", s')
          | EmptyString => ("", s')
          end in
        match span_digits s1 with
        | (EmptyString, _) => ("", s)
        | (d, r) => (String c (sign +:+ d), r)
        end
      else ("", s)
  | EmptyString => ("", s)
  end.

(** [int(text)] on the integer part of a number *)
Definition parse_int (text : string) : Z :=
  match NilZero.int_of_string text with
  | Some d => Z.of_int d
  | None => 0
  end.

(** [s[idx:idx + len(word)] == word], and the text after the word *)
Fixpoint starts_with (word s : string) : option string :=
  match word, s with
  | EmptyString, _ => Some s
  | String a word', String b s' => if Ascii.eqb a b then starts_with word' s' else None
  | _, EmptyString => None
  end.

(** [dict(pairs)], the keys being text: a key met again keeps its place
    and takes the new value. *)
Fixpoint dict_set (k : string) (v : value) (d : list (key * value)) : list (key * value) :=
  match d with
  | [] => [(KStr k, v)]
  | (k', v') :: d' =>
      if bool_decide (k' = KStr k) then (k', v) :: d' else (k', v') :: dict_set k v d'
  end.

Definition dict_of_pairs (pairs : list (string * value)) : list (key * value) :=
  fold_left (fun d kv => dict_set (fst kv) (snd kv) d) pairs [].

Section scanner.

Variable w : interp.

Definition expecting_value {A} : status A := Raised (JSONDecodeError "Expecting value").

(** The constants and numbers of [_scan_once]. *)
Definition scan_atom (s : string) : status (value * string) :=
  match starts_with "null" s, starts_with "true" s, starts_with "false" s with
  | Some r, _, _ => Done (VNone, r)
  | _, Some r, _ => Done (VBool true, r)
  | _, _, Some r => Done (VBool false, r)
  | _, _, _ =>
      match match_integer s with
      | Some (integer, s1) =>
          let '(frac, s2) := match_frac s1 in
          let '(exp, s3) := match_exp s2 in
          match frac, exp with
          | EmptyString, EmptyString => Done (VInt (parse_int integer), s3)
          | _, _ => Done (VFloat (float_of_literal w (integer +:+ frac +:+ exp)), s3)
          end
      | None =>
          match starts_with "NaN" s, starts_with "Infinity" s, starts_with "-Infinity" s with
          | Some r, _, _ => Done (VFloat FNaN, r)
          | _, Some r, _ => Done (VFloat FInf, r)
          | _, _, Some r => Done (VFloat FNegInf, r)
          | _, _, _ => expecting_value
          end
      end
  end.

(** [_scan_once], [JSONArray] and [JSONObject].  [scan_once] raises the
    [JSONDecodeError] that each of its callers makes of its
    [StopIteration].  [array_loop] and [object_loop] are the [while] loops
    of [JSONArray] and [JSONObject], entered before an item and after the
    opening quote of a key. *)
Fixpoint scan_once (fuel : nat) (s : string) (next : ident)
    : status (value * string * ident) :=
  match fuel with
  | O => Unfinished
  | S fuel' =>
      match s with
      | EmptyString => expecting_value
      | String c s' =>
          if Nat.eqb (nat_of_ascii c) 34 then
            '(content, r) ← of_result (scanstring s');
            Done (VStr content, r, next)
          else if Nat.eqb (nat_of_ascii c) 123 then
            match skip_ws s' with
            | String c1 r =>
                if Nat.eqb (nat_of_ascii c1) 125 then Done (VDict next [], r, S next)
                else if Nat.eqb (nat_of_ascii c1) 34 then
                  '(pairs, r', next') ← object_loop fuel' r (S next) [];
                  Done (VDict next (dict_of_pairs pairs), r', next')
                else Raised (JSONDecodeError
                               "Expecting property name enclosed in double quotes")
            | EmptyString =>
                Raised (JSONDecodeError "Expecting property name enclosed in double quotes")
            end
          else if Nat.eqb (nat_of_ascii c) 91 then
            match skip_ws s' with
            | String c1 r =>
                if Nat.eqb (nat_of_ascii c1) 93 then Done (VList next [], r, S next)
                else
                  '(values, r', next') ← array_loop fuel' (skip_ws s') (S next) [];
                  Done (VList next values, r', next')
            | EmptyString => expecting_value
            end
          else
            '(v, r) ← scan_atom s;
            Done (v, r, next)
      end
  end
with array_loop (fuel : nat) (s : string) (next : ident) (values : list value)
    : status (list value * string * ident) :=
  match fuel with
  | O => Unfinished
  | S fuel' =>
      '(v, s1, next1) ← scan_once fuel' s next;
      match skip_ws s1 with
      | String c r =>
          if Nat.eqb (nat_of_ascii c) 93 then Done ((values ++ [v])%list, r, next1)
          else if Nat.eqb (nat_of_ascii c) 44 then
            array_loop fuel' (skip_ws r) next1 (values ++ [v])%list
          else Raised (JSONDecodeError "Expecting ',' delimiter")
      | EmptyString => Raised (JSONDecodeError "Expecting ',' delimiter")
      end
  end
with object_loop (fuel : nat) (s : string) (next : ident) (pairs : list (string * value))
    : status (list (string * value) * string * ident) :=
  match fuel with
  | O => Unfinished
  | S fuel' =>
      '(k, s1) ← of_result (scanstring s);
      match skip_ws s1 with
      | String c s2 =>
          if Nat.eqb (nat_of_ascii c) 58 then
            '(v, s3, next1) ← scan_once fuel' (skip_ws s2) next;
            match skip_ws s3 with
            | String c' r =>
                if Nat.eqb (nat_of_ascii c') 125 then Done ((pairs ++ [(k, v)])%list, r, next1)
                else if Nat.eqb (nat_of_ascii c') 44 then
                  match skip_ws r with
                  | String c'' r' =>
                      if Nat.eqb (nat_of_ascii c'') 34
                      then object_loop fuel' r' next1 (pairs ++ [(k, v)])%list
                      else Raised (JSONDecodeError
                                     "Expecting property name enclosed in double quotes")
                  | EmptyString =>
                      Raised (JSONDecodeError
                                "Expecting property name enclosed in double quotes")
                  end
                else Raised (JSONDecodeError "Expecting ',' delimiter")
            | EmptyString => Raised (JSONDecodeError "Expecting ',' delimiter")
            end
          else Raised (JSONDecodeError "Expecting ':' delimiter")
      | EmptyString => Raised (JSONDecodeError "Expecting ':' delimiter")
      end
  end.

(** [json.loads(s)]: [decode], that is [raw_decode] after the leading
    whitespace, then nothing but whitespace.  [next] is the first unused
    identity. *)
Definition loads (fuel : nat) (s : string) (next : ident) : status value :=
  '(obj, r, _) ← scan_once fuel (skip_ws s) next;
  match skip_ws r with
  | EmptyString => Done obj
  | _ => Raised (JSONDecodeError "Extra data")
  end.

End scanner.

End json.

(** [kwargs] with [cls] bound to [c]. *)
Definition bind_cls (c : encoder_class) (kw : kwargs) : kwargs :=
  KwArgs (kw_skipkeys kw) (kw_ensure_ascii kw) (kw_check_circular kw) (kw_allow_nan kw)
    (Some (Some c)) (kw_indent kw) (kw_separators kw) (kw_default kw) (kw_sort_keys kw).

(** [f( *args, cls=c, **kwargs)]: a keyword bound twice is a [TypeError]
    at the call, before [f] runs. *)
Definition call_with_cls {A} (fname : string) (f : kwargs -> A) (c : encoder_class)
    (kw : kwargs) : result A :=
  match kw_cls kw with
  | Some _ =>
      Raise (TypeError (fname +:+ "() got multiple values for keyword argument 'cls'"))
  | None => Return (f (bind_cls c kw))
  end.

(** Modelled from the spec: [args_from], the decorator [moldesign.utils]
    exports, is not in the sources at hand.  The spec describes it as a
    decorator that forwards the signature of another callable, a
    documentation convenience the wrapped function does not depend on: the
    decorated function behaves as the function it decorates. *)
Definition args_from {A B} (original_function : A) (f : B) : B := f.

(** ** moldesign/utils/json_extension.py *)

Module JsonEncoder.

(** [def default(self, obj):
       if hasattr(obj, 'to_json'):
           obj = obj.to_json()
       return obj] *)
Definition default (w : interp) (obj : value) : result value :=
  obj ← (if hasattr w obj "to_json" then call_method w obj "to_json" else Return obj);
  Return obj.

(** [class JsonEncoder(json.JSONEncoder)] *)
Definition class : encoder_class := EncoderClass "JsonEncoder" default.

End JsonEncoder.

(** [@args_from(json.dump)
     def json_dump( *args, **kwargs):
         return json.dump( *args, cls=JsonEncoder, **kwargs)]
    called as [json_dump(obj, fp, **kwargs)]; it returns the sink and how
    the call ended. *)
Definition json_dump : nat -> interp -> json_module -> value -> string -> kwargs ->
                       string * status unit :=
  args_from json.dump
    (fun fuel w g obj fp kwargs =>
       match call_with_cls "json.dump" (json.dump fuel w g obj fp) JsonEncoder.class kwargs with
       | Return r => r
       | Raise e => (fp, Raised e)
       end).

(** [@args_from(json.dumps)
     def json_dumps( *args, **kwargs):
         return json.dumps( *args, cls=JsonEncoder, **kwargs)]
    called as [json_dumps(obj, **kwargs)]. *)
Definition json_dumps : nat -> interp -> json_module -> value -> kwargs -> status string :=
  args_from json.dumps
    (fun fuel w g obj kwargs =>
       match call_with_cls "json.dumps" (json.dumps fuel w g obj) JsonEncoder.class kwargs with
       | Return r => r
       | Raise e => Raised e
       end).

(** ** Predicates on values *)

(** Values the base encoder handles without calling [default]: no
    instance of a user class anywhere inside. *)
Fixpoint native (v : value) : bool :=
  match v with
  | VList _ l | VTuple _ l => forallb native l
  | VDict _ d => forallb (fun kv => native (snd kv)) d
  | VObj _ => false
  | _ => true
  end.

(** [i] is not the identity of a list, tuple or dict inside [v]. *)
Fixpoint avoids (i : ident) (v : value) : bool :=
  match v with
  | VList j l | VTuple j l => negb (Nat.eqb i j) && forallb (avoids i) l
  | VDict j d => negb (Nat.eqb i j) && forallb (fun kv => avoids i (snd kv)) d
  | _ => true
  end.

(** [o.to_json()] returns [r]. *)
Definition to_json_returns (w : interp) (o r : value) : Prop :=
  getattr w o "to_json" = Some (Method (Return r)).

(** The identity of the instance [i] is its own: no container that a
    [to_json] of the heap returns bears it. *)
Definition unshared (w : interp) (i : ident) : Prop :=
  forall j r, to_json_returns w (VObj j) r -> avoids i r = true.

(** The caller leaves the [default] keyword alone (absent, or [None]). *)
Definition default_unset (kw : kwargs) : Prop :=
  json.arg None (kw_default kw) = None.

(** [check_circular], as the call binds it. *)
Definition circular_checked (kw : kwargs) : bool :=
  json.arg true (kw_check_circular kw).

(** Two encoders that differ at most in their [default]. *)
Definition same_config (e1 e2 : encoder) : Prop :=
  skipkeys e1 = skipkeys e2 /\ ensure_ascii e1 = ensure_ascii e2 /\
  check_circular e1 = check_circular e2 /\ allow_nan e1 = allow_nan e2 /\
  sort_keys e1 = sort_keys e2 /\ indent e1 = indent e2 /\
  item_separator e1 = item_separator e2 /\ key_separator e1 = key_separator e2.

(** ** A sample interpreter state *)

(** Instances 1 to 6; every other identity is a bare [object()].
    - 1: a [Point] whose [to_json] returns [{'x': 1, 'y': 2}];
    - 2: a [Wrap] whose [to_json] returns the point;
    - 3: a [Bad] whose [to_json] attribute is the int 3;
    - 4: a [Boom] whose [to_json] raises [KeyError('k')];
    - 5 and 6: an [A] and a [B] whose [to_json] return each other. *)
Definition sample_heap (i : ident) : pyobject :=
  match i with
  | 1 => PyObject "Point"
           {[ "to_json" := Method (Return (VDict 100 [(KStr "x", VInt 1); (KStr "y", VInt 2)])) ]}
  | 2 => PyObject "Wrap" {[ "to_json" := Method (Return (VObj 1)) ]}
  | 3 => PyObject "Bad" {[ "to_json" := Data (VInt 3) ]}
  | 4 => PyObject "Boom" {[ "to_json" := Method (Raise (Exn "KeyError" "'k'")) ]}
  | 5 => PyObject "A" {[ "to_json" := Method (Return (VObj 6)) ]}
  | 6 => PyObject "B" {[ "to_json" := Method (Return (VObj 5)) ]}
  | _ => PyObject "object" ∅
  end.

(** The floats the sample knows: 1.5 and the integral ones. *)
Definition sample_repr (m e : Z) : string :=
  if (Z.eqb m 3 && Z.eqb e (-1))%bool then "1.5" else _intstr (m * 2 ^ e) +:+ ".0".

Definition sample_float (s : string) : pyfloat :=
  if String.eqb s "1.5" then FFinite 3 (-1) else FFinite 0 0.

Definition sample : interp := Interp sample_heap sample_repr sample_float.

(** An endless chain: the [to_json] of instance [i] returns instance
    [i + 1], as a method that builds a new instance at every call does. *)
Definition chain_heap (i : ident) : pyobject :=
  PyObject "Link" {[ "to_json" := Method (Return (VObj (S i))) ]}.

Definition chain : interp := Interp chain_heap sample_repr sample_float.

(** Text with each apostrophe read as a double quote, to write JSON text
    in examples. *)
Definition q (s : string) : string :=
  sub (fun c => if Ascii.eqb c "'"%char then dquote else String c "") s.

(** [v] is reached from [o] by calls of [to_json], each on an instance
    whose identity is its own. *)
Inductive converts_to (w : interp) : value -> value -> Prop :=
| converts_refl v : converts_to w v v
| converts_step i r v :
    to_json_returns w (VObj i) r -> unshared w i -> converts_to w r v ->
    converts_to w (VObj i) v.

(** [json_dumps(v, **kw)] returns the text [s]. *)
Definition serializes (w : interp) (g : json_module) (kw : kwargs) (v : value) (s : string)
    : Prop :=
  exists fuel, json_dumps fuel w g v kw = Done s.

(** The values without parts: [None], bools, numbers and text. *)
Definition atomic (v : value) : bool :=
  match v with
  | VNone | VBool _ | VInt _ | VFloat _ | VStr _ => true
  | _ => false
  end.

(** Every chain of [to_json] conversions that starts inside [v] reaches,
    in finitely many calls, a value without instances. *)
Inductive convertible (w : interp) : value -> Prop :=
| conv_atom v : atomic v = true -> convertible w v
| conv_list i l : Forall (convertible w) l -> convertible w (VList i l)
| conv_tuple i l : Forall (convertible w) l -> convertible w (VTuple i l)
| conv_dict i d : Forall (fun kv => convertible w (snd kv)) d -> convertible w (VDict i d)
| conv_obj i r : to_json_returns w (VObj i) r -> convertible w r -> convertible w (VObj i).

(** ** Equality of values ([==]) *)

(** [m * 2^e == m' * 2^e'] *)
Definition dyadic_eqb (m e m' e' : Z) : bool :=
  let k := Z.min e e' in
  Z.eqb (m * 2 ^ (e - k)) (m' * 2 ^ (e' - k)).

Definition float_eqb (a b : pyfloat) : bool :=
  match a, b with
  | FInf, FInf | FNegInf, FNegInf => true
  | FFinite m e, FFinite m' e' => dyadic_eqb m e m' e'
  | _, _ => false
  end.

(** Bools, ints and floats compare by value across the three types. *)
Definition as_number (v : value) : option pyfloat :=
  match v with
  | VBool b => Some (FFinite (if b then 1 else 0) 0)
  | VInt n => Some (FFinite n 0)
  | VFloat f => Some f
  | _ => None
  end.

Definition key_eqb (a b : key) : bool :=
  match key_number a, key_number b with
  | Some m, Some n => Z.eqb m n
  | None, None => bool_decide (a = b)
  | _, _ => false
  end.

(** [a == b].  Lists and tuples compare item by item and never equal each
    other, dicts compare as maps, and instances by identity (the [__eq__]
    of [object]; classes that define their own are not modelled). *)
Fixpoint py_eq (a b : value) {struct a} : bool :=
  match as_number a, as_number b with
  | Some x, Some y => float_eqb x y
  | Some _, None | None, Some _ => false
  | None, None =>
      match a, b with
      | VNone, VNone => true
      | VStr s, VStr t => String.eqb s t
      | VList _ l, VList _ l' | VTuple _ l, VTuple _ l' =>
          (fix items (l l' : list value) : bool :=
             match l, l' with
             | [], [] => true
             | x :: l, y :: l' => py_eq x y && items l l'
             | _, _ => false
             end) l l'
      | VDict _ d, VDict _ d' =>
          Nat.eqb (List.length d) (List.length d')
          && forallb (fun kv => existsb (fun kv' => key_eqb (fst kv) (fst kv')
                                                   && py_eq (snd kv) (snd kv')) d') d
      | VObj i, VObj j => Nat.eqb i j
      | _, _ => false
      end
  end.

(** ** Values that come back from their text *)

Definition text_key (k : key) : bool :=
  match k with
  | KStr _ => true
  | _ => false
  end.

(** [None], bools, ints, text, and lists, tuples and dicts of such with
    text keys, each key once. *)
Fixpoint plain (v : value) : bool :=
  match v with
  | VNone | VBool _ | VInt _ | VStr _ => true
  | VList _ l | VTuple _ l => forallb plain l
  | VDict _ d =>
      forallb (fun kv => text_key (fst kv)) d
      && bool_decide (NoDup (map fst d))
      && forallb (fun kv => plain (snd kv)) d
  | VFloat _ | VObj _ => false
  end.

(** [v] with a list in the place of each tuple. *)
Fixpoint listed (v : value) : value :=
  match v with
  | VList i l | VTuple i l => VList i (map listed l)
  | VDict i d => VDict i (map (fun kv => (fst kv, listed (snd kv))) d)
  | _ => v
  end.

Fixpoint tuple_free (v : value) : bool :=
  match v with
  | VList _ l => forallb tuple_free l
  | VTuple _ _ => false
  | VDict _ d => forallb (fun kv => tuple_free (snd kv)) d
  | _ => true
  end.

(** [a] and [b] differ in the identities of their containers only. *)
Fixpoint alike (a b : value) {struct a} : bool :=
  match a, b with
  | VList _ l, VList _ l' | VTuple _ l, VTuple _ l' =>
      (fix items (l l' : list value) : bool :=
         match l, l' with
         | [], [] => true
         | x :: l, y :: l' => alike x y && items l l'
         | _, _ => false
         end) l l'
  | VDict _ d, VDict _ d' =>
      (fix items (d d' : list (key * value)) : bool :=
         match d, d' with
         | [], [] => true
         | kv :: d, kv' :: d' =>
             bool_decide (fst kv = fst kv') && alike (snd kv) (snd kv') && items d d'
         | _, _ => false
         end) d d'
  | VNone, VNone => true
  | VBool x, VBool y => Bool.eqb x y
  | VInt x, VInt y => Z.eqb x y
  | VStr x, VStr y => String.eqb x y
  | _, _ => false
  end.

(** No list, tuple or dict of [v] lies inside a container of the same
    identity, nor bears an identity of [seen]. *)
Fixpoint well_identified (seen : gset ident) (v : value) : bool :=
  match v with
  | VList i l | VTuple i l =>
      bool_decide (i ∉ seen) && forallb (well_identified ({[i]} ∪ seen)) l
  | VDict i d =>
      bool_decide (i ∉ seen)
      && forallb (fun kv => well_identified ({[i]} ∪ seen) (snd kv)) d
  | _ => true
  end.

(** * Properties *)

(** ** Runs of composed generators *)

Lemma run_bind {A B} (m : gen A) (f : A -> gen B) ms :
  (m ≫= f) ms =
  match ending (m ms) with
  | Done a => Run (chunks (m ms) ++ chunks (f a (table (m ms))))
                  (table (f a (table (m ms)))) (ending (f a (table (m ms))))
  | Raised e => Run (chunks (m ms)) (table (m ms)) (Raised e)
  | Unfinished => Run (chunks (m ms)) (table (m ms)) Unfinished
  end.
Proof. reflexivity. Qed.

Lemma run_eta {A} (r : run A) : r = Run (chunks r) (table r) (ending r).
Proof. by destruct r. Qed.

Lemma mark_fresh i a : i ∉ a -> mark i (Some a) = Run [] (Some ({[i]} ∪ a)) (Done tt).
Proof. intros H. unfold mark. by rewrite bool_decide_eq_false_2. Qed.

Lemma mark_seen i a : i ∈ a -> mark i (Some a) = Run [] (Some a) (Raised circular_reference).
Proof. intros H. unfold mark. by rewrite bool_decide_eq_true_2. Qed.

Lemma unmark_ending i ms : ending (unmark i ms) = Done tt.
Proof. by destruct ms. Qed.

Lemma unmark_chunks i ms : chunks (unmark i ms) = [].
Proof. by destruct ms. Qed.

(** The run of [_iterencode] on an instance that is not marked and that
    the hook converts to [r]. *)
Lemma obj_block_ending (i : ident) (r : value) (c : value -> gen unit) (a : gset ident) :
  i ∉ a ->
  ending ((mark i;; o' ← lift (Return r); c o';; unmark i) (Some a))
  = ending (c r (Some ({[i]} ∪ a))).
Proof.
  intros Ha. unfold mbind, gen_bind, mark. rewrite bool_decide_eq_false_2 by done.
  cbn. destruct (ending (c r (Some ({[i]} ∪ a)))) as [[]| |]; cbn; try done.
  apply unmark_ending.
Qed.

Lemma obj_block_chunks (i : ident) (r : value) (c : value -> gen unit) (a : gset ident) :
  i ∉ a ->
  chunks ((mark i;; o' ← lift (Return r); c o';; unmark i) (Some a))
  = chunks (c r (Some ({[i]} ∪ a))).
Proof.
  intros Ha. unfold mbind, gen_bind, mark. rewrite bool_decide_eq_false_2 by done.
  cbn. destruct (ending (c r (Some ({[i]} ∪ a)))) as [[]| |]; cbn; try done.
  by rewrite unmark_chunks, app_nil_r.
Qed.

(** ** Two runs side by side

    Most facts below compare two runs of the encoder that differ in one
    respect (fuel, marker table, indent level, [default] hook).  [sim] is
    the comparison: started on tables related by [T], if the first run ends
    in a way that is [good], then either the escape [G] holds or the second
    run ends the same way on related tables, with the same chunks when
    [exact] is set. *)

Section Simulation.

Variable T : markers -> markers -> Prop.
Variable exact : bool.
Variables okR okU G : Prop.

Definition good {A} (st : status A) : Prop :=
  match st with
  | Done _ => True
  | Raised _ => okR
  | Unfinished => okU
  end.

Definition same_chunks (a b : list string) : Prop := exact = true -> a = b.

Definition sim {A} (c1 c2 : gen A) : Prop :=
  forall ms1 ms2, T ms1 ms2 -> good (ending (c1 ms1)) ->
    G \/ (same_chunks (chunks (c1 ms1)) (chunks (c2 ms2))
          /\ ending (c2 ms2) = ending (c1 ms1)
          /\ T (table (c1 ms1)) (table (c2 ms2))).

Lemma sim_ret {A} (a : A) : sim (mret a) (mret a).
Proof. intros ms1 ms2 HT _. right. by repeat split. Qed.

Lemma sim_raise {A} (e : exn) : sim (@raise A e) (raise e).
Proof. intros ms1 ms2 HT _. right. by repeat split. Qed.

Lemma sim_out_of_fuel {A} : sim (@out_of_fuel A) out_of_fuel.
Proof. intros ms1 ms2 HT _. right. by repeat split. Qed.

Lemma sim_lift {A} (r : result A) : sim (lift r) (lift r).
Proof. destruct r; [apply sim_ret | apply sim_raise]. Qed.

Lemma sim_yield (s1 s2 : string) :
  (exact = true -> s1 = s2) -> sim (yield s1) (yield s2).
Proof.
  intros Hs ms1 ms2 HT _. right. repeat split; [|done].
  intros He. cbn. by rewrite (Hs He).
Qed.

Lemma sim_bind {A B} (c1 c2 : gen A) (f1 f2 : A -> gen B) :
  sim c1 c2 -> (forall a, sim (f1 a) (f2 a)) -> sim (c1 ≫= f1) (c2 ≫= f2).
Proof.
  intros Hc Hf ms1 ms2 HT. rewrite !run_bind.
  specialize (Hc ms1 ms2 HT).
  destruct (ending (c1 ms1)) as [a| e |] eqn:E1; cbn; intros Hgood.
  - destruct (Hc I) as [HG | (Hch & -> & HT')]; [by left|].
    destruct (Hf a _ _ HT' Hgood) as [HG | (Hch' & Hen & HT'')]; [by left|].
    right. cbn. repeat split; [|done|done].
    intros He. by rewrite (Hch He), (Hch' He).
  - destruct (Hc Hgood) as [HG | (Hch & -> & HT')]; [by left|].
    right. by repeat split.
  - destruct (Hc Hgood) as [HG | (Hch & -> & HT')]; [by left|].
    right. by repeat split.
Qed.

Lemma sim_seq {A B} (c1 c2 : gen A) (d1 d2 : gen B) :
  sim c1 c2 -> sim d1 d2 -> sim (c1;; d1) (c2;; d2).
Proof. intros Hc Hd. apply sim_bind; [done | intros _; done]. Qed.

(** The loops of one encoder, on two levels and with two functions for the
    nested values. *)

Variable w : interp.
Variable self : encoder.
Variables rec1 rec2 : value -> nat -> gen unit.

Definition levels (l1 l2 : nat) : Prop := exact = true -> l1 = l2.

Definition sim_rec (v : value) : Prop :=
  forall l1 l2, levels l1 l2 -> sim (rec1 v l1) (rec2 v l2).

Lemma sim_list_loop l1 l2 sep1 sep2 buf1 buf2 lst :
  levels l1 l2 ->
  (exact = true -> sep1 = sep2) ->
  (exact = true -> buf1 = buf2) ->
  Forall sim_rec lst ->
  sim (json.JSONEncoder.list_loop w self rec1 l1 sep1 buf1 lst)
      (json.JSONEncoder.list_loop w self rec2 l2 sep2 buf2 lst).
Proof.
  intros Hl Hsep Hbuf Hall. revert buf1 buf2 Hbuf.
  induction Hall as [| v lst Hv Hall IH]; intros buf1 buf2 Hbuf; cbn.
  - apply sim_ret.
  - apply sim_seq; [| by apply IH].
    destruct (json.JSONEncoder.atom w self v) as [t|].
    + apply sim_bind; [apply sim_lift|]. intros text.
      apply sim_yield. intros He. by rewrite (Hbuf He).
    + apply sim_seq; [by apply sim_yield | by apply Hv].
Qed.

Lemma sim_dict_loop l1 l2 sep1 sep2 first items :
  levels l1 l2 ->
  (exact = true -> sep1 = sep2) ->
  Forall (fun kv => sim_rec (snd kv)) items ->
  sim (json.JSONEncoder.dict_loop w self rec1 l1 sep1 first items)
      (json.JSONEncoder.dict_loop w self rec2 l2 sep2 first items).
Proof.
  intros Hl Hsep Hall. revert first.
  induction Hall as [| [k v] items Hv Hall IH]; intros first; cbn.
  - apply sim_ret.
  - destruct (json.JSONEncoder.key_text self k) as [kt|]; [| apply IH].
    apply sim_bind; [apply sim_lift|]. intros k'.
    apply sim_seq.
    { destruct first; [apply sim_ret | by apply sim_yield]. }
    apply sim_seq; [by apply sim_yield|].
    apply sim_seq; [by apply sim_yield|].
    apply sim_seq; [| apply IH].
    destruct (json.JSONEncoder.atom w self v) as [t|].
    + apply sim_bind; [apply sim_lift|]. intros text. by apply sim_yield.
    + by apply Hv.
Qed.

Lemma sim_ret_bind {A B} (a : A) (f1 f2 : A -> gen B) :
  sim (f1 a) (f2 a) -> sim (mret a ≫= f1) (mret a ≫= f2).
Proof.
  intros Hf ms1 ms2 HT. rewrite !run_bind. cbn.
  intros Hgood. destruct (Hf ms1 ms2 HT Hgood) as [HG | (Hch & Hen & HT')]; [by left|].
  right. by repeat split.
Qed.

Lemma sim_raise_bind {A B} (e : exn) (f1 f2 : A -> gen B) :
  sim (raise e ≫= f1) (raise e ≫= f2).
Proof. intros ms1 ms2 HT _. right. by repeat split. Qed.

End Simulation.

(** When the tables are equal, a generator simulates itself. *)
Lemma sim_refl {A} exact okR okU G (c : gen A) : sim eq exact okR okU G c c.
Proof. intros ms1 ms2 <- _. right. by repeat split. Qed.

(** ** The loops use the configuration only *)

Lemma sorted_Forall (P : key * value -> Prop) l l' :
  sorted l = Return l' -> Forall P l -> Forall P l'.
Proof.
  assert (Hins : forall x s s', insort x s = Return s' -> P x -> Forall P s -> Forall P s').
  { intros x s. induction s as [| y s IH]; cbn; intros s' Hs Hx Hall.
    - injection Hs as <-. by constructor.
    - destruct (key_lt y.1 x.1) as [[]|]; cbn in Hs; [| | done].
      + destruct (insort x s) as [s''|] eqn:E; cbn in Hs; [|done].
        injection Hs as <-. inversion Hall; subst. constructor; [done|]. by eapply IH.
      + injection Hs as <-. by constructor. }
  revert l'. induction l as [| x l IH]; cbn; intros l' Hs Hall.
  - injection Hs as <-. constructor.
  - destruct (sorted l) as [s|] eqn:E; cbn in Hs; [|done].
    inversion Hall; subst. eapply Hins; eauto.
Qed.

Lemma list_config w e1 e2 rec i l lst :
  same_config e1 e2 ->
  json.JSONEncoder._iterencode_list w e1 rec i lst l
  = json.JSONEncoder._iterencode_list w e2 rec i lst l.
Proof.
  destruct e1, e2. unfold same_config. cbn. intros (?&?&?&?&?&?&?&?). by subst.
Qed.

Lemma dict_config w e1 e2 rec i l dct :
  same_config e1 e2 ->
  json.JSONEncoder._iterencode_dict w e1 rec i dct l
  = json.JSONEncoder._iterencode_dict w e2 rec i dct l.
Proof.
  destruct e1, e2. unfold same_config. cbn. intros (?&?&?&?&?&?&?&?). by subst.
Qed.

Lemma encoder_config e1 e2 s :
  same_config e1 e2 -> json.JSONEncoder._encoder e1 s = json.JSONEncoder._encoder e2 s.
Proof. intros (_&H&_). unfold json.JSONEncoder._encoder. by rewrite H. Qed.

Lemma floatstr_config w e1 e2 f :
  same_config e1 e2 -> json.JSONEncoder.floatstr w e1 f = json.JSONEncoder.floatstr w e2 f.
Proof. intros (_&_&_&H&_). unfold json.JSONEncoder.floatstr. by rewrite H. Qed.

(** ** One step of [_iterencode], side by side *)

Section Step.

Variable T : markers -> markers -> Prop.
Variable exact : bool.
Variables okR okU G : Prop.
Variable w : interp.
Variables self1 self2 : encoder.
Variables rec1 rec2 : value -> nat -> gen unit.
Hypothesis Hcfg : same_config self1 self2.

Local Abbreviation sim' := (sim T exact okR okU G).
Local Abbreviation sim_rec' := (sim_rec T exact okR okU G rec1 rec2).

Definition sim_marks (i : ident) : Prop :=
  sim' (mark i) (mark i) /\ sim' (unmark i) (unmark i).

(** What is left to show for the parts of [v]. *)
Definition sim_children (v : value) (l1 l2 : nat) : Prop :=
  match v with
  | VList i lst | VTuple i lst => (lst <> [] -> sim_marks i) /\ Forall sim_rec' lst
  | VDict i dct => (dct <> [] -> sim_marks i) /\ Forall (fun kv => sim_rec' (snd kv)) dct
  | VObj i =>
      sim' (mark i;; o' ← lift (_default self1 (VObj i)); rec1 o' l1;; unmark i)
           (mark i;; o' ← lift (_default self2 (VObj i)); rec2 o' l2;; unmark i)
  | _ => True
  end.

Lemma sim_iterencode_list i lst l1 l2 :
  levels exact l1 l2 ->
  (lst <> [] -> sim_marks i) -> Forall sim_rec' lst ->
  sim' (json.JSONEncoder._iterencode_list w self1 rec1 i lst l1)
       (json.JSONEncoder._iterencode_list w self2 rec2 i lst l2).
Proof.
  intros Hl Hm Hall. rewrite (list_config w self1 self2) by done.
  unfold json.JSONEncoder._iterencode_list.
  destruct lst as [| v lst]; [by apply sim_yield|].
  destruct Hm as [Hmark Hunmark]; [done|].
  apply sim_seq; [done|].
  unfold json.JSONEncoder.newline_indent.
  destruct (json.JSONEncoder._indent self2) as [ind|].
  - apply sim_seq; [| apply sim_seq; [by apply sim_yield | done]].
    apply sim_seq.
    + apply sim_list_loop; try done.
      * intros He. f_equal. by apply Hl.
      * intros He. by rewrite (Hl He).
      * intros He. by rewrite (Hl He).
    + apply sim_yield. intros He. by rewrite (Hl He).
  - apply sim_seq; [| apply sim_seq; [by apply sim_yield | done]].
    by apply sim_list_loop.
Qed.

Lemma sim_iterencode_dict i dct l1 l2 :
  levels exact l1 l2 ->
  (dct <> [] -> sim_marks i) -> Forall (fun kv => sim_rec' (snd kv)) dct ->
  sim' (json.JSONEncoder._iterencode_dict w self1 rec1 i dct l1)
       (json.JSONEncoder._iterencode_dict w self2 rec2 i dct l2).
Proof.
  intros Hl Hm Hall. rewrite (dict_config w self1 self2) by done.
  unfold json.JSONEncoder._iterencode_dict.
  destruct dct as [| kv dct]; [by apply sim_yield|].
  destruct Hm as [Hmark Hunmark]; [done|].
  apply sim_seq; [done|].
  apply sim_seq; [by apply sim_yield|].
  assert (Hitems : forall items,
             (if sort_keys self2 then sorted (kv :: dct) else Return (kv :: dct)) = Return items ->
             Forall (fun kv => sim_rec' (snd kv)) items).
  { intros items Hs. destruct (sort_keys self2).
    - by eapply sorted_Forall.
    - by injection Hs as <-. }
  unfold json.JSONEncoder.newline_indent.
  destruct (json.JSONEncoder._indent self2) as [ind|].
  - apply sim_seq; [| apply sim_seq; [by apply sim_yield | done]].
    apply sim_seq; [apply sim_yield; intros He; by rewrite (Hl He)|].
    destruct (if sort_keys self2 then sorted (kv :: dct) else Return (kv :: dct))
      as [items|e] eqn:E; cbn -[mbind mret py_repeat].
    + apply sim_ret_bind.
      apply sim_seq; [| apply sim_yield; intros He; by rewrite (Hl He)].
      apply sim_dict_loop; auto.
      * intros He. f_equal. by apply Hl.
      * intros He. by rewrite (Hl He).
    + apply sim_raise_bind.
  - apply sim_seq; [| apply sim_seq; [by apply sim_yield | done]].
    destruct (if sort_keys self2 then sorted (kv :: dct) else Return (kv :: dct))
      as [items|e] eqn:E; cbn -[mbind mret].
    + apply sim_ret_bind. apply sim_dict_loop; auto.
    + apply sim_raise_bind.
Qed.

Lemma sim_iterencode_body v l1 l2 :
  levels exact l1 l2 ->
  sim_children v l1 l2 ->
  sim' (json.JSONEncoder._iterencode_body w self1 rec1 v l1)
       (json.JSONEncoder._iterencode_body w self2 rec2 v l2).
Proof.
  intros Hl Hv. destruct v as [| [] | n | f | s | i lst | i lst | i dct | i]; cbn -[mbind mret].
  1-4: by apply sim_yield.
  - rewrite (floatstr_config w self1 self2) by done.
    apply sim_bind; [apply sim_lift|]. intros text. by apply sim_yield.
  - apply sim_yield. intros _. by apply encoder_config.
  - destruct Hv. by apply sim_iterencode_list.
  - destruct Hv. by apply sim_iterencode_list.
  - destruct Hv. by apply sim_iterencode_dict.
  - apply Hv.
Qed.

End Step.

Lemma same_config_refl e : same_config e e.
Proof. by repeat split. Qed.

Lemma sim_exact {A} okR okU (c1 c2 : gen A) ms :
  sim eq true okR okU False c1 c2 ->
  good okR okU (ending (c1 ms)) -> c2 ms = c1 ms.
Proof.
  intros Hs Hg. destruct (Hs ms ms eq_refl Hg) as [[] | (Hch & Hen & Htb)].
  rewrite (run_eta (c1 ms)), (run_eta (c2 ms)). by rewrite (Hch eq_refl), Hen, Htb.
Qed.

(** ** More fuel changes nothing once a run has ended *)

Section Fuel.

Variable w : interp.
Variable self : encoder.

Local Abbreviation E := (json.JSONEncoder._iterencode w self).

Lemma iterencode_mono_sim n m :
  n <= m -> forall v, sim_rec eq true True False False (E n) (E m) v.
Proof.
  revert m. induction n as [| n IH]; intros m Hnm v l1 l2 Hl.
  - intros ms1 ms2 _ [].
  - destruct m as [| m]; [lia|]. cbn [json.JSONEncoder._iterencode].
    assert (Hrec : forall v, sim_rec eq true True False False (E n) (E m) v)
      by (intros v'; apply IH; lia).
    apply sim_iterencode_body; [apply same_config_refl | done |].
    destruct v; cbn; try done.
    + split; [intros _; split; apply sim_refl | by apply Forall_forall].
    + split; [intros _; split; apply sim_refl | by apply Forall_forall].
    + split; [intros _; split; apply sim_refl | by apply Forall_forall].
    + apply sim_seq; [apply sim_refl|].
      apply sim_bind; [apply sim_refl|]. intros o'.
      apply sim_seq; [by apply Hrec | apply sim_refl].
Qed.

Lemma iterencode_mono n m v l ms :
  n <= m -> ending (E n v l ms) <> Unfinished -> E m v l ms = E n v l ms.
Proof.
  intros Hnm Hend. apply (sim_exact True False).
  - by apply iterencode_mono_sim.
  - by destruct (ending (E n v l ms)).
Qed.

(** ** The indent level changes the chunks only *)

Lemma iterencode_level_sim n :
  forall v, sim_rec eq false True True False (E n) (E n) v.
Proof.
  induction n as [| n IH]; intros v l1 l2 Hl.
  - apply sim_out_of_fuel.
  - cbn [json.JSONEncoder._iterencode].
    apply sim_iterencode_body; [apply same_config_refl | done |].
    destruct v; cbn; try done.
    + split; [intros _; split; apply sim_refl | by apply Forall_forall].
    + split; [intros _; split; apply sim_refl | by apply Forall_forall].
    + split; [intros _; split; apply sim_refl | by apply Forall_forall].
    + apply sim_seq; [apply sim_refl|].
      apply sim_bind; [apply sim_refl|]. intros o'.
      apply sim_seq; [by apply IH | apply sim_refl].
Qed.

Lemma iterencode_level n v l1 l2 ms :
  ending (E n v l2 ms) = ending (E n v l1 ms).
Proof.
  destruct (iterencode_level_sim n v l1 l2 (fun H => False_ind _ (Bool.diff_false_true H))
              ms ms eq_refl) as [[] | (_ & Hen & _)]; [|done].
  by destruct (ending (E n v l1 ms)).
Qed.

(** ** A run that succeeds does so on any smaller marker table *)

Definition shrinks (ms1 ms2 : markers) : Prop :=
  match ms1, ms2 with
  | Some a, Some b => b ⊆ a
  | None, None => True
  | _, _ => False
  end.

Lemma shrink_marks i : sim_marks shrinks true False False False i.
Proof.
  split; intros [a|] [b|] HT Hg; try done; right; try by repeat split.
  - unfold mark in *. case_bool_decide as Ha; cbn in Hg; [done|].
    rewrite bool_decide_eq_false_2 by set_solver. cbn in *.
    repeat split; try done; set_solver.
  - cbn in *. repeat split; try done; set_solver.
Qed.

Lemma iterencode_shrink_sim n :
  forall v, sim_rec shrinks true False False False (E n) (E n) v.
Proof.
  induction n as [| n IH]; intros v l1 l2 Hl.
  - intros ms1 ms2 _ [].
  - cbn [json.JSONEncoder._iterencode].
    apply sim_iterencode_body; [apply same_config_refl | done |].
    destruct v; cbn; try done.
    + split; [intros _; apply shrink_marks | by apply Forall_forall].
    + split; [intros _; apply shrink_marks | by apply Forall_forall].
    + split; [intros _; apply shrink_marks | by apply Forall_forall].
    + apply sim_seq; [apply shrink_marks|].
      apply sim_bind; [apply sim_lift|]. intros o'.
      apply sim_seq; [by apply IH | apply shrink_marks].
Qed.

Lemma iterencode_shrink n v l a b :
  b ⊆ a -> ending (E n v l (Some a)) = Done tt ->
  chunks (E n v l (Some b)) = chunks (E n v l (Some a))
  /\ ending (E n v l (Some b)) = Done tt.
Proof.
  intros Hab Hend.
  destruct (iterencode_shrink_sim n v l l (fun _ => eq_refl) (Some a) (Some b) Hab)
    as [[] | (Hch & Hen & _)].
  - by rewrite Hend.
  - split; [symmetry; by apply Hch | congruence].
Qed.

End Fuel.

(** ** The [default] hook matters for instances only *)

Section Hooks.

Variable w : interp.
Variables self1 self2 : encoder.
Hypothesis Hcfg : same_config self1 self2.

Local Abbreviation E1 := (json.JSONEncoder._iterencode w self1).
Local Abbreviation E2 := (json.JSONEncoder._iterencode w self2).

Lemma native_Forall l : forallb native l = true -> Forall (fun v => native v = true) l.
Proof. intros H. apply Forall_forall. intros v Hv. rewrite forallb_forall in H. apply H. by apply list_elem_of_In. Qed.

Lemma iterencode_native_sim n :
  forall v, native v = true -> sim_rec eq true True True False (E1 n) (E2 n) v.
Proof.
  induction n as [| n IH]; intros v Hv l1 l2 Hl.
  - apply sim_out_of_fuel.
  - cbn [json.JSONEncoder._iterencode].
    apply sim_iterencode_body; [done | done |].
    destruct v; cbn in *; try done.
    + split; [intros _; split; apply sim_refl|].
      eapply Forall_impl; [by apply native_Forall|]. intros v' Hv'. by apply IH.
    + split; [intros _; split; apply sim_refl|].
      eapply Forall_impl; [by apply native_Forall|]. intros v' Hv'. by apply IH.
    + split; [intros _; split; apply sim_refl|].
      apply Forall_forall. intros kv Hkv. apply IH.
      rewrite forallb_forall in Hv. apply Hv. by apply list_elem_of_In.
Qed.

(** On a value without instances the two encoders run alike. *)
Lemma iterencode_native n v l ms :
  native v = true -> E2 n v l ms = E1 n v l ms.
Proof.
  intros Hv. apply (sim_exact True True).
  - by apply iterencode_native_sim.
  - by destruct (ending (E1 n v l ms)).
Qed.

(** A hook that raises whatever it is given, as [JSONEncoder.default]. *)
Definition always_raises (d : hook) : Prop := forall o, exists e, d o = Raise e.

Hypothesis Hraises : always_raises (_default self1).

Lemma iterencode_base_sim n :
  forall v, sim_rec eq true False False False (E1 n) (E2 n) v.
Proof.
  induction n as [| n IH]; intros v l1 l2 Hl.
  - intros ms1 ms2 _ [].
  - cbn [json.JSONEncoder._iterencode].
    apply sim_iterencode_body; [done | done |].
    destruct v; cbn; try done.
    + split; [intros _; split; apply sim_refl | by apply Forall_forall].
    + split; [intros _; split; apply sim_refl | by apply Forall_forall].
    + split; [intros _; split; apply sim_refl | by apply Forall_forall].
    + intros ms1 ms2 _ Hg. exfalso. revert Hg.
      destruct (Hraises (VObj i)) as [e ->].
      rewrite run_bind. destruct (ending (mark i ms1)); by cbn.
Qed.

(** If the first encoder, whose [default] always raises, completes, the
    second one does the same. *)
Lemma iterencode_base n v l ms :
  ending (E1 n v l ms) = Done tt -> E2 n v l ms = E1 n v l ms.
Proof.
  intros Hend. apply (sim_exact False False).
  - by apply iterencode_base_sim.
  - by rewrite Hend.
Qed.

End Hooks.

(** ** Marking one more identity

    [i] is an instance that the hook converts to [r].  A run on [r] that
    succeeds from the empty table also succeeds when [i] is marked: if the
    run came across [i] it would convert it to [r] again, and the run on [r]
    that this starts, with [i] marked, is the one looked for. *)

Section Grow.

Variable w : interp.
Variable self : encoder.
Variable i : ident.
Variable r : value.
Variable n : nat.

Hypothesis Hids : forall j r', _default self (VObj j) = Return r' -> avoids i r' = true.
Hypothesis Hdef : _default self (VObj i) = Return r.

Local Abbreviation E := (json.JSONEncoder._iterencode w self).

Definition grown : Prop := ending (E n r 0 (Some {[i]})) = Done tt.

Definition grows (ms1 ms2 : markers) : Prop :=
  exists a, ms1 = Some a /\ ms2 = Some ({[i]} ∪ a) /\ i ∉ a.

Lemma grow_marks j : j <> i -> sim_marks grows true False False grown j.
Proof.
  intros Hj. split; intros ms1 ms2 (a & -> & -> & Ha) Hg; right.
  - unfold mark in *. case_bool_decide as Hja; cbn in Hg; [done|].
    rewrite bool_decide_eq_false_2.
    + cbn. repeat split. exists ({[j]} ∪ a). repeat split.
      * f_equal. apply leibniz_equiv. intros x. rewrite !elem_of_union. tauto.
      * rewrite elem_of_union, elem_of_singleton. intros [->|]; done.
    + rewrite elem_of_union, elem_of_singleton. intros [->|]; done.
  - cbn. repeat split. exists (a ∖ {[j]}). repeat split.
    + f_equal. apply leibniz_equiv. intros x.
      rewrite !elem_of_union, !elem_of_difference, !elem_of_union, !elem_of_singleton.
      split; [intros [[->|?] ?]; auto | intros [->|[? ?]]; auto].
    + rewrite elem_of_difference. tauto.
Qed.

Lemma avoids_Forall l : forallb (avoids i) l = true -> Forall (fun v => avoids i v = true) l.
Proof.
  intros H. apply Forall_forall. intros v Hv. rewrite forallb_forall in H.
  apply H. by apply list_elem_of_In.
Qed.

Lemma iterencode_grow_sim k :
  k <= n -> forall v, avoids i v = true -> sim_rec grows true False False grown (E k) (E k) v.
Proof.
  induction k as [| k IH]; intros Hk v Hv l1 l2 Hl.
  - intros ms1 ms2 _ [].
  - cbn [json.JSONEncoder._iterencode].
    assert (Hrec : forall v, avoids i v = true ->
                     sim_rec grows true False False grown (E k) (E k) v)
      by (apply IH; lia).
    apply sim_iterencode_body; [apply same_config_refl | done |].
    destruct v as [| | | | | j lst | j lst | j dct | j]; cbn in *; try done.
    + apply andb_true_iff in Hv as [Hj Hlst]. apply negb_true_iff, Nat.eqb_neq in Hj.
      split; [intros _; by apply grow_marks|].
      eapply Forall_impl; [by apply avoids_Forall|]. intros v'. apply Hrec.
    + apply andb_true_iff in Hv as [Hj Hlst]. apply negb_true_iff, Nat.eqb_neq in Hj.
      split; [intros _; by apply grow_marks|].
      eapply Forall_impl; [by apply avoids_Forall|]. intros v'. apply Hrec.
    + apply andb_true_iff in Hv as [Hj Hdct]. apply negb_true_iff, Nat.eqb_neq in Hj.
      split; [intros _; by apply grow_marks|].
      apply Forall_forall. intros kv Hkv. apply Hrec.
      rewrite forallb_forall in Hdct. apply Hdct. by apply list_elem_of_In.
    + destruct (decide (j = i)) as [-> | Hj].
      * (* the run comes across [i] *)
        intros ms1 ms2 (a & -> & -> & Ha) Hg. left. unfold grown.
        rewrite Hdef, obj_block_ending in Hg by done.
        destruct (ending (E k r l1 (Some ({[i]} ∪ a)))) as [[]| |] eqn:Hend; try done.
        destruct (iterencode_shrink w self k r l1 ({[i]} ∪ a) {[i]}) as [_ Hsh];
          [intros x; rewrite elem_of_union; tauto | done |].
        rewrite <- (iterencode_level w self k r l1 0) in Hsh.
        rewrite (iterencode_mono w self k n) by (lia || by rewrite Hsh). done.
      * destruct (grow_marks j Hj) as [Hm Hu].
        apply sim_seq; [done|].
        destruct (_default self (VObj j)) as [r'|e] eqn:Ed; cbn -[mbind mret].
        -- apply sim_ret_bind. apply sim_seq; [|done]. apply Hrec; [|done]. by eapply Hids.
        -- apply sim_raise_bind.
Qed.

Lemma iterencode_grow :
  ending (E n r 0 (Some ∅)) = Done tt ->
  ending (E n r 0 (Some {[i]})) = Done tt
  /\ chunks (E n r 0 (Some {[i]})) = chunks (E n r 0 (Some ∅)).
Proof.
  intros Hend.
  assert (Hg : grown).
  { destruct (iterencode_grow_sim n (le_n n) r (Hids i r Hdef) 0 0 (fun _ => eq_refl)
                (Some ∅) (Some {[i]})) as [HG | (_ & Hen & _)].
    - exists ∅. repeat split; [| apply not_elem_of_empty].
      f_equal. apply leibniz_equiv. intros x. rewrite elem_of_union, elem_of_empty. tauto.
    - by rewrite Hend.
    - done.
    - unfold grown. congruence. }
  split; [done|].
  destruct (iterencode_shrink w self n r 0 {[i]} ∅) as [Hch _]; [| done | done].
  intros x. by rewrite elem_of_empty.
Qed.

End Grow.

(** ** Runs that end *)

(** A generator that never runs out of fuel. *)
Definition finishes {A} (c : gen A) : Prop := forall ms, ending (c ms) <> Unfinished.

Lemma finishes_ret {A} (a : A) : finishes (mret a).
Proof. by intros ms. Qed.

Lemma finishes_raise {A} (e : exn) : finishes (@raise A e).
Proof. by intros ms. Qed.

Lemma finishes_lift {A} (r : result A) : finishes (lift r).
Proof. destruct r; [apply finishes_ret | apply finishes_raise]. Qed.

Lemma finishes_yield (s : string) : finishes (yield s).
Proof. by intros ms. Qed.

Lemma finishes_mark i : finishes (mark i).
Proof. intros [a|]; [|done]. unfold mark. by case_bool_decide. Qed.

Lemma finishes_unmark i : finishes (unmark i).
Proof. by intros [a|]. Qed.

Lemma finishes_bind {A B} (c : gen A) (f : A -> gen B) :
  finishes c -> (forall a, finishes (f a)) -> finishes (c ≫= f).
Proof.
  intros Hc Hf ms. rewrite run_bind. specialize (Hc ms).
  destruct (ending (c ms)) as [a| e |]; cbn; [apply Hf | done | done].
Qed.

Lemma finishes_ret_bind {A B} (a : A) (f : A -> gen B) :
  finishes (f a) -> finishes (mret a ≫= f).
Proof. intros Hf ms. rewrite run_bind. cbn. apply Hf. Qed.

Lemma finishes_raise_bind {A B} (e : exn) (f : A -> gen B) : finishes (raise e ≫= f).
Proof. by intros ms. Qed.

Lemma finishes_seq {A B} (c : gen A) (d : gen B) :
  finishes c -> finishes d -> finishes (c;; d).
Proof. intros Hc Hd. by apply finishes_bind. Qed.

Section Finishes.

Variable w : interp.
Variable self : encoder.
Variable rec : value -> nat -> gen unit.

Definition finishes_rec (v : value) : Prop := forall l, finishes (rec v l).

Lemma finishes_list_loop l sep buf lst :
  Forall finishes_rec lst -> finishes (json.JSONEncoder.list_loop w self rec l sep buf lst).
Proof.
  intros Hall. revert buf. induction Hall as [| v lst Hv Hall IH]; intros buf; cbn.
  - apply finishes_ret.
  - apply finishes_seq; [| apply IH].
    destruct (json.JSONEncoder.atom w self v) as [t|].
    + apply finishes_bind; [apply finishes_lift | intros; apply finishes_yield].
    + apply finishes_seq; [apply finishes_yield | apply Hv].
Qed.

Lemma finishes_dict_loop l sep first items :
  Forall (fun kv => finishes_rec (snd kv)) items ->
  finishes (json.JSONEncoder.dict_loop w self rec l sep first items).
Proof.
  intros Hall. revert first. induction Hall as [| [k v] items Hv Hall IH]; intros first; cbn.
  - apply finishes_ret.
  - destruct (json.JSONEncoder.key_text self k) as [kt|]; [| apply IH].
    apply finishes_bind; [apply finishes_lift|]. intros k'.
    apply finishes_seq; [destruct first; [apply finishes_ret | apply finishes_yield]|].
    do 2 (apply finishes_seq; [apply finishes_yield|]).
    apply finishes_seq; [| apply IH].
    destruct (json.JSONEncoder.atom w self v) as [t|].
    + apply finishes_bind; [apply finishes_lift | intros; apply finishes_yield].
    + apply Hv.
Qed.

Lemma finishes_iterencode_list i lst l :
  Forall finishes_rec lst -> finishes (json.JSONEncoder._iterencode_list w self rec i lst l).
Proof.
  intros Hall. unfold json.JSONEncoder._iterencode_list.
  destruct lst as [| v lst]; [apply finishes_yield|].
  apply finishes_seq; [apply finishes_mark|].
  destruct (json.JSONEncoder.newline_indent self (S l)) as [nl|].
  - apply finishes_seq; [| apply finishes_seq; [apply finishes_yield | apply finishes_unmark]].
    apply finishes_seq; [by apply finishes_list_loop | apply finishes_yield].
  - apply finishes_seq; [| apply finishes_seq; [apply finishes_yield | apply finishes_unmark]].
    by apply finishes_list_loop.
Qed.

Lemma finishes_iterencode_dict i dct l :
  Forall (fun kv => finishes_rec (snd kv)) dct ->
  finishes (json.JSONEncoder._iterencode_dict w self rec i dct l).
Proof.
  intros Hall. unfold json.JSONEncoder._iterencode_dict.
  destruct dct as [| kv dct]; [apply finishes_yield|].
  apply finishes_seq; [apply finishes_mark|].
  apply finishes_seq; [apply finishes_yield|].
  assert (Hloop : forall F : list (key * value) -> gen unit,
             (forall items, Forall (fun kv => finishes_rec (snd kv)) items -> finishes (F items)) ->
             finishes (items ← lift (if sort_keys self then sorted (kv :: dct)
                                     else Return (kv :: dct)); F items)).
  { intros F HF.
    destruct (if sort_keys self then sorted (kv :: dct) else Return (kv :: dct))
      as [items|e] eqn:E; [| apply finishes_raise_bind].
    apply finishes_ret_bind, HF.
    destruct (sort_keys self); [by eapply sorted_Forall | by injection E as <-]. }
  destruct (json.JSONEncoder.newline_indent self (S l)) as [nl|].
  - apply finishes_seq; [| apply finishes_seq; [apply finishes_yield | apply finishes_unmark]].
    apply finishes_seq; [apply finishes_yield|].
    apply Hloop. intros items Hitems.
    apply finishes_seq; [by apply finishes_dict_loop | apply finishes_yield].
  - apply finishes_seq; [| apply finishes_seq; [apply finishes_yield | apply finishes_unmark]].
    apply Hloop. intros items Hitems. by apply finishes_dict_loop.
Qed.

End Finishes.

(** ** The marker table after a run *)

(** A generator that, when it completes, leaves the table as it found it. *)
Definition restores {A} (c : gen A) : Prop :=
  forall ms a, ending (c ms) = Done a -> table (c ms) = ms.

(** A generator that, when it completes, has taken [i] off the table. *)
Definition without (i : ident) (ms : markers) : markers :=
  match ms with
  | Some a => Some (a ∖ {[i]})
  | None => None
  end.

Definition unmarks {A} (i : ident) (c : gen A) : Prop :=
  forall ms a, ending (c ms) = Done a -> table (c ms) = without i ms.

Lemma restores_ret {A} (a : A) : restores (mret a).
Proof. by intros ms b. Qed.

Lemma restores_yield (s : string) : restores (yield s).
Proof. by intros ms b. Qed.

Lemma restores_lift {A} (r : result A) : restores (lift r).
Proof. by destruct r; intros ms b. Qed.

Lemma restores_bind {A B} (c : gen A) (f : A -> gen B) :
  restores c -> (forall a, restores (f a)) -> restores (c ≫= f).
Proof.
  intros Hc Hf ms b. rewrite run_bind. specialize (Hc ms).
  destruct (ending (c ms)) as [a| e |]; cbn; [| done | done].
  intros Hb. rewrite (Hf a _ b Hb). by apply (Hc a).
Qed.

Lemma restores_seq {A B} (c : gen A) (d : gen B) :
  restores c -> restores d -> restores (c;; d).
Proof. intros Hc Hd. by apply restores_bind. Qed.

Lemma unmarks_unmark i : unmarks i (unmark i).
Proof. by intros [a|] b. Qed.

Lemma unmarks_bind {A B} i (c : gen A) (f : A -> gen B) :
  restores c -> (forall a, unmarks i (f a)) -> unmarks i (c ≫= f).
Proof.
  intros Hc Hf ms b. rewrite run_bind. specialize (Hc ms).
  destruct (ending (c ms)) as [a| e |]; cbn; [| done | done].
  intros Hb. rewrite (Hf a _ b Hb). f_equal. by apply (Hc a).
Qed.

Lemma unmarks_seq {A B} i (c : gen A) (d : gen B) :
  restores c -> unmarks i d -> unmarks i (c;; d).
Proof. intros Hc Hd. by apply unmarks_bind. Qed.

Lemma restores_marked {A} i (c : gen A) : unmarks i c -> restores (mark i;; c).
Proof.
  intros Hc [a|] b; rewrite run_bind.
  - unfold mark. case_bool_decide as Hi; cbn; [done|].
    intros Hb. rewrite (Hc _ b Hb). cbn. f_equal. apply leibniz_equiv. intros x.
    rewrite elem_of_difference, elem_of_union, elem_of_singleton.
    split; [intros [[->|?] ?]; done | intros ?; split; [by right | by intros ->]].
  - cbn. intros Hb. by rewrite (Hc _ b Hb).
Qed.

Section Restores.

Variable w : interp.
Variable self : encoder.

Lemma restores_list_loop rec l sep buf lst :
  Forall (fun v => forall l, restores (rec v l)) lst ->
  restores (json.JSONEncoder.list_loop w self rec l sep buf lst).
Proof.
  intros Hall. revert buf. induction Hall as [| v lst Hv Hall IH]; intros buf; cbn.
  - apply restores_ret.
  - apply restores_seq; [| apply IH].
    destruct (json.JSONEncoder.atom w self v) as [t|].
    + apply restores_bind; [apply restores_lift | intros; apply restores_yield].
    + apply restores_seq; [apply restores_yield | apply Hv].
Qed.

Lemma restores_dict_loop rec l sep first items :
  Forall (fun kv => forall l, restores (rec (snd kv) l)) items ->
  restores (json.JSONEncoder.dict_loop w self rec l sep first items).
Proof.
  intros Hall. revert first. induction Hall as [| [k v] items Hv Hall IH]; intros first; cbn.
  - apply restores_ret.
  - destruct (json.JSONEncoder.key_text self k) as [kt|]; [| apply IH].
    apply restores_bind; [apply restores_lift|]. intros k'.
    apply restores_seq; [destruct first; [apply restores_ret | apply restores_yield]|].
    do 2 (apply restores_seq; [apply restores_yield|]).
    apply restores_seq; [| apply IH].
    destruct (json.JSONEncoder.atom w self v) as [t|].
    + apply restores_bind; [apply restores_lift | intros; apply restores_yield].
    + apply Hv.
Qed.

Lemma restores_sorted (dct : list (key * value)) (P : key * value -> Prop)
    (F : list (key * value) -> gen unit) :
  Forall P dct ->
  (forall items, Forall P items -> restores (F items)) ->
  restores (items ← lift (if sort_keys self then sorted dct else Return dct); F items).
Proof.
  intros Hall HF.
  destruct (if sort_keys self then sorted dct else Return dct) as [items|e] eqn:E.
  - assert (Hitems : Forall P items).
    { destruct (sort_keys self); [by eapply sorted_Forall | by injection E as <-]. }
    intros ms b. rewrite run_bind. cbn. intros Hb. by rewrite (HF items Hitems ms b Hb).
  - by intros ms b.
Qed.

Lemma restores_iterencode n : forall v l, restores (json.JSONEncoder._iterencode w self n v l).
Proof.
  induction n as [| n IH]; intros v l; [by intros ms b|].
  cbn [json.JSONEncoder._iterencode].
  destruct v as [| [] | k | f | s | i lst | i lst | i dct | i]; cbn -[mbind mret];
    try apply restores_yield.
  - apply restores_bind; [apply restores_lift | intros; apply restores_yield].
  - unfold json.JSONEncoder._iterencode_list. destruct lst as [| v lst]; [apply restores_yield|].
    apply restores_marked.
    assert (Hall : Forall (fun v => forall l, restores (json.JSONEncoder._iterencode w self n v l))
                     (v :: lst)) by by apply Forall_forall.
    destruct (json.JSONEncoder.newline_indent self (S l)) as [nl|].
    + apply unmarks_seq; [| apply unmarks_seq; [apply restores_yield | apply unmarks_unmark]].
      apply restores_seq; [by apply restores_list_loop | apply restores_yield].
    + apply unmarks_seq; [| apply unmarks_seq; [apply restores_yield | apply unmarks_unmark]].
      by apply restores_list_loop.
  - unfold json.JSONEncoder._iterencode_list. destruct lst as [| v lst]; [apply restores_yield|].
    apply restores_marked.
    assert (Hall : Forall (fun v => forall l, restores (json.JSONEncoder._iterencode w self n v l))
                     (v :: lst)) by by apply Forall_forall.
    destruct (json.JSONEncoder.newline_indent self (S l)) as [nl|].
    + apply unmarks_seq; [| apply unmarks_seq; [apply restores_yield | apply unmarks_unmark]].
      apply restores_seq; [by apply restores_list_loop | apply restores_yield].
    + apply unmarks_seq; [| apply unmarks_seq; [apply restores_yield | apply unmarks_unmark]].
      by apply restores_list_loop.
  - unfold json.JSONEncoder._iterencode_dict. destruct dct as [| kv dct]; [apply restores_yield|].
    apply restores_marked. apply unmarks_seq; [apply restores_yield|].
    assert (Hall : Forall (fun kv => forall l,
                             restores (json.JSONEncoder._iterencode w self n (snd kv) l))
                     (kv :: dct)) by by apply Forall_forall.
    destruct (json.JSONEncoder.newline_indent self (S l)) as [nl|].
    + apply unmarks_seq; [| apply unmarks_seq; [apply restores_yield | apply unmarks_unmark]].
      apply restores_seq; [apply restores_yield|].
      eapply restores_sorted; [exact Hall|]. intros items Hitems.
      apply restores_seq; [by apply restores_dict_loop | apply restores_yield].
    + apply unmarks_seq; [| apply unmarks_seq; [apply restores_yield | apply unmarks_unmark]].
      eapply restores_sorted; [exact Hall|]. intros items Hitems.
      by apply restores_dict_loop.
  - apply restores_marked. apply unmarks_bind; [apply restores_lift|]. intros o'.
    apply unmarks_seq; [apply IH | apply unmarks_unmark].
Qed.

End Restores.

(** ** The wrappers, unfolded *)

(** The encoder [json_dumps] and [json_dump] build. *)
Definition wrapper_encoder (w : interp) (kw : kwargs) : encoder :=
  json.make_encoder w (bind_cls JsonEncoder.class kw).

Lemma cached_bind_cls c kw : json.cached (bind_cls c kw) = false.
Proof.
  unfold json.cached. cbn. by rewrite !andb_false_r.
Qed.

Lemma json_dumps_eq fuel w g obj kw :
  kw_cls kw = None ->
  json_dumps fuel w g obj kw = json.JSONEncoder.encode w (wrapper_encoder w kw) fuel obj.
Proof.
  intros Hcls. unfold json_dumps, args_from, call_with_cls, json.dumps, json.encoder_of.
  by rewrite Hcls, cached_bind_cls.
Qed.

Lemma json_dump_eq fuel w g obj fp kw :
  kw_cls kw = None ->
  json_dump fuel w g obj fp kw =
  let r := json.JSONEncoder.iterencode w (wrapper_encoder w kw) fuel obj in
  (fold_left json.write (chunks r) fp, ending r).
Proof.
  intros Hcls. unfold json_dump, args_from, call_with_cls, json.dump, json.encoder_of.
  by rewrite Hcls, cached_bind_cls.
Qed.

Lemma wrapper_default w kw :
  default_unset kw -> _default (wrapper_encoder w kw) = JsonEncoder.default w.
Proof. unfold default_unset. cbn. by intros ->. Qed.

Lemma wrapper_check_circular w kw :
  check_circular (wrapper_encoder w kw) = circular_checked kw.
Proof. done. Qed.

(** [JsonEncoder.default] by cases on the [to_json] attribute. *)
Lemma default_absent w i :
  getattr w (VObj i) "to_json" = None -> JsonEncoder.default w (VObj i) = Return (VObj i).
Proof. intros H. unfold JsonEncoder.default, hasattr. by rewrite H. Qed.

Lemma default_method w i body :
  getattr w (VObj i) "to_json" = Some (Method body) -> JsonEncoder.default w (VObj i) = body.
Proof.
  intros H. unfold JsonEncoder.default, hasattr, call_method. rewrite H. cbn. by destruct body.
Qed.

Lemma default_data w i v :
  getattr w (VObj i) "to_json" = Some (Data v) ->
  JsonEncoder.default w (VObj i)
  = Raise (TypeError ("'" +:+ type_name w v +:+ "' object is not callable")).
Proof. intros H. unfold JsonEncoder.default, hasattr, call_method. by rewrite H. Qed.

(** The first step on an instance whose conversion raises. *)
Lemma iterencode_obj_raise w self fuel i e ms :
  _default self (VObj i) = Raise e ->
  ms = None \/ ms = Some ∅ ->
  json.JSONEncoder._iterencode w self (S fuel) (VObj i) 0 ms
  = Run [] (match ms with Some _ => Some {[i]} | None => None end) (Raised e).
Proof.
  intros Hd [-> | ->]; cbn -[mark]; unfold mbind, gen_bind.
  - cbn. by rewrite Hd.
  - rewrite mark_fresh by apply not_elem_of_empty. cbn. rewrite Hd. cbn.
    by rewrite union_empty_r_L.
Qed.

Lemma iterencode_start (self : encoder) :
  let ms : markers := if check_circular self then Some ∅ else None in
  ms = None \/ ms = Some ∅.
Proof. destruct (check_circular self); auto. Qed.

Lemma wrapper_raise fuel w g i e kw fp :
  kw_cls kw = None -> default_unset kw ->
  JsonEncoder.default w (VObj i) = Raise e ->
  json_dumps (S fuel) w g (VObj i) kw = Raised e
  /\ json_dump (S fuel) w g (VObj i) fp kw = (fp, Raised e).
Proof.
  intros Hcls Hdef He.
  rewrite json_dumps_eq, json_dump_eq by done.
  unfold json.JSONEncoder.encode, json.JSONEncoder.iterencode.
  rewrite (iterencode_obj_raise _ _ _ _ e); [| by rewrite wrapper_default | apply iterencode_start].
  done.
Qed.

(** [encode] is the join of the chunks, but for a str at top level, which
    it encodes without starting the generator. *)
Definition joined (r : run unit) : status string :=
  match ending r with
  | Done _ => Done (String.concat "" (chunks r))
  | Raised e => Raised e
  | Unfinished => Unfinished
  end.

Lemma encode_cases w v :
  (exists t, v = VStr t)
  \/ (forall e n, json.JSONEncoder.encode w e n v
                  = joined (json.JSONEncoder.iterencode w e n v)).
Proof. destruct v; try (by right). left. by eexists. Qed.

(** * The claims *)

(** C8. The probe of [default] is [hasattr] alone.  An instance whose
    [to_json] attribute is a value that cannot be called passes it, the
    call [obj.to_json()] raises the TypeError of calling a non-callable, and
    that error, which is not the not-serializable error of the base encoder,
    is what [json_dumps] and [json_dump] raise; nothing is written. *)
Theorem C8_non_callable_to_json fuel w g i v kw fp :
  getattr w (VObj i) "to_json" = Some (Data v) ->
  kw_cls kw = None -> default_unset kw ->
  let e := TypeError ("'" +:+ type_name w v +:+ "' object is not callable") in
  hasattr w (VObj i) "to_json" = true
  /\ json_dumps (S fuel) w g (VObj i) kw = Raised e
  /\ json_dump (S fuel) w g (VObj i) fp kw = (fp, Raised e)
  /\ e <> not_serializable w (VObj i).
Proof.
  intros Hattr Hcls Hdef e. split; [| split; [| split]].
  - unfold hasattr. by rewrite Hattr.
  - eapply wrapper_raise; eauto using default_data.
  - eapply (wrapper_raise fuel w g i e kw fp); eauto using default_data.
  - unfold e, not_serializable, TypeError. cbn. intros [=].
Qed.

Lemma C8_witness :
  json_dumps 1 sample (json.module sample) (VObj 3) no_kwargs
  = Raised (TypeError "'int' object is not callable").
Proof.
  exact (proj1 (proj2 (C8_non_callable_to_json 0 sample (json.module sample) 3 (VInt 3)
                         no_kwargs "" eq_refl eq_refl eq_refl))).
Defined.



(** The base functions of the module as imported build their encoder
    from the keywords, cached or not. *)
Lemma encoder_of_module w kw :
  json.encoder_of w (json.module w) kw = json.make_encoder w kw.
Proof.
  unfold json.encoder_of. destruct (json.cached kw) eqn:E; [|done].
  unfold json.cached in E. repeat (apply andb_prop in E as [E ?]).
  unfold json.make_encoder, json.module. cbn.
  destruct (json.arg false (kw_skipkeys kw)); [done|].
  destruct (json.arg true (kw_ensure_ascii kw)); [|done].
  destruct (json.arg true (kw_check_circular kw)); [|done].
  destruct (json.arg true (kw_allow_nan kw)); [|done].
  destruct (json.arg None (kw_cls kw)); [done|].
  destruct (json.arg IndentNone (kw_indent kw)); [|done|done].
  destruct (json.arg None (kw_separators kw)); [done|].
  destruct (json.arg None (kw_default kw)); [done|].
  destruct (json.arg false (kw_sort_keys kw)); [done|].
  done.
Qed.

Lemma base_default w kw :
  kw_cls kw = None -> default_unset kw ->
  _default (json.make_encoder w kw) = json.JSONEncoder.default w.
Proof. unfold default_unset. cbn. by intros -> ->. Qed.

Lemma wrapper_config w kw : same_config (json.make_encoder w kw) (wrapper_encoder w kw).
Proof. by repeat split. Qed.

(** An instance that the hook returns as it is: with the marker table the
    second visit is a circular reference, without it the recursion never
    ends. *)
Lemma iterencode_obj w self fuel i l :
  json.JSONEncoder._iterencode w self (S fuel) (VObj i) l
  = (mark i;; o' ← lift (_default self (VObj i));
     json.JSONEncoder._iterencode w self fuel o' l;; unmark i).
Proof. done. Qed.

Lemma iterencode_self_marked w self fuel i :
  _default self (VObj i) = Return (VObj i) ->
  json.JSONEncoder._iterencode w self (S (S fuel)) (VObj i) 0 (Some ∅)
  = Run [] (Some {[i]}) (Raised circular_reference).
Proof.
  intros Hd. rewrite iterencode_obj, run_bind, mark_fresh by apply not_elem_of_empty.
  cbn [ending chunks table]. rewrite Hd, union_empty_r_L. cbn [lift].
  rewrite run_bind. cbn [mret gen_ret ending chunks table].
  rewrite run_bind, iterencode_obj, run_bind, mark_seen by by apply elem_of_singleton.
  done.
Qed.

Lemma iterencode_self_unmarked w self fuel i l :
  _default self (VObj i) = Return (VObj i) ->
  json.JSONEncoder._iterencode w self fuel (VObj i) l None = Run [] None Unfinished.
Proof.
  intros Hd. induction fuel as [| fuel IH]; [done|].
  cbn. unfold mbind, gen_bind. cbn. rewrite Hd. cbn. by rewrite IH.
Qed.

(** C1. Where the claim fails.  For an instance without a [to_json]
    attribute, [default] returns the instance itself instead of handing it
    to the base class.  The base encoder then encodes what it was given, the
    same instance: with [check_circular] (the default) it finds it in its
    marker table and raises ValueError("Circular reference detected"), and
    without, it recurses with no end.  The not-serializable TypeError, which
    [json.dumps] raises for the same instance, is never raised. *)
Theorem C1_no_to_json_is_a_circular_reference fuel w i kw fp :
  getattr w (VObj i) "to_json" = None ->
  kw_cls kw = None -> default_unset kw ->
  let g := json.module w in
  json.dumps (S fuel) w g (VObj i) kw = Raised (not_serializable w (VObj i))
  /\ (circular_checked kw = true ->
      json_dumps (S (S fuel)) w g (VObj i) kw = Raised circular_reference
      /\ json_dump (S (S fuel)) w g (VObj i) fp kw = (fp, Raised circular_reference))
  /\ (circular_checked kw = false ->
      json_dumps fuel w g (VObj i) kw = Unfinished
      /\ json_dump fuel w g (VObj i) fp kw = (fp, Unfinished))
  /\ circular_reference <> not_serializable w (VObj i).
Proof.
  intros Hattr Hcls Hdef g. split; [| split; [| split]].
  - unfold json.dumps, g. rewrite encoder_of_module.
    unfold json.JSONEncoder.encode, json.JSONEncoder.iterencode.
    rewrite (iterencode_obj_raise _ _ _ _ (not_serializable w (VObj i)));
      [done | by rewrite base_default | apply iterencode_start].
  - intros Hcc. rewrite json_dumps_eq, json_dump_eq by done.
    unfold json.JSONEncoder.encode, json.JSONEncoder.iterencode.
    rewrite wrapper_check_circular, Hcc.
    rewrite iterencode_self_marked; [done|].
    rewrite wrapper_default by done. by apply default_absent.
  - intros Hcc. rewrite json_dumps_eq, json_dump_eq by done.
    unfold json.JSONEncoder.encode, json.JSONEncoder.iterencode.
    rewrite wrapper_check_circular, Hcc.
    rewrite iterencode_self_unmarked; [done|].
    rewrite wrapper_default by done. by apply default_absent.
  - done.
Qed.

Lemma C1_witness :
  json.dumps 1 sample (json.module sample) (VObj 0) no_kwargs
  = Raised (TypeError "Object of type object is not JSON serializable")
  /\ json_dumps 2 sample (json.module sample) (VObj 0) no_kwargs
     = Raised (ValueError "Circular reference detected").
Proof.
  destruct (C1_no_to_json_is_a_circular_reference 0 sample 0 no_kwargs ""
              eq_refl eq_refl eq_refl) as (Hbase & Hon & _).
  split; [exact Hbase | exact (proj1 (Hon eq_refl))].
Defined.

(** ** Text *)

Lemma append_cons (c : ascii) (s t : string) : String c s +:+ t = String c (s +:+ t).
Proof. done. Qed.

Lemma append_nil_r (s : string) : s +:+ "" = s.
Proof. induction s as [| c s IH]; [done | by rewrite append_cons, IH]. Qed.

Lemma append_assoc (s t u : string) : (s +:+ t) +:+ u = s +:+ (t +:+ u).
Proof. induction s as [| c s IH]; [done | by rewrite !append_cons, IH]. Qed.

Lemma concat_cons (c : string) (cs : list string) :
  String.concat "" (c :: cs) = c +:+ String.concat "" cs.
Proof. destruct cs; cbn; [by rewrite append_nil_r | done]. Qed.

(** Writing the chunks one by one appends their concatenation. *)
Lemma fold_write (cs : list string) (fp : string) :
  fold_left json.write cs fp = fp +:+ String.concat "" cs.
Proof.
  revert fp. induction cs as [| c cs IH]; intros fp.
  - cbn. by rewrite append_nil_r.
  - cbn [fold_left]. rewrite IH, concat_cons. unfold json.write. apply append_assoc.
Qed.

Lemma encode_iterencode w e n1 n2 v s :
  json.JSONEncoder.encode w e n1 v = Done s ->
  ending (json.JSONEncoder.iterencode w e n2 v) = Done tt ->
  String.concat "" (chunks (json.JSONEncoder.iterencode w e n2 v)) = s.
Proof.
  intros Hs Hend. destruct (encode_cases w v) as [[t ->] | Hjoin].
  - cbn in Hs. injection Hs as <-. by destruct n2.
  - rewrite Hjoin in Hs. unfold joined in Hs.
    destruct (ending (json.JSONEncoder.iterencode w e n1 v)) as [[]| |] eqn:E1; try done.
    injection Hs as <-. f_equal. unfold json.JSONEncoder.iterencode in *.
    rewrite <- (iterencode_mono w e n1 (n1 `max` n2)) by (lia || by rewrite E1).
    rewrite <- (iterencode_mono w e n2 (n1 `max` n2)) by (lia || by rewrite Hend).
    done.
Qed.

(** C10. [json_dump] and [json_dumps] agree: when both succeed on the same
    value and keywords, what [json_dump] leaves in the sink is what was
    there followed by the text [json_dumps] returns. *)
Theorem C10_dump_writes_what_dumps_returns n1 n2 w g v kw fp fp' s :
  json_dumps n1 w g v kw = Done s ->
  json_dump n2 w g v fp kw = (fp', Done tt) ->
  fp' = fp +:+ s.
Proof.
  intros Hs Hd.
  destruct (kw_cls kw) as [c|] eqn:Hcls.
  { unfold json_dumps, args_from, call_with_cls in Hs. by rewrite Hcls in Hs. }
  rewrite json_dumps_eq in Hs by done. rewrite json_dump_eq in Hd by done.
  cbn zeta in Hd. injection Hd as <- Hend. rewrite fold_write. f_equal.
  by eapply encode_iterencode.
Qed.

Lemma C10_witness :
  json_dumps 3 sample (json.module sample) (VObj 1) no_kwargs = Done (q "{'x': 1, 'y': 2}")
  /\ json_dump 4 sample (json.module sample) (VObj 1) "out:" no_kwargs
     = ("out:" +:+ q "{'x': 1, 'y': 2}", Done tt)
  /\ "out:" +:+ q "{'x': 1, 'y': 2}" = "out:" +:+ q "{'x': 1, 'y': 2}".
Proof.
  split; [reflexivity | split; [reflexivity |]].
  exact (C10_dump_writes_what_dumps_returns 3 4 sample (json.module sample) (VObj 1) no_kwargs
           "out:" ("out:" +:+ q "{'x': 1, 'y': 2}") (q "{'x': 1, 'y': 2}") eq_refl eq_refl).
Defined.

(** ** The wrapper against the base functions *)

(** [cls=json.JSONEncoder], and nothing else. *)
Definition kw_base_cls : kwargs :=
  KwArgs None None None None (Some (Some json.JSONEncoder.class)) None None None None.

(** C3, where the claim fails: [cls] is one of the options of
    [json.dumps], and the wrapper cannot be given it.  On the dict
    [{'a': 1}] with [cls=json.JSONEncoder] the base function returns the
    text and the wrapper raises. *)
Lemma C3_counterexample :
  let v := VDict 7 [(KStr "a", VInt 1)] in
  native v = true
  /\ json.dumps 2 sample (json.module sample) v kw_base_cls = Done (q "{'a': 1}")
  /\ json_dumps 2 sample (json.module sample) v kw_base_cls
     = Raised (TypeError "json.dumps() got multiple values for keyword argument 'cls'")
  /\ json_dumps 2 sample (json.module sample) v kw_base_cls
     <> json.dumps 2 sample (json.module sample) v kw_base_cls.
Proof. repeat split. discriminate. Qed.

(** C3, amended.  For a value the base encoder handles by itself and
    keywords that do not bind [cls], [json_dumps] and [json.dumps] end the
    same way: the same text, the same exception, or both out of fuel.  So
    do [json_dump] and [json.dump], with the same text in the sink. *)
Theorem C3_wrapper_is_base_on_native_values fuel w v kw fp :
  native v = true ->
  kw_cls kw = None ->
  json_dumps fuel w (json.module w) v kw = json.dumps fuel w (json.module w) v kw
  /\ json_dump fuel w (json.module w) v fp kw = json.dump fuel w (json.module w) v fp kw.
Proof.
  intros Hv Hcls. rewrite json_dumps_eq, json_dump_eq by done.
  unfold json.dumps, json.dump. rewrite encoder_of_module.
  pose proof (wrapper_config w kw) as Hcfg.
  unfold json.JSONEncoder.encode, json.JSONEncoder.iterencode.
  replace (check_circular (wrapper_encoder w kw))
    with (check_circular (json.make_encoder w kw)) by done.
  rewrite (iterencode_native w _ _ Hcfg) by done.
  split; [| done]. by destruct v.
Qed.

Lemma C3_witness :
  json_dumps 3 sample (json.module sample)
    (VList 7 [VInt 1; VTuple 8 [VStr "a"; VNone]; VFloat (FFinite 3 (-1))]) no_kwargs
  = Done (q "[1, ['a', null], 1.5]").
Proof.
  rewrite (proj1 (C3_wrapper_is_base_on_native_values 3 sample
                    (VList 7 [VInt 1; VTuple 8 [VStr "a"; VNone]; VFloat (FFinite 3 (-1))])
                    no_kwargs "" eq_refl eq_refl)).
  reflexivity.
Defined.

(** C4, where the claim fails: a call that binds [cls], which the base
    function accepts, fails in the wrapper for every value. *)
Lemma C4_counterexample :
  json.dumps 1 sample (json.module sample) (VInt 1) kw_base_cls = Done "1"
  /\ json_dumps 1 sample (json.module sample) (VInt 1) kw_base_cls
     = Raised (TypeError "json.dumps() got multiple values for keyword argument 'cls'")
  /\ json.dump 1 sample (json.module sample) (VInt 1) "" kw_base_cls = ("1", Done tt)
  /\ json_dump 1 sample (json.module sample) (VInt 1) "" kw_base_cls
     = ("", Raised (TypeError "json.dump() got multiple values for keyword argument 'cls'")).
Proof. by repeat split. Qed.

(** C4, amended.  Every keyword but [cls] is forwarded: for keywords that
    do not bind [cls], whatever the value, a base call that succeeds means
    the wrapper succeeds with the same text.  A call that binds [cls], to
    whatever, raises the TypeError of a keyword given twice, and writes
    nothing. *)
Theorem C4_options_other_than_cls_are_forwarded fuel w v kw fp :
  let g := json.module w in
  (kw_cls kw = None ->
   (forall s, json.dumps fuel w g v kw = Done s -> json_dumps fuel w g v kw = Done s)
   /\ (forall fp', json.dump fuel w g v fp kw = (fp', Done tt) ->
                   json_dump fuel w g v fp kw = (fp', Done tt)))
  /\ (forall c, kw_cls kw = Some c ->
      json_dumps fuel w g v kw
      = Raised (TypeError "json.dumps() got multiple values for keyword argument 'cls'")
      /\ json_dump fuel w g v fp kw
         = (fp, Raised (TypeError "json.dump() got multiple values for keyword argument 'cls'"))).
Proof.
  intros g. split.
  - intros Hcls. rewrite json_dumps_eq, json_dump_eq by done.
    unfold json.dumps, json.dump, g. rewrite encoder_of_module.
    destruct (json.arg None (kw_default kw)) as [f|] eqn:Hdef.
    { (* the caller's hook replaces both [default] methods *)
      replace (wrapper_encoder w kw) with (json.make_encoder w kw); [done|].
      unfold wrapper_encoder, json.make_encoder. cbn. by rewrite Hdef. }
    pose proof (wrapper_config w kw) as Hcfg.
    assert (Hraises : always_raises (_default (json.make_encoder w kw))).
    { rewrite base_default by done. intros o. by eexists. }
    assert (Hrun : ending (json.JSONEncoder.iterencode w (json.make_encoder w kw) fuel v) = Done tt ->
              json.JSONEncoder.iterencode w (wrapper_encoder w kw) fuel v
              = json.JSONEncoder.iterencode w (json.make_encoder w kw) fuel v).
    { unfold json.JSONEncoder.iterencode.
      replace (check_circular (wrapper_encoder w kw))
        with (check_circular (json.make_encoder w kw)) by done.
      apply (iterencode_base w _ _ Hcfg Hraises). }
    split.
    + intros s.
      destruct (encode_cases w v) as [[t ->] | Hjoin]; [exact (fun H => H)|].
      rewrite !Hjoin. unfold joined. intros Hs.
      assert (E : ending (json.JSONEncoder.iterencode w (json.make_encoder w kw) fuel v)
                  = Done tt).
      { by destruct (ending (json.JSONEncoder.iterencode w (json.make_encoder w kw) fuel v))
          as [[]| |]. }
      by rewrite (Hrun E).
    + intros fp' [= <- E]. by rewrite (Hrun E), E.
  - intros c Hcls. unfold json_dumps, json_dump, args_from, call_with_cls. by rewrite Hcls.
Qed.

Lemma C4_witness :
  json_dumps 3 sample (json.module sample) (VList 7 [VInt 1; VInt 2])
    (KwArgs None None None None None (Some (IndentInt 1)) None None (Some true))
  = json.dumps 3 sample (json.module sample) (VList 7 [VInt 1; VInt 2])
      (KwArgs None None None None None (Some (IndentInt 1)) None None (Some true))
  /\ json_dumps 3 sample (json.module sample) (VInt 1) kw_base_cls
     = Raised (TypeError "json.dumps() got multiple values for keyword argument 'cls'").
Proof.
  split.
  - exact (proj1 (proj1 (C4_options_other_than_cls_are_forwarded 3 sample
                           (VList 7 [VInt 1; VInt 2])
                           (KwArgs None None None None None (Some (IndentInt 1)) None None
                              (Some true)) "") eq_refl) _ eq_refl).
  - exact (proj1 (proj2 (C4_options_other_than_cls_are_forwarded 3 sample (VInt 1)
                           kw_base_cls "") _ eq_refl)).
Defined.

(** ** Conversion by [to_json] *)

Lemma obj_block_none (i : ident) (r : value) (c : value -> gen unit) :
  ending ((mark i;; o' ← lift (Return r); c o';; unmark i) None) = ending (c r None)
  /\ chunks ((mark i;; o' ← lift (Return r); c o';; unmark i) None) = chunks (c r None).
Proof.
  unfold mbind, gen_bind. cbn.
  destruct (ending (c r None)) as [[]| |]; cbn; rewrite ?unmark_ending, ?unmark_chunks, ?app_nil_r;
    done.
Qed.

(** A generator run that completes with the chunks of [s]. *)
Definition completes (w : interp) (e : encoder) (v : value) (s : string) : Prop :=
  exists n, ending (json.JSONEncoder.iterencode w e n v) = Done tt
            /\ String.concat "" (chunks (json.JSONEncoder.iterencode w e n v)) = s.

Lemma encode_completes w e v s :
  (exists n, json.JSONEncoder.encode w e n v = Done s) <-> completes w e v s.
Proof.
  destruct (encode_cases w v) as [[t ->] | Hjoin].
  - split.
    + intros [n Hn]. exists 1. split; [done|]. cbn in *. by injection Hn as <-.
    + intros (n & Hend & Hs). exists n. destruct n; [done|]. cbn in *. by subst.
  - split.
    + intros [n Hn]. exists n. rewrite Hjoin in Hn. unfold joined in Hn.
      destruct (ending (json.JSONEncoder.iterencode w e n v)) as [[]| |]; try done.
      by injection Hn as <-.
    + intros (n & Hend & Hs). exists n. rewrite Hjoin. unfold joined. by rewrite Hend, Hs.
Qed.

Lemma serializes_completes w g kw v s :
  kw_cls kw = None ->
  serializes w g kw v s <-> completes w (wrapper_encoder w kw) v s.
Proof.
  intros Hcls. rewrite <- encode_completes. unfold serializes.
  split; intros [n Hn]; exists n; by rewrite json_dumps_eq in * by done.
Qed.

Lemma hook_avoids w kw i :
  default_unset kw -> unshared w i ->
  forall j r', _default (wrapper_encoder w kw) (VObj j) = Return r' -> avoids i r' = true.
Proof.
  intros Hdef Hun j r'. rewrite wrapper_default by done.
  destruct (getattr w (VObj j) "to_json") as [[v|body]|] eqn:Hattr.
  - by rewrite (default_data w j v).
  - rewrite (default_method w j body) by done. intros ->. by apply (Hun j).
  - rewrite default_absent by done. by intros [= <-].
Qed.

Lemma completes_step w kw i r s :
  default_unset kw -> to_json_returns w (VObj i) r -> unshared w i ->
  completes w (wrapper_encoder w kw) (VObj i) s <-> completes w (wrapper_encoder w kw) r s.
Proof.
  intros Hdef Hret Hun. set (e := wrapper_encoder w kw).
  assert (Hd : _default e (VObj i) = Return r).
  { unfold e. rewrite wrapper_default by done. by apply default_method. }
  unfold completes, json.JSONEncoder.iterencode.
  destruct (check_circular e).
  - split; intros (n & Hend & Hs).
    + destruct n as [| n]; [done|]. exists n. rewrite iterencode_obj, Hd in Hend, Hs.
      rewrite obj_block_ending in Hend by apply not_elem_of_empty.
      rewrite obj_block_chunks in Hs by apply not_elem_of_empty.
      destruct (iterencode_shrink w e n r 0 ({[i]} ∪ ∅) ∅) as [Hch Hen];
        [intros x; by rewrite elem_of_empty | done |].
      split; [done | by rewrite Hch].
    + exists (S n). rewrite iterencode_obj, Hd.
      rewrite obj_block_ending, obj_block_chunks by apply not_elem_of_empty.
      rewrite union_empty_r_L.
      destruct (iterencode_grow w e i r n (hook_avoids w kw i Hdef Hun) Hd Hend) as [Hen Hch].
      split; [done | by rewrite Hch].
  - split; intros (n & Hend & Hs).
    + destruct n as [| n]; [done|]. exists n. rewrite iterencode_obj, Hd in Hend, Hs.
      destruct (obj_block_none i r (fun o' => json.JSONEncoder._iterencode w e n o' 0))
        as [Hen Hch].
      rewrite Hen in Hend. rewrite Hch in Hs. done.
    + exists (S n). rewrite iterencode_obj, Hd.
      destruct (obj_block_none i r (fun o' => json.JSONEncoder._iterencode w e n o' 0))
        as [Hen Hch].
      by rewrite Hen, Hch.
Qed.


Lemma sample_unshared i : i < 100 -> unshared sample i.
Proof.
  intros Hi j r' Hret. unfold to_json_returns in Hret.
  destruct j as [|[|[|[|[|[|[|j]]]]]]]; vm_compute in Hret;
    try discriminate Hret; injection Hret as <-; try done.
  cbn. by rewrite (proj2 (Nat.eqb_neq i 100)) by lia.
Qed.


(** ** Termination *)

Section Terminates.

Variable w : interp.
Variable self : encoder.
Hypothesis Hdefault : _default self = JsonEncoder.default w.

Local Abbreviation E := (json.JSONEncoder._iterencode w self).

Definition finishes_with (n : nat) (v : value) : Prop := forall l, finishes (E n v l).

Lemma finishes_with_mono n m v : n <= m -> finishes_with n v -> finishes_with m v.
Proof.
  intros Hnm Hn l ms. rewrite (iterencode_mono w self n m v l ms Hnm (Hn l ms)). apply Hn.
Qed.

(** One fuel for all the items of a list. *)
Lemma finishes_with_all {A} (f : A -> value) (l : list A) :
  Forall (fun x => exists n, finishes_with n (f x)) l ->
  exists n, Forall (fun x => finishes_with n (f x)) l.
Proof.
  induction 1 as [| x l [n Hn] _ [m Hm]]; [by exists 0|].
  exists (n `max` m). constructor.
  - apply (finishes_with_mono n); [lia | done].
  - eapply Forall_impl; [done|]. intros y Hy. apply (finishes_with_mono m); [lia | done].
Qed.

Lemma convertible_finishes v : convertible w v -> exists n, finishes_with n v.
Proof.
  revert v. fix IH 2. intros v [v' Hv | i l Hl | i l Hl | i d Hd | i r Hret Hr].
  - exists 1. intros l.
    destruct v' as [| [] | | f | | | | |]; try discriminate Hv; try apply finishes_yield.
    apply (finishes_bind (lift (json.JSONEncoder.floatstr w self f))); [apply finishes_lift|].
    intros text. apply finishes_yield.
  - destruct (finishes_with_all id l) as [n Hn].
    { clear -IH Hl. induction Hl as [| x l Hx Hl IHl]; constructor; [by apply IH | done]. }
    exists (S n). intros lv. by apply finishes_iterencode_list.
  - destruct (finishes_with_all id l) as [n Hn].
    { clear -IH Hl. induction Hl as [| x l Hx Hl IHl]; constructor; [by apply IH | done]. }
    exists (S n). intros lv. by apply finishes_iterencode_list.
  - destruct (finishes_with_all snd d) as [n Hn].
    { clear -IH Hd. induction Hd as [| x d Hx Hd IHd]; constructor; [by apply IH | done]. }
    exists (S n). intros lv. by apply finishes_iterencode_dict.
  - destruct (IH r Hr) as [n Hn]. exists (S n). intros lv. rewrite iterencode_obj.
    rewrite Hdefault, (default_method w i (Return r)) by done.
    apply finishes_seq; [apply finishes_mark|].
    apply finishes_ret_bind. apply finishes_seq; [apply Hn | apply finishes_unmark].
Qed.

End Terminates.

(** The endless chain: every instance is new to the marker table, so the
    table never stops the recursion. *)
Lemma chain_unfinished self fuel i l ms :
  _default self = JsonEncoder.default chain ->
  (forall a, ms = Some a -> forall j, j ∈ a -> j < i) ->
  ending (json.JSONEncoder._iterencode chain self fuel (VObj i) l ms) = Unfinished.
Proof.
  intros Hd. revert i ms. induction fuel as [| fuel IH]; intros i ms Hms; [done|].
  rewrite iterencode_obj, Hd, (default_method chain i (Return (VObj (S i)))) by done.
  destruct ms as [a|].
  - assert (Hi : i ∉ a) by (intros Hi; specialize (Hms a eq_refl i Hi); lia).
    rewrite obj_block_ending by done. apply IH. intros a' [= <-] j.
    rewrite elem_of_union, elem_of_singleton. intros [-> | Hj]; [lia|].
    specialize (Hms a eq_refl j Hj). lia.
  - rewrite (proj1 (obj_block_none i (VObj (S i)) _)). by apply IH.
Qed.

Lemma chain_not_convertible i : ~ convertible chain (VObj i).
Proof.
  intros H. remember (VObj i) as v eqn:Ev. revert i Ev.
  induction H as [v Hv | ? ? ? | ? ? ? | ? ? ? | j r Hret Hr IH]; intros k Ev;
    try discriminate Ev.
  - by subst.
  - injection Ev as ->. unfold to_json_returns in Hret. cbn in Hret.
    rewrite lookup_singleton_eq in Hret. injection Hret as <-. by eapply IH.
Qed.

(** C7. If every chain of conversions inside the value reaches a value
    without instances after finitely many calls of [to_json], then
    [json_dumps] and [json_dump] end, with a text or an exception, given
    enough fuel.  Nothing in [default] bounds the recursion otherwise: on a
    [to_json] that returns a new instance at each call the calls never end,
    whatever the fuel, though the marker table is on. *)
Theorem C7_terminates_on_finite_conversions :
  (forall w g kw v fp, default_unset kw -> convertible w v ->
     exists fuel, json_dumps fuel w g v kw <> Unfinished
                  /\ snd (json_dump fuel w g v fp kw) <> Unfinished)
  /\ (~ convertible chain (VObj 0)
      /\ forall fuel fp,
           json_dumps fuel chain (json.module chain) (VObj 0) no_kwargs = Unfinished
           /\ snd (json_dump fuel chain (json.module chain) (VObj 0) fp no_kwargs) = Unfinished).
Proof.
  split.
  - intros w g kw v fp Hdef Hv.
    destruct (kw_cls kw) as [c|] eqn:Hcls.
    { exists 0. unfold json_dumps, json_dump, args_from, call_with_cls. by rewrite Hcls. }
    destruct (convertible_finishes w (wrapper_encoder w kw) (wrapper_default w kw Hdef) v Hv)
      as [n Hn].
    exists n. rewrite json_dumps_eq, json_dump_eq by done. cbn [snd].
    assert (Hend : ending (json.JSONEncoder.iterencode w (wrapper_encoder w kw) n v)
                   <> Unfinished) by apply Hn.
    split; [| done].
    destruct (encode_cases w v) as [[t ->] | ->]; [done|].
    unfold joined. by destruct (ending _).
  - split; [apply chain_not_convertible|].
    intros fuel fp. rewrite json_dumps_eq, json_dump_eq by done. cbn [snd].
    assert (Hend : ending (json.JSONEncoder.iterencode chain (wrapper_encoder chain no_kwargs)
                             fuel (VObj 0)) = Unfinished).
    { apply chain_unfinished; [done|]. intros a [= <-] j. by rewrite elem_of_empty. }
    split; [| done]. cbn [json.JSONEncoder.encode]. by rewrite Hend.
Qed.

Lemma sample_convertible : convertible sample (VList 9 [VObj 2; VInt 3]).
Proof.
  apply conv_list. constructor; [| constructor; [by apply conv_atom | constructor]].
  apply (conv_obj sample 2 (VObj 1) eq_refl).
  apply (conv_obj sample 1 (VDict 100 [(KStr "x", VInt 1); (KStr "y", VInt 2)]) eq_refl).
  apply conv_dict. repeat constructor; by apply conv_atom.
Defined.

Lemma C7_witness :
  exists fuel,
    json_dumps fuel sample (json.module sample) (VList 9 [VObj 2; VInt 3]) no_kwargs <> Unfinished
    /\ snd (json_dump fuel sample (json.module sample) (VList 9 [VObj 2; VInt 3]) ""
              no_kwargs) <> Unfinished.
Proof.
  exact (proj1 C7_terminates_on_finite_conversions sample (json.module sample) no_kwargs
           (VList 9 [VObj 2; VInt 3]) "" eq_refl sample_convertible).
Defined.

(** ** Effects *)

(** The table a call starts from. *)
Definition new_table (e : encoder) : markers :=
  if check_circular e then Some ∅ else None.



(** ** The text of a plain value

    With the default keywords the chunks of a plain value join into
    [render v]; the decoder is then followed on that text. *)

(** [', '.join(texts)] *)
Fixpoint join (texts : list string) : string :=
  match texts with
  | [] => ""
  | [t] => t
  | t :: ts => t +:+ ", " +:+ join ts
  end.

Definition key_string (k : key) : string :=
  match k with
  | KStr s => s
  | _ => ""
  end.

Fixpoint render (v : value) : string :=
  match v with
  | VNone => "null"
  | VBool true => "true"
  | VBool false => "false"
  | VInt n => _intstr n
  | VStr s => encode_basestring_ascii s
  | VList _ l | VTuple _ l => "[" +:+ join (map render l) +:+ "]"
  | VDict _ d =>
      "{" +:+ join (map (fun kv => encode_basestring_ascii (key_string (fst kv))
                                   +:+ ": " +:+ render (snd kv)) d) +:+ "}"
  | VFloat _ | VObj _ => ""
  end.

(** The format of the default keywords. *)
Definition default_format (e : encoder) : Prop :=
  ensure_ascii e = true /\ indent e = IndentNone /\ item_separator e = ", "
  /\ key_separator e = ": " /\ sort_keys e = false.

Lemma concat_app (a b : list string) :
  String.concat "" (a ++ b)%list = String.concat "" a +:+ String.concat "" b.
Proof.
  induction a as [| x a IH]; [done|].
  change ((x :: a) ++ b)%list with (x :: (a ++ b)%list). by rewrite !concat_cons, IH, append_assoc.
Qed.

(** The text after the first item of a sequence. *)
Definition tail_text (texts : list string) : string :=
  String.concat "" (map (fun t => ", " +:+ t) texts).

Lemma join_cons t ts : join (t :: ts) = t +:+ tail_text ts.
Proof.
  revert t. induction ts as [| u ts IH]; intros t.
  - cbn. by rewrite append_nil_r.
  - change (join (t :: u :: ts)) with (t +:+ ", " +:+ join (u :: ts)).
    rewrite IH. unfold tail_text. cbn [map]. by rewrite concat_cons, append_assoc.
Qed.

Lemma bind_done {A B} (c : gen A) (f : A -> gen B) ms b :
  ending ((c ≫= f) ms) = Done b ->
  exists a, ending (c ms) = Done a
            /\ ending (f a (table (c ms))) = Done b
            /\ chunks ((c ≫= f) ms) = (chunks (c ms) ++ chunks (f a (table (c ms))))%list.
Proof.
  rewrite run_bind. destruct (ending (c ms)) as [a| |]; cbn; [|done|done].
  intros Hb. by exists a.
Qed.

Lemma mark_chunks i ms : chunks (mark i ms) = [].
Proof. destruct ms as [a|]; [|done]. unfold mark. by case_bool_decide. Qed.

Section Render.

Variable w : interp.
Variable e : encoder.
Hypothesis Hfmt : default_format e.

Definition renders (rec : value -> nat -> gen unit) (v : value) : Prop :=
  plain v = true ->
  forall l ms, ending (rec v l ms) = Done tt ->
               String.concat "" (chunks (rec v l ms)) = render v.

Lemma atom_render v t :
  plain v = true -> json.JSONEncoder.atom w e v = Some t -> t = Return (render v).
Proof.
  destruct Hfmt as (Hascii & _).
  destruct v as [| [] | | | | | | |]; cbn; intros Hv [= <-]; try done.
  unfold json.JSONEncoder._encoder. by rewrite Hascii.
Qed.

Lemma list_loop_render rec l buf lst ms :
  Forall (renders rec) lst -> forallb plain lst = true ->
  ending (json.JSONEncoder.list_loop w e rec l ", " buf lst ms) = Done tt ->
  String.concat "" (chunks (json.JSONEncoder.list_loop w e rec l ", " buf lst ms))
  = match lst with
    | [] => ""
    | v :: lst' => buf +:+ render v +:+ tail_text (map render lst')
    end.
Proof.
  intros Hall. revert buf ms. induction Hall as [| v lst Hv Hall IH]; intros buf ms Hp Hend.
  - done.
  - cbn in Hp. apply andb_true_iff in Hp as [Hpv Hpl].
    cbn [json.JSONEncoder.list_loop] in *.
    apply bind_done in Hend as ([] & H1 & H2 & ->). rewrite concat_app.
    rewrite (IH _ _ Hpl H2).
    assert (Hhead : String.concat ""
              (chunks ((match json.JSONEncoder.atom w e v with
                        | Some t => text ← lift t; yield (buf +:+ text)
                        | None => yield buf;; rec v l
                        end) ms)) = buf +:+ render v).
    { destruct (json.JSONEncoder.atom w e v) as [t|] eqn:Hat.
      - by rewrite (atom_render v t Hpv Hat).
      - apply bind_done in H1 as ([] & _ & H1 & ->). rewrite concat_app.
        change (table (yield buf ms)) with ms in H1.
        change (table (yield buf ms)) with ms. by rewrite (Hv Hpv _ _ H1). }
    rewrite Hhead. destruct lst as [| v' lst'].
    + cbn. by rewrite !append_nil_r.
    + unfold tail_text. cbn [map]. rewrite concat_cons. by rewrite !append_assoc.
Qed.

Definition pair_text (kv : key * value) : string :=
  encode_basestring_ascii (key_string (fst kv)) +:+ ": " +:+ render (snd kv).

Lemma dict_loop_render rec l first items ms :
  Forall (fun kv => renders rec (snd kv)) items ->
  forallb (fun kv => text_key (fst kv)) items = true ->
  forallb (fun kv => plain (snd kv)) items = true ->
  ending (json.JSONEncoder.dict_loop w e rec l ", " first items ms) = Done tt ->
  String.concat "" (chunks (json.JSONEncoder.dict_loop w e rec l ", " first items ms))
  = match items with
    | [] => ""
    | kv :: items' =>
        (if first then "" else ", ") +:+ pair_text kv +:+ tail_text (map pair_text items')
    end.
Proof.
  destruct Hfmt as (Hascii & _ & _ & Hksep & _).
  intros Hall. revert first ms.
  induction Hall as [| [k v] items Hv Hall IH]; intros first ms Hk Hp Hend; [done|].
  cbn in Hk, Hp. apply andb_true_iff in Hk as [Hkk Hkl]. apply andb_true_iff in Hp as [Hpv Hpl].
  destruct k as [k| | | |]; try done.
  cbn [json.JSONEncoder.dict_loop json.JSONEncoder.key_text lift] in *.
  rewrite run_bind in Hend |- *. cbn [mret gen_ret ending chunks table] in Hend |- *.
  cbn [app].
  apply bind_done in Hend as ([] & H1 & Hend & ->).
  apply bind_done in Hend as ([] & H2 & Hend & ->).
  apply bind_done in Hend as ([] & H3 & Hend & ->).
  apply bind_done in Hend as ([] & H4 & Hend & ->).
  rewrite !concat_app. rewrite (IH _ _ Hkl Hpl Hend).
  assert (Hfirst : forall ms', String.concat ""
             (chunks ((if first then mret tt else yield ", ") ms'))
             = (if first then "" else ", ")) by (intros; by destruct first).
  assert (Hval : forall ms',
            ending ((match json.JSONEncoder.atom w e v with
                     | Some t => text ← lift t; yield text
                     | None => rec v l
                     end) ms') = Done tt ->
            String.concat ""
              (chunks ((match json.JSONEncoder.atom w e v with
                        | Some t => text ← lift t; yield text
                        | None => rec v l
                        end) ms')) = render v).
  { intros ms' He. destruct (json.JSONEncoder.atom w e v) as [t|] eqn:Hat.
    - by rewrite (atom_render v t Hpv Hat).
    - by apply Hv. }
  rewrite Hfirst, (Hval _ H4). unfold pair_text at 1. cbn [fst snd key_string].
  unfold json.JSONEncoder._encoder. rewrite Hascii, Hksep.
  change (String.concat "" (chunks (yield ?s ?m))) with s.
  destruct items as [| kv' items'].
  - cbn. unfold pair_text. cbn [fst snd key_string]. by rewrite !append_assoc.
  - unfold tail_text. cbn [map]. rewrite concat_cons. unfold pair_text.
    cbn [fst snd key_string]. by rewrite !append_assoc.
Qed.

Local Abbreviation E := (json.JSONEncoder._iterencode w e).

Lemma forallb_Forall {A} (P : A -> bool) (l : list A) :
  forallb P l = true -> Forall (fun x => P x = true) l.
Proof.
  intros H. apply Forall_forall. intros x Hx. rewrite forallb_forall in H.
  apply H. by apply list_elem_of_In.
Qed.

Lemma iterencode_render n : forall v, renders (E n) v.
Proof.
  destruct Hfmt as (Hascii & Hindent & Hisep & Hksep & Hsort).
  assert (Hnl : forall l, json.JSONEncoder.newline_indent e l = None).
  { intros l. unfold json.JSONEncoder.newline_indent, json.JSONEncoder._indent.
    by rewrite Hindent. }
  induction n as [| n IH]; intros v Hv l ms Hend; [done|].
  cbn [json.JSONEncoder._iterencode] in *.
  assert (Hlist : forall i lst, forallb plain lst = true ->
            ending (json.JSONEncoder._iterencode_list w e (E n) i lst l ms) = Done tt ->
            String.concat "" (chunks (json.JSONEncoder._iterencode_list w e (E n) i lst l ms))
            = "[" +:+ join (map render lst) +:+ "]").
  { intros i lst Hp He. unfold json.JSONEncoder._iterencode_list in *.
    destruct lst as [| x lst]; [done|].
    rewrite Hnl, Hisep in *.
    apply bind_done in He as ([] & H1 & He & ->).
    apply bind_done in He as ([] & H2 & He & ->).
    apply bind_done in He as ([] & H3 & He & ->).
    rewrite !concat_app.
    rewrite mark_chunks, unmark_chunks.
    rewrite (list_loop_render (E n) l "[" (x :: lst)); [| | done | done].
    - change (String.concat "" []) with "".
      change (String.concat "" (chunks (yield ?s ?m))) with s.
      cbn [map]. rewrite join_cons. cbn [String.append].
      by rewrite !append_assoc, append_nil_r.
    - apply Forall_forall. intros y _. apply IH. }
  destruct v as [| [] | k | f | s | i lst | i lst | i dct | i]; cbn in Hv; try done.
  - cbn [json.JSONEncoder._iterencode_body]. cbn. unfold json.JSONEncoder._encoder.
    by rewrite Hascii.
  - by apply Hlist.
  - by apply Hlist.
  - apply andb_true_iff in Hv as [Hv Hp]. apply andb_true_iff in Hv as [Hk Hnd].
    cbn [json.JSONEncoder._iterencode_body] in *.
    unfold json.JSONEncoder._iterencode_dict in *.
    destruct dct as [| kv dct]; [done|].
    rewrite Hnl, Hisep, Hsort in *. cbn [lift] in *.
    apply bind_done in Hend as ([] & H1 & Hend & ->).
    apply bind_done in Hend as ([] & H2 & Hend & ->).
    apply bind_done in Hend as ([] & H3 & Hend & ->).
    apply bind_done in Hend as ([] & H4 & Hend & ->).
    rewrite !concat_app.
    rewrite mark_chunks, unmark_chunks.
    rewrite run_bind in H3 |- *. cbn [mret gen_ret ending chunks table] in H3 |- *.
    cbn [app].
    rewrite (dict_loop_render (E n) l true (kv :: dct)); [| | done | done |].
    + change (String.concat "" []) with "".
      change (String.concat "" (chunks (yield ?s ?m))) with s.
      change (render (VDict i (kv :: dct)))
        with ("{" +:+ join (pair_text kv :: map pair_text dct) +:+ "}").
      rewrite join_cons. cbn [String.append].
      by rewrite !append_assoc, append_nil_r.
    + apply Forall_forall. intros y _. apply IH.
    + by destruct (ending (json.JSONEncoder.dict_loop _ _ _ _ _ _ _ _)) as [[]| |].
Qed.

End Render.

(** ** The decoder on the text of a plain value *)

(** An induction principle that reaches the items of containers. *)
Lemma value_nested_ind (P : value -> Prop) :
  (forall v, atomic v = true -> P v) ->
  (forall i l, Forall P l -> P (VList i l)) ->
  (forall i l, Forall P l -> P (VTuple i l)) ->
  (forall i d, Forall (fun kv => P (snd kv)) d -> P (VDict i d)) ->
  (forall i, P (VObj i)) ->
  forall v, P v.
Proof.
  intros Hatom Hlist Htuple Hdict Hobj. fix IH 1. intros [| b | n | f | s | i l | i l | i d | i].
  1-5: by apply Hatom.
  - apply Hlist. induction l as [| x l IHl]; constructor; [apply IH | apply IHl].
  - apply Htuple. induction l as [| x l IHl]; constructor; [apply IH | apply IHl].
  - apply Hdict. induction d as [| [k x] d IHd]; constructor; [apply IH | apply IHd].
  - apply Hobj.
Qed.

(** *** Text *)

Lemma scanstring_escape c t :
  json.scanstring (replace_ascii c +:+ t)
  = '(content, rest) ← json.scanstring t; Return (String c content, rest).
Proof. destruct c as [[] [] [] [] [] [] [] []]; reflexivity. Qed.

Lemma scanstring_sub s rest :
  json.scanstring (sub replace_ascii s +:+ dquote +:+ rest) = Return (s, rest).
Proof.
  induction s as [| c s IH]; [done|].
  change (sub replace_ascii (String c s)) with (replace_ascii c +:+ sub replace_ascii s).
  by rewrite append_assoc, scanstring_escape, IH.
Qed.

(** *** Integers *)

(** [rest] does not go on with a digit. *)
Definition no_digit (rest : string) : Prop :=
  match rest with
  | String c _ => json.is_digit c = false
  | EmptyString => True
  end.

Lemma span_digits_uint d rest :
  no_digit rest ->
  json.span_digits (NilEmpty.string_of_uint d +:+ rest) = (NilEmpty.string_of_uint d, rest).
Proof.
  intros Hrest. induction d as [| d IH | d IH | d IH | d IH | d IH | d IH | d IH | d IH | d IH | d IH];
    cbn [NilEmpty.string_of_uint]; rewrite ?append_cons; cbn [json.span_digits];
    try (change (json.is_digit _) with true; cbn iota; by rewrite IH).
  change (json.span_digits rest = ("", rest)).
  destruct rest as [| c rest]; [done|]. cbn [json.span_digits]. unfold no_digit in Hrest.
  by rewrite Hrest.
Qed.

(** The first digit is not a zero. *)
Definition head_nonzero (d : Decimal.uint) : Prop :=
  match d with
  | Decimal.Nil | Decimal.D0 _ => False
  | _ => True
  end.

Lemma nzhead_head d : Decimal.nzhead d = Decimal.Nil \/ head_nonzero (Decimal.nzhead d).
Proof. induction d; cbn; auto. Qed.

Lemma to_uint_head p : head_nonzero (Pos.to_uint p).
Proof.
  assert (Hnorm : Decimal.unorm (Pos.to_uint p) = Pos.to_uint p).
  { rewrite <- DecimalPos.Unsigned.to_of, DecimalPos.Unsigned.of_to. done. }
  pose proof (DecimalPos.Unsigned.to_uint_nonzero p) as Hnz.
  unfold Decimal.unorm in Hnorm.
  destruct (nzhead_head (Pos.to_uint p)) as [Hnil | Hhead].
  - rewrite Hnil in Hnorm. by rewrite <- Hnorm in Hnz.
  - destruct (Decimal.nzhead (Pos.to_uint p)) eqn:E; try done; by rewrite <- Hnorm.
Qed.
(** [rest] ends a value: it is empty or starts with a comma or a closing
    bracket. *)
Definition closes (rest : string) : Prop :=
  match rest with
  | String c _ =>
      nat_of_ascii c = 44 \/ nat_of_ascii c = 93 \/ nat_of_ascii c = 125
  | EmptyString => True
  end.

Lemma closes_no_digit rest : closes rest -> no_digit rest.
Proof.
  destruct rest as [| c rest]; [done|]. cbn. unfold json.is_digit.
  intros [-> | [-> | ->]]; done.
Qed.

Lemma closes_frac rest : closes rest -> json.match_frac rest = ("", rest).
Proof.
  destruct rest as [| c rest]; [done|]. cbn. intros [-> | [-> | ->]]; done.
Qed.

Lemma closes_exp rest : closes rest -> json.match_exp rest = ("", rest).
Proof.
  destruct rest as [| c rest]; [done|]. cbn. intros [-> | [-> | ->]]; done.
Qed.

Lemma intstr_cases n :
  _intstr n = "0"
  \/ (exists d, head_nonzero d /\ _intstr n = NilEmpty.string_of_uint d)
  \/ (exists d, head_nonzero d /\ _intstr n = String "-" (NilEmpty.string_of_uint d)).
Proof.
  destruct n as [| p | p]; [by left | right; left | right; right];
    exists (Pos.to_uint p); (split; [apply to_uint_head|]);
    unfold _intstr; cbn; pose proof (to_uint_head p) as Hh;
    by destruct (Pos.to_uint p).
Qed.

Lemma parse_int_intstr n : json.parse_int (_intstr n) = n.
Proof.
  unfold json.parse_int, _intstr. rewrite NilZero.isi.
  - apply DecimalZ.of_to.
  - destruct n as [| p | p]; try done. cbn. intros [= H].
    by apply (DecimalPos.Unsigned.to_uint_nonnil p).
  - destruct n as [| p | p]; try done. cbn. intros [= H].
    by apply (DecimalPos.Unsigned.to_uint_nonnil p).
Qed.


Lemma uint_head d :
  head_nonzero d ->
  exists c s, NilEmpty.string_of_uint d = String c s
              /\ json.is_digit c = true /\ nat_of_ascii c <> 48.
Proof. destruct d; try done; intros _; do 2 eexists; (split; [done|]); by split. Qed.

Lemma digit_not_minus c : json.is_digit c = true -> Nat.eqb (nat_of_ascii c) 45 = false.
Proof.
  unfold json.is_digit. intros [H1 H2]%andb_true_iff.
  apply Nat.leb_le in H1. apply Nat.eqb_neq. lia.
Qed.

Lemma match_integer_uint d rest :
  head_nonzero d -> no_digit rest ->
  json.match_integer (NilEmpty.string_of_uint d +:+ rest)
  = Some (NilEmpty.string_of_uint d, rest).
Proof.
  intros Hd Hrest. pose proof (span_digits_uint d rest Hrest) as Hspan.
  destruct (uint_head d Hd) as (c & s & Hcs & Hdig & Hnz). rewrite Hcs in *.
  rewrite append_cons in *. unfold json.match_integer.
  rewrite (digit_not_minus c Hdig), (proj2 (Nat.eqb_neq _ _) Hnz), Hdig, Hspan. done.
Qed.

Lemma match_integer_neg d rest :
  head_nonzero d -> no_digit rest ->
  json.match_integer (String "-" (NilEmpty.string_of_uint d) +:+ rest)
  = Some (String "-" (NilEmpty.string_of_uint d), rest).
Proof.
  intros Hd Hrest. pose proof (span_digits_uint d rest Hrest) as Hspan.
  destruct (uint_head d Hd) as (c & s & Hcs & Hdig & Hnz). rewrite Hcs in *.
  rewrite !append_cons in *. unfold json.match_integer.
  change (Nat.eqb (nat_of_ascii "-") 45) with true. cbn iota.
  rewrite (proj2 (Nat.eqb_neq _ _) Hnz), Hdig, Hspan. done.
Qed.

Lemma match_integer_intstr n rest :
  no_digit rest -> json.match_integer (_intstr n +:+ rest) = Some (_intstr n, rest).
Proof.
  intros Hrest.
  destruct (intstr_cases n) as [-> | [(d & Hd & ->) | (d & Hd & ->)]].
  - done.
  - by apply match_integer_uint.
  - by apply match_integer_neg.
Qed.

(** The first character of the text of an int. *)
Lemma intstr_head n :
  exists c s, _intstr n = String c s /\ (json.is_digit c = true \/ nat_of_ascii c = 45).
Proof.
  destruct (intstr_cases n) as [-> | [(d & Hd & ->) | (d & Hd & ->)]].
  - do 2 eexists. split; [done | by left].
  - destruct (uint_head d Hd) as (c & s & -> & Hdig & _). do 2 eexists. split; [done | by left].
  - do 2 eexists. split; [done | by right].
Qed.

Lemma starts_with_head word c' c s :
  c <> c' -> json.starts_with (String c' word) (String c s) = None.
Proof. intros Hc. cbn. by rewrite (proj2 (Ascii.eqb_neq c' c)) by done. Qed.

Section Atoms.

Variable w : interp.

Lemma scan_atom_int n rest :
  closes rest -> json.scan_atom w (_intstr n +:+ rest) = Done (VInt n, rest).
Proof.
  intros Hrest. pose proof (match_integer_intstr n rest (closes_no_digit rest Hrest)) as Hint.
  destruct (intstr_head n) as (c & s & Hcs & Hc). rewrite Hcs in Hint |- *.
  rewrite append_cons in *. unfold json.scan_atom.
  assert (Hne : forall c', c' = "n"%char \/ c' = "t"%char \/ c' = "f"%char -> c <> c').
  { intros c' Hc' ->. destruct Hc as [Hc | Hc]; destruct Hc' as [-> | [-> | ->]]; done. }
  rewrite !starts_with_head by (apply Hne; auto).
  rewrite Hint, closes_frac, closes_exp by done.
  by rewrite <- Hcs, parse_int_intstr.
Qed.

End Atoms.

(** *** Values *)

Lemma skip_ws_head c s : json.is_ws c = false -> json.skip_ws (String c s) = String c s.
Proof. intros H. cbn. by rewrite H. Qed.

Lemma digit_not_ws c : json.is_digit c = true -> json.is_ws c = false.
Proof.
  unfold json.is_digit, json.is_ws. intros [H1 H2]%andb_true_iff.
  apply Nat.leb_le in H1. apply Nat.leb_le in H2.
  rewrite !orb_false_iff, !Nat.eqb_neq. lia.
Qed.

(** The first character of the text of a plain value: not whitespace, and
    not one that the scanner gives a meaning of its own after a bracket. *)
Definition opens (c : ascii) : Prop :=
  json.is_ws c = false /\ nat_of_ascii c <> 93 /\ nat_of_ascii c <> 125.

Lemma render_head v :
  plain v = true -> exists c s, render v = String c s /\ opens c.
Proof.
  destruct v as [| [] | n | f | s | i l | i l | i d | i]; try done; intros _;
    try (do 2 eexists; split; [done | by repeat split]).
  destruct (intstr_head n) as (c & s & Hcs & Hc). exists c, s. split; [done|].
  destruct Hc as [Hc | Hc].
  - split; [by apply digit_not_ws|]. unfold json.is_digit in Hc.
    apply andb_true_iff in Hc as [H1 H2]. apply Nat.leb_le in H2. lia.
  - unfold opens, json.is_ws. rewrite Hc. by repeat split.
Qed.

Lemma tail_text_cons t ts : tail_text (t :: ts) = ", " +:+ t +:+ tail_text ts.
Proof. unfold tail_text. cbn [map]. by rewrite concat_cons, append_assoc. Qed.

Lemma closes_bracket rest : closes ("]" +:+ rest).
Proof. change (closes (String "]" rest)). cbn. auto. Qed.

Lemma closes_brace rest : closes ("}" +:+ rest).
Proof. change (closes (String "}" rest)). cbn. auto. Qed.

Lemma closes_comma rest : closes (", " +:+ rest).
Proof. change (closes (String "," (" " +:+ rest))). cbn. auto. Qed.

Section Scan.

Variable w : interp.

(** [v] is read back from its text, whatever follows that can follow a
    value, given enough fuel. *)
Definition parses (v : value) : Prop :=
  exists N, forall fuel rest next, N <= fuel -> closes rest ->
    exists v' next',
      json.scan_once w fuel (render v +:+ rest) next = Done (v', rest, next')
      /\ alike v' (listed v) = true.

Definition alike_items (vs us : list value) : Prop :=
  Forall2 (fun a b => alike a b = true) vs us.

Lemma alike_list i j vs us : alike_items vs us -> alike (VList i vs) (VList j us) = true.
Proof. induction 1 as [| a b vs us Hab _ IH]; [done|]. cbn in *. by rewrite Hab, IH. Qed.

Lemma array_loop_step fuel s next values v s1 next1 :
  json.scan_once w fuel s next = Done (v, s1, next1) ->
  json.array_loop w (S fuel) s next values =
  match json.skip_ws s1 with
  | String c r =>
      if Nat.eqb (nat_of_ascii c) 93 then Done ((values ++ [v])%list, r, next1)
      else if Nat.eqb (nat_of_ascii c) 44 then
        json.array_loop w fuel (json.skip_ws r) next1 (values ++ [v])%list
      else Raised (json.JSONDecodeError "Expecting ',' delimiter")
  | EmptyString => Raised (json.JSONDecodeError "Expecting ',' delimiter")
  end.
Proof. intros H. cbn [json.array_loop]. by rewrite H. Qed.

Lemma array_loop_parses x xs :
  plain x = true -> parses x ->
  Forall (fun y => plain y = true /\ parses y) xs ->
  exists N, forall fuel rest next values, N <= fuel ->
    exists vs next',
      json.array_loop w fuel (render x +:+ tail_text (map render xs) +:+ "]" +:+ rest)
        next values
      = Done ((values ++ vs)%list, rest, next')
      /\ alike_items vs (map listed (x :: xs)).
Proof.
  intros Hpx Hx Hxs. revert x Hpx Hx.
  induction Hxs as [| y ys [Hpy Hy] Hys IH]; intros x Hpx [Nx Hx].
  - exists (S Nx). intros [| fuel] rest next values Hfuel; [lia|].
    destruct (Hx fuel ("]" +:+ rest) next ltac:(lia) (closes_bracket rest))
      as (x' & next1 & Hscan & Hal).
    exists [x'], next1. split; [| by repeat constructor].
    by rewrite (array_loop_step _ _ _ _ _ _ _ Hscan).
  - destruct (IH y Hpy Hy) as [Nr Hr]. exists (S (Nx `max` Nr)).
    intros [| fuel] rest next values Hfuel; [lia|].
    cbn [map]. rewrite tail_text_cons, !append_assoc.
    destruct (Hx fuel (", " +:+ render y +:+ tail_text (map render ys) +:+ "]" +:+ rest) next
                ltac:(lia) (closes_comma _))
      as (x' & next1 & Hscan & Hal).
    rewrite (array_loop_step _ _ _ _ _ _ _ Hscan).
    destruct (render_head y Hpy) as (c & s & Hcs & Hws & _).
    change (json.skip_ws (", " +:+ ?t)) with (String "," (" " +:+ t)). cbn iota.
    change (Nat.eqb (nat_of_ascii ",") 93) with false.
    change (Nat.eqb (nat_of_ascii ",") 44) with true. cbn iota.
    change (json.skip_ws (" " +:+ ?t)) with (json.skip_ws t).
    rewrite Hcs, append_cons, skip_ws_head by done. rewrite <- append_cons, <- Hcs.
    destruct (Hr fuel rest next1 (values ++ [x'])%list ltac:(lia))
      as (vs & next' & Hloop & Hvs).
    exists (x' :: vs), next'. split; [| by constructor].
    rewrite Hloop. by rewrite <- app_assoc.
Qed.

(** A pair of a dict, from after the opening quote of its key. *)
Definition pair_body (kv : key * value) : string :=
  sub replace_ascii (key_string (fst kv)) +:+ dquote +:+ ": " +:+ render (snd kv).

Lemma pair_text_body kv : pair_text kv = dquote +:+ pair_body kv.
Proof. unfold pair_text, pair_body, encode_basestring_ascii. by rewrite !append_assoc. Qed.

Definition alike_pairs (ps : list (string * value)) (d : list (key * value)) : Prop :=
  Forall2 (fun p kv => KStr (fst p) = fst kv /\ alike (snd p) (listed (snd kv)) = true) ps d.

Lemma object_loop_step fuel s next pairs k s2 v s3 next1 :
  json.scanstring s = Return (k, ": " +:+ s2) ->
  json.scan_once w fuel (json.skip_ws s2) next = Done (v, s3, next1) ->
  json.object_loop w (S fuel) s next pairs =
  match json.skip_ws s3 with
  | String c' r =>
      if Nat.eqb (nat_of_ascii c') 125 then Done ((pairs ++ [(k, v)])%list, r, next1)
      else if Nat.eqb (nat_of_ascii c') 44 then
        match json.skip_ws r with
        | String c'' r' =>
            if Nat.eqb (nat_of_ascii c'') 34
            then json.object_loop w fuel r' next1 (pairs ++ [(k, v)])%list
            else Raised (json.JSONDecodeError
                           "Expecting property name enclosed in double quotes")
        | EmptyString =>
            Raised (json.JSONDecodeError "Expecting property name enclosed in double quotes")
        end
      else Raised (json.JSONDecodeError "Expecting ',' delimiter")
  | EmptyString => Raised (json.JSONDecodeError "Expecting ',' delimiter")
  end.
Proof.
  intros Hk Hv. cbn [json.object_loop]. rewrite Hk.
  change (json.of_result (Return (k, ": " +:+ s2)) ≫= ?f) with (f (k, ": " +:+ s2)).
  cbn beta iota.
  change (json.skip_ws (": " +:+ s2)) with (String ":" (" " +:+ s2)). cbn iota.
  change (Nat.eqb (nat_of_ascii ":") 58) with true. cbn iota.
  change (json.skip_ws (" " +:+ s2)) with (json.skip_ws s2).
  by rewrite Hv.
Qed.

Lemma object_loop_parses kv d :
  text_key (fst kv) = true -> plain (snd kv) = true -> parses (snd kv) ->
  Forall (fun kv => text_key (fst kv) = true /\ plain (snd kv) = true /\ parses (snd kv)) d ->
  exists N, forall fuel rest next pairs, N <= fuel ->
    exists ps next',
      json.object_loop w fuel
        (pair_body kv +:+ tail_text (map pair_text d) +:+ "}" +:+ rest) next pairs
      = Done ((pairs ++ ps)%list, rest, next')
      /\ alike_pairs ps (kv :: d).
Proof.
  intros Hk Hp Hx Hd. revert kv Hk Hp Hx.
  induction Hd as [| kv' d (Hk' & Hp' & Hx') Hd IH]; intros [k x] Hk Hp [Nx Hx];
    destruct k as [k| | | |]; try done; cbn [fst snd] in *.
  - exists (S Nx). intros [| fuel] rest next pairs Hfuel; [lia|].
    destruct (render_head x Hp) as (c & s & Hcs & Hws & _).
    destruct (Hx fuel ("}" +:+ rest) next ltac:(lia) (closes_brace rest))
      as (x' & next1 & Hscan & Hal).
    exists [(k, x')], next1. split; [| by repeat constructor].
    unfold pair_body. cbn [fst snd key_string map]. rewrite !append_assoc.
    change (tail_text [] +:+ ?t) with t.
    erewrite object_loop_step; [| apply scanstring_sub |].
    2: { rewrite Hcs, append_cons, skip_ws_head by done. rewrite <- append_cons, <- Hcs.
         exact Hscan. }
    done.
  - destruct kv' as [k' y]. destruct k' as [k'| | | |]; try done. cbn [fst snd] in *.
    destruct (IH (KStr k', y) Hk' Hp' Hx') as [Nr Hr]. exists (S (Nx `max` Nr)).
    intros [| fuel] rest next pairs Hfuel; [lia|].
    destruct (render_head x Hp) as (c & s & Hcs & Hws & _).
    cbn [map]. rewrite tail_text_cons, pair_text_body.
    destruct (Hx fuel (", " +:+ dquote +:+ pair_body (KStr k', y)
                       +:+ tail_text (map pair_text d) +:+ "}" +:+ rest) next
                ltac:(lia) (closes_comma _))
      as (x' & next1 & Hscan & Hal).
    destruct (Hr fuel rest next1 (pairs ++ [(k, x')])%list ltac:(lia))
      as (ps & next' & Hloop & Hps).
    exists ((k, x') :: ps), next'. split; [| by constructor].
    unfold pair_body at 1. cbn [fst snd key_string]. rewrite !append_assoc.
    erewrite object_loop_step; [| apply scanstring_sub |].
    2: { rewrite Hcs, !append_cons, skip_ws_head by done. rewrite <- !append_cons, <- Hcs.
         exact Hscan. }
    change (json.skip_ws (", " +:+ ?t)) with (String "," (" " +:+ t)). cbn iota.
    change (Nat.eqb (nat_of_ascii ",") 125) with false.
    change (Nat.eqb (nat_of_ascii ",") 44) with true. cbn iota.
    change (json.skip_ws (" " +:+ dquote +:+ ?t)) with (String (ascii_of_nat 34) t).
    cbn iota. change (Nat.eqb (nat_of_ascii (ascii_of_nat 34)) 34) with true. cbn iota.
    rewrite Hloop. by rewrite <- app_assoc.
Qed.

(** [dict(pairs)] keeps pairs whose keys are all different as they are. *)
Definition as_items (ps : list (string * value)) : list (key * value) :=
  map (fun p => (KStr (fst p), snd p)) ps.

Lemma dict_set_new k v d :
  KStr k ∉ map fst d -> json.dict_set k v d = (d ++ [(KStr k, v)])%list.
Proof.
  induction d as [| [k' v'] d IH]; intros Hk; [done|]. cbn in *.
  rewrite bool_decide_eq_false_2.
  - f_equal. apply IH. intros Hin. apply Hk. by right.
  - intros ->. apply Hk. by left.
Qed.

Lemma dict_of_pairs_distinct ps :
  NoDup (map fst (as_items ps)) -> json.dict_of_pairs ps = as_items ps.
Proof.
  unfold json.dict_of_pairs.
  assert (Hgen : forall acc, NoDup (map fst acc ++ map fst (as_items ps)) ->
            fold_left (fun d kv => json.dict_set (fst kv) (snd kv) d) ps acc
            = (acc ++ as_items ps)%list).
  { induction ps as [| [k v] ps IH]; intros acc Hnd; cbn.
    - by rewrite app_nil_r.
    - cbn in Hnd. rewrite dict_set_new.
      + rewrite IH; [by rewrite <- app_assoc|].
        rewrite map_app, <- app_assoc. exact Hnd.
      + apply NoDup_app in Hnd as (_ & Hdis & _). intros Hin.
        apply (Hdis _ Hin). by left. }
  intros Hnd. by apply (Hgen []).
Qed.

Lemma alike_dict_cons i j p ps kv d :
  alike (VDict i (p :: ps)) (VDict j (kv :: d))
  = bool_decide (fst p = fst kv) && alike (snd p) (snd kv) && alike (VDict i ps) (VDict j d).
Proof. done. Qed.

Lemma alike_dict i j ps d :
  alike_pairs ps d ->
  alike (VDict i (as_items ps)) (VDict j (map (fun kv => (fst kv, listed (snd kv))) d)) = true.
Proof.
  induction 1 as [| p kv ps d [Hk Hv] _ IH]; [done|].
  cbn [as_items map]. rewrite alike_dict_cons. cbn [fst snd].
  fold (as_items ps). by rewrite IH, Hv, bool_decide_eq_true_2.
Qed.

Lemma alike_pairs_keys ps d : alike_pairs ps d -> map fst (as_items ps) = map fst d.
Proof.
  induction 1 as [| p kv ps d [Hk Hv] _ IH]; [done|].
  cbn [as_items map fst]. fold (as_items ps). by rewrite Hk, IH.
Qed.

Lemma scan_once_atom fuel c s next :
  nat_of_ascii c <> 34 -> nat_of_ascii c <> 123 -> nat_of_ascii c <> 91 ->
  json.scan_once w (S fuel) (String c s) next
  = '(v, r) ← json.scan_atom w (String c s); Done (v, r, next).
Proof.
  intros H1 H2 H3. cbn [json.scan_once].
  by rewrite (proj2 (Nat.eqb_neq _ _) H1), (proj2 (Nat.eqb_neq _ _) H2),
    (proj2 (Nat.eqb_neq _ _) H3).
Qed.

Lemma scan_once_array fuel s c r next :
  json.skip_ws s = String c r -> nat_of_ascii c <> 93 ->
  json.scan_once w (S fuel) ("[" +:+ s) next
  = '(values, r', next') ← json.array_loop w fuel (json.skip_ws s) (S next) [];
    Done (VList next values, r', next').
Proof.
  intros Hs Hc. change ("[" +:+ s) with (String "[" s). cbn [json.scan_once].
  change (Nat.eqb (nat_of_ascii "[") 34) with false.
  change (Nat.eqb (nat_of_ascii "[") 123) with false.
  change (Nat.eqb (nat_of_ascii "[") 91) with true. cbn iota.
  rewrite Hs. by rewrite (proj2 (Nat.eqb_neq _ _) Hc).
Qed.

Lemma scan_once_object fuel s next :
  json.scan_once w (S fuel) ("{" +:+ dquote +:+ s) next
  = '(pairs, r', next') ← json.object_loop w fuel s (S next) [];
    Done (VDict next (json.dict_of_pairs pairs), r', next').
Proof. done. Qed.

Lemma sequence_parses i l :
  Forall (fun x => plain x = true /\ parses x) l ->
  exists N, forall fuel rest next, N <= fuel -> closes rest ->
    exists v' next',
      json.scan_once w fuel (render (VList i l) +:+ rest) next = Done (v', rest, next')
      /\ alike v' (VList i (map listed l)) = true.
Proof.
  intros [| x xs [Hpx Hx] Hxs].
  - exists 1. intros [| fuel] rest next Hfuel Hrest; [lia|].
    by exists (VList next []), (S next).
  - destruct (array_loop_parses x xs Hpx Hx Hxs) as [N HN]. exists (S N).
    intros [| fuel] rest next Hfuel Hrest; [lia|].
    destruct (HN fuel rest (S next) [] ltac:(lia)) as (vs & next' & Hloop & Hvs).
    exists (VList next vs), next'. split; [| by apply alike_list].
    change (render (VList i (x :: xs)))
      with ("[" +:+ join (render x :: map render xs) +:+ "]").
    rewrite join_cons, !append_assoc.
    destruct (render_head x Hpx) as (c & s & Hcs & Hws & Hc & _).
    assert (Hskip : forall t, json.skip_ws (render x +:+ t) = String c (s +:+ t)).
    { intros t. by rewrite Hcs, append_cons, skip_ws_head. }
    rewrite (scan_once_array fuel _ c _ next (Hskip _) Hc), Hskip.
    rewrite <- append_cons, <- Hcs, Hloop. done.
Qed.

Lemma plain_parses v : plain v = true -> parses v.
Proof.
  induction v as [v Hv | i l IH | i l IH | i d IH | i] using value_nested_ind; intros Hp.
  - destruct v as [| [] | n | f | s | | | |]; try done.
    + exists 1. intros [| fuel] rest next Hfuel Hrest; [lia|]. by exists VNone, next.
    + exists 1. intros [| fuel] rest next Hfuel Hrest; [lia|]. by exists (VBool true), next.
    + exists 1. intros [| fuel] rest next Hfuel Hrest; [lia|]. by exists (VBool false), next.
    + exists 1. intros [| fuel] rest next Hfuel Hrest; [lia|]. exists (VInt n), next.
      split; [| apply Z.eqb_refl]. cbn [render].
      destruct (intstr_head n) as (c & s & Hcs & Hc).
      rewrite Hcs, append_cons, scan_once_atom.
      * by rewrite <- append_cons, <- Hcs, scan_atom_int.
      * destruct Hc as [[H1%Nat.leb_le H2%Nat.leb_le]%andb_true_iff | ->]; [lia | done].
      * destruct Hc as [[H1%Nat.leb_le H2%Nat.leb_le]%andb_true_iff | ->]; [lia | done].
      * destruct Hc as [[H1%Nat.leb_le H2%Nat.leb_le]%andb_true_iff | ->]; [lia | done].
    + exists 1. intros [| fuel] rest next Hfuel Hrest; [lia|]. exists (VStr s), next.
      split; [| apply String.eqb_refl]. cbn [render]. unfold encode_basestring_ascii.
      rewrite !append_assoc. change (dquote +:+ ?t) with (String (ascii_of_nat 34) t) at 1.
      cbn [json.scan_once].
      change (Nat.eqb (nat_of_ascii (ascii_of_nat 34)) 34) with true. cbn iota.
      by rewrite scanstring_sub.
  - apply (sequence_parses i l).
    cbn in Hp. apply forallb_Forall in Hp.
    apply Forall_forall. intros x Hx. rewrite Forall_forall in IH, Hp. auto.
  - apply (sequence_parses i l).
    cbn in Hp. apply forallb_Forall in Hp.
    apply Forall_forall. intros x Hx. rewrite Forall_forall in IH, Hp. auto.
  - cbn in Hp. apply andb_true_iff in Hp as [[Hk Hnd]%andb_true_iff Hpv].
    apply bool_decide_eq_true in Hnd.
    apply forallb_Forall in Hk. apply forallb_Forall in Hpv.
    assert (Hall : Forall (fun kv => text_key (fst kv) = true /\ plain (snd kv) = true
                                     /\ parses (snd kv)) d).
    { apply Forall_forall. intros kv Hkv. rewrite Forall_forall in IH, Hk, Hpv. auto. }
    clear IH Hk Hpv. destruct Hall as [| kv d (Hk & Hpv & Hx) Hall].
    + exists 1. intros [| fuel] rest next Hfuel Hrest; [lia|].
      by exists (VDict next []), (S next).
    + destruct (object_loop_parses kv d Hk Hpv Hx Hall) as [N HN]. exists (S N).
      intros [| fuel] rest next Hfuel Hrest; [lia|].
      destruct (HN fuel rest (S next) [] ltac:(lia)) as (ps & next' & Hloop & Hps).
      exists (VDict next (as_items ps)), next'. split; [| by apply alike_dict].
      change (render (VDict i (kv :: d)))
        with ("{" +:+ join (pair_text kv :: map pair_text d) +:+ "}").
      rewrite join_cons, pair_text_body, !append_assoc, scan_once_object, Hloop.
      change (Done (VDict next (json.dict_of_pairs ps), rest, next')
              = Done (VDict next (as_items ps), rest, next')).
      rewrite dict_of_pairs_distinct; [done|].
      by rewrite (alike_pairs_keys ps (kv :: d)).
  - done.
Qed.

End Scan.

(** *** Likeness and [==] *)

Lemma dyadic_eqb_refl m e : dyadic_eqb m e m e = true.
Proof. unfold dyadic_eqb. apply Z.eqb_refl. Qed.

Lemma key_eqb_refl k : key_eqb k k = true.
Proof.
  unfold key_eqb. destruct (key_number k); [apply Z.eqb_refl | by apply bool_decide_eq_true_2].
Qed.

Lemma alike_list_cons i j x l y l' :
  alike (VList i (x :: l)) (VList j (y :: l')) = alike x y && alike (VList i l) (VList j l').
Proof. done. Qed.

Lemma py_eq_list_cons i j x l y l' :
  py_eq (VList i (x :: l)) (VList j (y :: l')) = py_eq x y && py_eq (VList i l) (VList j l').
Proof. done. Qed.

Lemma alike_tuple_cons i j x l y l' :
  alike (VTuple i (x :: l)) (VTuple j (y :: l')) = alike x y && alike (VTuple i l) (VTuple j l').
Proof. done. Qed.

Lemma py_eq_tuple_cons i j x l y l' :
  py_eq (VTuple i (x :: l)) (VTuple j (y :: l')) = py_eq x y && py_eq (VTuple i l) (VTuple j l').
Proof. done. Qed.

(** The pairs of two dicts that are alike, position by position. *)
Lemma alike_dict_pairs i j d d' :
  alike (VDict i d) (VDict j d') = true ->
  Forall2 (fun kv kv' => fst kv = fst kv' /\ alike (snd kv) (snd kv') = true) d d'.
Proof.
  revert d'. induction d as [| kv d IH]; intros [| kv' d'] H; try done; try by constructor.
  rewrite alike_dict_cons in H.
  apply andb_true_iff in H as [[Hk Hv]%andb_true_iff Hd].
  apply bool_decide_eq_true in Hk. constructor; [done | by apply IH].
Qed.

Lemma py_eq_dict i j d d' :
  Forall2 (fun kv kv' => fst kv = fst kv' /\ py_eq (snd kv) (snd kv') = true) d d' ->
  py_eq (VDict i d) (VDict j d') = true.
Proof.
  intros H.
  change (Nat.eqb (List.length d) (List.length d')
          && forallb (fun kv => existsb (fun kv' => key_eqb (fst kv) (fst kv')
                                                   && py_eq (snd kv) (snd kv')) d') d = true).
  apply andb_true_iff. split.
  - apply Nat.eqb_eq. by eapply Forall2_length.
  - induction H as [| kv kv' d d' [Hk Hv] H IH]; [done|].
    cbn [forallb existsb]. rewrite Hk, key_eqb_refl, Hv. cbn [andb orb].
    eapply forallb_forall. intros x Hx. rewrite forallb_forall in IH.
    rewrite (IH x Hx). apply orb_true_r.
Qed.

Lemma alike_py_eq a : forall b, alike a b = true -> py_eq a b = true.
Proof.
  induction a as [a Ha | i l IH | i l IH | i d IH | i] using value_nested_ind; intros b Hab.
  - destruct a as [| x | x | x | x | | | |], b as [| y | y | y | y | | | |]; try done; cbn in *.
    + apply Bool.eqb_prop in Hab as ->. apply dyadic_eqb_refl.
    + apply Z.eqb_eq in Hab as ->. apply dyadic_eqb_refl.
  - destruct b as [| | | | | j l' | | |]; try done.
    revert l' Hab. induction IH as [| x l Hx _ IHl]; intros [| y l'] Hab; try done.
    rewrite alike_list_cons in Hab. apply andb_true_iff in Hab as [Hxy Hl].
    by rewrite py_eq_list_cons, (Hx y Hxy), (IHl l' Hl).
  - destruct b as [| | | | | | j l' | |]; try done.
    revert l' Hab. induction IH as [| x l Hx _ IHl]; intros [| y l'] Hab; try done.
    rewrite alike_tuple_cons in Hab. apply andb_true_iff in Hab as [Hxy Hl].
    by rewrite py_eq_tuple_cons, (Hx y Hxy), (IHl l' Hl).
  - destruct b as [| | | | | | | j d' |]; try done.
    apply py_eq_dict. apply alike_dict_pairs in Hab.
    revert IH. induction Hab as [| kv kv' d d' [Hk Hv] _ IHd]; intros IH; constructor.
    + split; [done|]. inversion IH as [| ? ? Hx _]; subst. by apply Hx.
    + apply IHd. by inversion IH.
  - done.
Qed.

Lemma listed_tuple_free v : tuple_free v = true -> listed v = v.
Proof.
  induction v as [v Hv | i l IH | i l IH | i d IH | i] using value_nested_ind; intros Hf.
  - by destruct v.
  - cbn in *. f_equal. induction IH as [| x l Hx _ IHl]; [done|].
    cbn in Hf. apply andb_true_iff in Hf as [Hfx Hfl]. cbn. by rewrite (Hx Hfx), (IHl Hfl).
  - done.
  - cbn in *. f_equal. induction IH as [| [k x] d Hx _ IHd]; [done|].
    cbn in Hf. apply andb_true_iff in Hf as [Hfx Hfl]. cbn in *. by rewrite (Hx Hfx), (IHd Hfl).
  - done.
Qed.

(** *** A plain value is serialized *)

(** A generator that does not raise from the table [m]. *)
Definition calm {A} (c : gen A) (m : gset ident) : Prop :=
  forall e, ending (c (Some m)) <> Raised e.

Lemma calm_ret {A} (a : A) m : calm (mret a) m.
Proof. by intros e. Qed.

Lemma calm_yield s m : calm (yield s) m.
Proof. by intros e. Qed.

Lemma calm_bind {A B} (c : gen A) (f : A -> gen B) m :
  calm c m -> restores c -> (forall a, calm (f a) m) -> calm (c ≫= f) m.
Proof.
  intros Hc Hr Hf e. rewrite run_bind. specialize (Hc e). specialize (Hr (Some m)).
  destruct (ending (c (Some m))) as [a| e' |]; cbn; [| congruence | done].
  rewrite (Hr a eq_refl). apply Hf.
Qed.

Lemma calm_seq {A B} (c : gen A) (d : gen B) m :
  calm c m -> restores c -> calm d m -> calm (c;; d) m.
Proof. intros Hc Hr Hd. by apply calm_bind. Qed.

Lemma calm_marked {A} i (c : gen A) m : i ∉ m -> calm c ({[i]} ∪ m) -> calm (mark i;; c) m.
Proof. intros Hi Hc e. rewrite run_bind, mark_fresh by done. cbn. apply Hc. Qed.

Lemma calm_unmark i m : calm (unmark i) m.
Proof. by intros e. Qed.

Section Calm.

Variable w : interp.
Variable e : encoder.
Hypothesis Hfmt : default_format e.

Local Abbreviation E := (json.JSONEncoder._iterencode w e).

Definition calm_rec (rec : value -> nat -> gen unit) (m : gset ident) (v : value) : Prop :=
  plain v = true /\ forall l, calm (rec v l) m /\ restores (rec v l).

Lemma calm_item rec m l buf v :
  calm_rec rec m v ->
  calm (match json.JSONEncoder.atom w e v with
        | Some t => text ← lift t; yield (buf +:+ text)
        | None => yield buf;; rec v l
        end) m
  /\ restores (match json.JSONEncoder.atom w e v with
               | Some t => text ← lift t; yield (buf +:+ text)
               | None => yield buf;; rec v l
               end).
Proof.
  intros [Hp Hv]. destruct (json.JSONEncoder.atom w e v) as [t|] eqn:Hat.
  - rewrite (atom_render w e Hfmt v t Hp Hat). split; [by intros x | by intros ms a].
  - split.
    + apply calm_seq; [apply calm_yield | apply restores_yield | apply Hv].
    + apply restores_seq; [apply restores_yield | apply Hv].
Qed.

Lemma calm_list_loop rec m l sep buf lst :
  Forall (calm_rec rec m) lst -> calm (json.JSONEncoder.list_loop w e rec l sep buf lst) m.
Proof.
  intros Hall. revert buf. induction Hall as [| v lst Hv Hall IH]; intros buf; cbn.
  - apply calm_ret.
  - destruct (calm_item rec m l buf v Hv) as [Hc Hr]. by apply calm_seq.
Qed.

Lemma calm_value rec m l v :
  calm_rec rec m v ->
  calm (match json.JSONEncoder.atom w e v with
        | Some t => text ← lift t; yield text
        | None => rec v l
        end) m
  /\ restores (match json.JSONEncoder.atom w e v with
               | Some t => text ← lift t; yield text
               | None => rec v l
               end).
Proof.
  intros [Hp Hv]. destruct (json.JSONEncoder.atom w e v) as [t|] eqn:Hat.
  - rewrite (atom_render w e Hfmt v t Hp Hat). split; [by intros x | by intros ms a].
  - apply Hv.
Qed.

Lemma calm_dict_loop rec m l sep first items :
  Forall (fun kv => text_key (fst kv) = true /\ calm_rec rec m (snd kv)) items ->
  calm (json.JSONEncoder.dict_loop w e rec l sep first items) m.
Proof.
  intros Hall. revert first.
  induction Hall as [| [k v] items [Hk Hv] Hall IH]; intros first; cbn.
  - apply calm_ret.
  - destruct k as [k| | | |]; try done. cbn [json.JSONEncoder.key_text lift].
    intros x. rewrite run_bind. cbn [mret gen_ret ending chunks table]. revert x.
    change (calm ((if first then mret tt else yield sep);;
                  yield (json.JSONEncoder._encoder e k);;
                  yield (key_separator e);;
                  match json.JSONEncoder.atom w e v with
                  | Some t => text ← lift t; yield text
                  | None => rec v l
                  end;;
                  json.JSONEncoder.dict_loop w e rec l sep false items) m).
    destruct (calm_value rec m l v Hv) as [Hc Hr].
    apply calm_seq; [by destruct first | by destruct first |].
    apply calm_seq; [apply calm_yield | apply restores_yield |].
    apply calm_seq; [apply calm_yield | apply restores_yield |].
    by apply calm_seq.
Qed.

Lemma iterencode_calm n :
  forall v m l, plain v = true -> well_identified m v = true -> calm (E n v l) m.
Proof.
  destruct Hfmt as (Hascii & Hindent & Hisep & Hksep & Hsort).
  assert (Hnl : forall l, json.JSONEncoder.newline_indent e l = None).
  { intros l. unfold json.JSONEncoder.newline_indent, json.JSONEncoder._indent.
    by rewrite Hindent. }
  induction n as [| n IH]; intros v m l Hp Hw; [by intros x|].
  cbn [json.JSONEncoder._iterencode].
  assert (Hlist : forall i lst, forallb plain lst = true ->
            bool_decide (i ∉ m) && forallb (well_identified ({[i]} ∪ m)) lst = true ->
            calm (json.JSONEncoder._iterencode_list w e (E n) i lst l) m).
  { intros i lst Hpl [Hi Hwl]%andb_true_iff. apply bool_decide_eq_true in Hi.
    unfold json.JSONEncoder._iterencode_list. destruct lst as [| x lst]; [apply calm_yield|].
    rewrite Hnl. apply calm_marked; [done|].
    apply calm_seq; [| by apply restores_list_loop, Forall_forall; intros; apply restores_iterencode |].
    - apply calm_list_loop. apply Forall_forall. intros y Hy.
      apply forallb_Forall in Hpl, Hwl. rewrite Forall_forall in Hpl, Hwl.
      split; [by apply Hpl|]. intros l'. split; [| apply restores_iterencode].
      apply IH; [by apply Hpl | by apply Hwl].
    - apply calm_seq; [apply calm_yield | apply restores_yield | apply calm_unmark]. }
  destruct v as [| [] | k | f | s | i lst | i lst | i dct | i]; cbn in Hp; try done;
    try (by intros x).
  - by apply Hlist.
  - by apply Hlist.
  - cbn in Hw. apply andb_true_iff in Hw as [Hi Hwl]. apply bool_decide_eq_true in Hi.
    apply andb_true_iff in Hp as [[Hk Hnd]%andb_true_iff Hpv].
    cbn [json.JSONEncoder._iterencode_body]. unfold json.JSONEncoder._iterencode_dict.
    destruct dct as [| kv dct]; [apply calm_yield|].
    rewrite Hnl, Hsort. cbn [lift]. apply calm_marked; [done|].
    apply calm_seq; [apply calm_yield | apply restores_yield |].
    assert (Hall : Forall (fun kv => text_key (fst kv) = true
                                     /\ calm_rec (E n) ({[i]} ∪ m) (snd kv)) (kv :: dct)).
    { apply Forall_forall. intros y Hy.
      apply forallb_Forall in Hk, Hpv, Hwl. rewrite Forall_forall in Hk, Hpv, Hwl.
      split; [by apply Hk|]. split; [by apply Hpv|].
      intros l'. split; [| apply restores_iterencode]. apply IH; [by apply Hpv | by apply Hwl]. }
    apply calm_seq.
    + intros x. rewrite run_bind. cbn [mret gen_ret ending chunks table].
      apply (calm_dict_loop _ _ _ _ true _ Hall).
    + intros ms a. rewrite run_bind. cbn [mret gen_ret ending chunks table].
      assert (Hres : Forall (fun kv : key * value => forall l, restores (E n (snd kv) l))
                       (kv :: dct)).
      { apply Forall_forall. intros; apply restores_iterencode. }
      apply (restores_dict_loop w e (E n) l (item_separator e) true (kv :: dct) Hres ms a).
    + apply calm_seq; [apply calm_yield | apply restores_yield | apply calm_unmark].
Qed.

End Calm.

(** *** The round trip *)

Lemma wrapper_default_format w : default_format (wrapper_encoder w no_kwargs).
Proof. by repeat split. Qed.

Lemma plain_convertible w v : plain v = true -> convertible w v.
Proof.
  induction v as [v Hv | i l IH | i l IH | i d IH | i] using value_nested_ind; intros Hp.
  - by constructor.
  - apply conv_list. cbn in Hp. apply forallb_Forall in Hp.
    apply Forall_forall. intros x Hx. rewrite Forall_forall in IH, Hp. auto.
  - apply conv_tuple. cbn in Hp. apply forallb_Forall in Hp.
    apply Forall_forall. intros x Hx. rewrite Forall_forall in IH, Hp. auto.
  - apply conv_dict. cbn in Hp. apply andb_true_iff in Hp as [_ Hp]. apply forallb_Forall in Hp.
    apply Forall_forall. intros x Hx. rewrite Forall_forall in IH, Hp. auto.
  - done.
Qed.

(** What [json_dumps] returns for a plain value is its text. *)
Lemma json_dumps_render fuel w g v s :
  plain v = true -> json_dumps fuel w g v no_kwargs = Done s -> s = render v.
Proof.
  intros Hp. rewrite json_dumps_eq by done.
  destruct (encode_cases w v) as [[t ->] | Hjoin].
  - cbn. by intros [= <-].
  - rewrite Hjoin. unfold joined, json.JSONEncoder.iterencode.
    destruct (ending _) as [[]| |] eqn:Hend; try done. intros [= <-].
    by apply (iterencode_render w _ (wrapper_default_format w) fuel v Hp 0 _ Hend).
Qed.

(** [json.loads] reads the text of a plain value back, up to identities
    and tuples. *)
Lemma render_loads w v next :
  plain v = true ->
  exists fuel v', json.loads w fuel (render v) next = Done v' /\ alike v' (listed v) = true.
Proof.
  intros Hp. destruct (plain_parses w v Hp) as [N HN].
  destruct (HN N "" next) as (v' & next' & Hscan & Hal); [lia | done |].
  exists N, v'. split; [| done]. unfold json.loads.
  destruct (render_head v Hp) as (c & s & Hcs & Hws & _).
  rewrite append_nil_r in Hscan.
  rewrite Hcs, skip_ws_head by done. rewrite <- Hcs, Hscan. done.
Qed.

(** A plain value whose containers are not nested in themselves is
    serialized: with enough fuel [json_dumps] returns its text. *)
Lemma plain_serializes w g v :
  plain v = true -> well_identified ∅ v = true ->
  exists fuel, json_dumps fuel w g v no_kwargs = Done (render v).
Proof.
  intros Hp Hw.
  destruct (convertible_finishes w (wrapper_encoder w no_kwargs) eq_refl v
              (plain_convertible w v Hp))
    as [n Hn].
  exists n. rewrite json_dumps_eq by done.
  destruct (encode_cases w v) as [[t ->] | Hjoin]; [done|].
  rewrite Hjoin. unfold joined, json.JSONEncoder.iterencode.
  change (check_circular (wrapper_encoder w no_kwargs)) with true. cbn match.
  pose proof (Hn 0 (Some ∅)) as Hfin.
  pose proof (iterencode_calm w _ (wrapper_default_format w) n v ∅ 0 Hp Hw) as Hcalm.
  destruct (ending _) as [[]| x |] eqn:Hend.
  - f_equal. by apply (iterencode_render w _ (wrapper_default_format w) n v Hp 0 _ Hend).
  - by destruct (Hcalm x).
  - done.
Qed.




(** * Further properties of the wrappers *)

(** ** The [default] keyword *)

(** How a call ended, whatever it returned. *)
Definition outcome {A} (st : status A) : status unit :=
  match st with
  | Done _ => Done tt
  | Raised e => Raised e
  | Unfinished => Unfinished
  end.

(** [default(VObj i)] is the instance [k]: the [to_json] of [i] returns
    [k], or [i] has no [to_json] and [k] is [i] itself. *)
Definition converts_into (w : interp) (i k : ident) : Prop :=
  JsonEncoder.default w (VObj i) = Return (VObj k).

(** [l] lists the instances that [default] goes through from [i] on, and
    [j] is the last of them ([i] when [l] is empty). *)
Fixpoint leads (w : interp) (i : ident) (l : list ident) (j : ident) : Prop :=
  match l with
  | [] => i = j
  | k :: l' => converts_into w i k /\ leads w k l' j
  end.

(** From an instance of [P], [default] gives an instance of [P]. *)
Definition endless (w : interp) (P : ident -> Prop) : Prop :=
  forall i, P i -> exists k, converts_into w i k /\ P k.

(** [default=f], and nothing else. *)
Definition kw_hook (f : hook) : kwargs :=
  KwArgs None None None None None None None (Some (Some f)) None.

(** [check_circular=False], and nothing else. *)
Definition kw_unchecked : kwargs :=
  KwArgs None None (Some false) None None None None None None.

Lemma wrapper_hook w kw f :
  kw_default kw = Some (Some f) -> wrapper_encoder w kw = json.make_encoder w kw.
Proof. destruct kw. cbn. by intros ->. Qed.

Lemma cached_hook kw f : kw_default kw = Some (Some f) -> json.cached kw = false.
Proof.
  intros Hf. unfold json.cached. rewrite Hf. cbn [json.arg json.is_none].
  by rewrite !andb_false_r.
Qed.

(** X3.  A [default=f] of the caller takes the place of [JsonEncoder.default]
    ([__init__] stores it on the instance, where it shadows the method of
    the class): [to_json] is not consulted any more, and [json_dumps] and
    [json_dump] do on every value what [json.dumps] and [json.dump] do with
    the same keywords. *)
Theorem default_keyword_replaces_to_json fuel w g v kw f fp :
  kw_cls kw = None -> kw_default kw = Some (Some f) ->
  _default (wrapper_encoder w kw) = f
  /\ json_dumps fuel w g v kw = json.dumps fuel w g v kw
  /\ json_dump fuel w g v fp kw = json.dump fuel w g v fp kw.
Proof.
  intros Hcls Hf. rewrite json_dumps_eq, json_dump_eq by done.
  unfold json.dumps, json.dump, json.encoder_of.
  rewrite (cached_hook kw f Hf), (wrapper_hook w kw f Hf). repeat split.
  destruct kw. cbn in *. by rewrite Hf.
Qed.

Lemma default_keyword_replaces_to_json_witness :
  let f : hook := fun _ => Return (VStr "?") in
  _default (wrapper_encoder sample (kw_hook f)) = f
  /\ json_dumps 3 sample (json.module sample) (VObj 1) (kw_hook f)
     = json.dumps 3 sample (json.module sample) (VObj 1) (kw_hook f)
  /\ json_dump 3 sample (json.module sample) (VObj 1) "" (kw_hook f)
     = json.dump 3 sample (json.module sample) (VObj 1) "" (kw_hook f).
Proof.
  intros f.
  apply (default_keyword_replaces_to_json 3 sample (json.module sample) (VObj 1)
           (kw_hook f) f ""); reflexivity.
Defined.

(** ** [json_dump] against [json_dumps] *)

Lemma iterencode_str w e fuel s l ms :
  json.JSONEncoder._iterencode w e (S fuel) (VStr s) l ms
  = Run [json.JSONEncoder._encoder e s] ms (Done tt).
Proof. done. Qed.



(** ** Conversions that come back to an instance *)

Lemma wrapper_unset_encoder w kw :
  default_unset kw -> _default (wrapper_encoder w kw) = JsonEncoder.default w.
Proof. unfold default_unset. cbn. by intros ->. Qed.

Section Conversions.

Variable w : interp.
Variable self : encoder.
Hypothesis Hdefault : _default self = JsonEncoder.default w.

Local Abbreviation E := (json.JSONEncoder._iterencode w self).

(** The encoder on an instance whose conversion is known. *)
Lemma iterencode_converts fuel i k l a :
  converts_into w i k -> i ∉ a ->
  ending (E (S fuel) (VObj i) l (Some a)) = ending (E fuel (VObj k) l (Some ({[i]} ∪ a)))
  /\ chunks (E (S fuel) (VObj i) l (Some a)) = chunks (E fuel (VObj k) l (Some ({[i]} ∪ a))).
Proof.
  intros Hk Hi. rewrite iterencode_obj, Hdefault, Hk.
  split; [by apply obj_block_ending | by apply obj_block_chunks].
Qed.

Lemma iterencode_marked fuel i l a :
  i ∈ a -> E (S fuel) (VObj i) l (Some a) = Run [] (Some a) (Raised circular_reference).
Proof. intros Hi. by rewrite iterencode_obj, run_bind, mark_seen. Qed.

(** The conversions lead to an instance that is on the marker table. *)
Lemma leads_marked path : forall i j fuel l a,
  leads w i path j -> j ∈ a -> List.length path < fuel ->
  ending (E fuel (VObj i) l (Some a)) = Raised circular_reference
  /\ chunks (E fuel (VObj i) l (Some a)) = [].
Proof.
  induction path as [| k path IH]; intros i j fuel l a Hpath Hj Hfuel;
    (destruct fuel as [| fuel]; [cbn in Hfuel; lia|]).
  - cbn in Hpath. subst j. by rewrite iterencode_marked.
  - destruct Hpath as [Hk Hpath]. destruct (decide (i ∈ a)) as [Hi | Hi].
    + by rewrite iterencode_marked.
    + destruct (iterencode_converts fuel i k l a Hk Hi) as [-> ->].
      apply (IH k j); [done | | cbn in Hfuel; lia].
      apply elem_of_union. by right.
Qed.

(** The conversions lead to an instance from which they come back to it. *)
Lemma leads_back path : forall i j k cycle fuel l a,
  leads w i path j -> leads w j (k :: cycle) j ->
  List.length path + List.length (k :: cycle) < fuel ->
  ending (E fuel (VObj i) l (Some a)) = Raised circular_reference
  /\ chunks (E fuel (VObj i) l (Some a)) = [].
Proof.
  induction path as [| p path IH]; intros i j k cycle fuel l a Hpath Hcycle Hfuel;
    (destruct fuel as [| fuel]; [cbn in Hfuel; lia|]);
    (destruct (decide (i ∈ a)) as [Hi | Hi]; [by rewrite iterencode_marked|]).
  - cbn in Hpath. subst j. destruct Hcycle as [Hk Hcycle].
    destruct (iterencode_converts fuel i k l a Hk Hi) as [-> ->].
    apply (leads_marked cycle k i); [done | | cbn in Hfuel; lia].
    apply elem_of_union. left. by apply elem_of_singleton.
  - destruct Hpath as [Hp Hpath].
    destruct (iterencode_converts fuel i p l a Hp Hi) as [-> ->].
    apply (IH p j k cycle); [done | done | cbn in *; lia].
Qed.

(** Without a marker table, conversions that never leave the instances
    use up any fuel. *)
Lemma endless_unfinished P fuel : forall i l,
  endless w P -> P i -> E fuel (VObj i) l None = Run [] None Unfinished.
Proof.
  induction fuel as [| fuel IH]; intros i l Hendless Hi; [done|].
  destruct (Hendless i Hi) as (k & Hk & HPk).
  destruct (obj_block_none i (VObj k) (fun o' => E fuel o' l)) as [Hend Hchunks].
  rewrite iterencode_obj, Hdefault, Hk.
  rewrite (IH k l Hendless HPk) in Hend, Hchunks. cbn [ending chunks] in Hend, Hchunks.
  rewrite (run_eta (_ None)). rewrite Hend, Hchunks. f_equal.
  rewrite !run_bind. cbn. rewrite !run_bind. cbn. by rewrite (IH k l Hendless HPk).
Qed.

End Conversions.

(** X1.  When the conversions that start at an instance come back to an
    instance they went through, [json_dumps] and [json_dump] raise
    [ValueError('Circular reference detected')] and nothing is written.
    The conversions from [i] lead to [j] along [path], and from [j] back to
    [j] along [k :: cycle]; a [to_json] that returns its own instance, two
    instances that convert into each other, and a conversion that ends on an
    instance without [to_json] are cases of it.  [check_circular] is on,
    as it is when the caller leaves it alone. *)
Theorem conversion_cycle_is_a_circular_reference w g kw i path j k cycle fuel fp :
  kw_cls kw = None -> default_unset kw -> circular_checked kw = true ->
  leads w i path j -> leads w j (k :: cycle) j ->
  List.length path + List.length (k :: cycle) < fuel ->
  json_dumps fuel w g (VObj i) kw = Raised circular_reference
  /\ json_dump fuel w g (VObj i) fp kw = (fp, Raised circular_reference).
Proof.
  intros Hcls Hunset Hcheck Hpath Hcycle Hfuel.
  rewrite json_dumps_eq, json_dump_eq by done.
  destruct (leads_back w (wrapper_encoder w kw) (wrapper_unset_encoder w kw Hunset)
              path i j k cycle fuel 0 ∅ Hpath Hcycle Hfuel) as [Hend Hchunks].
  cbn zeta. unfold json.JSONEncoder.encode, json.JSONEncoder.iterencode.
  rewrite wrapper_check_circular, Hcheck, Hend, Hchunks. done.
Qed.

Lemma conversion_cycle_is_a_circular_reference_witness :
  json_dumps 4 sample (json.module sample) (VObj 5) no_kwargs = Raised circular_reference
  /\ json_dump 4 sample (json.module sample) (VObj 5) "log:" no_kwargs
     = ("log:", Raised circular_reference).
Proof.
  apply (conversion_cycle_is_a_circular_reference sample (json.module sample) no_kwargs
           5 [6] 6 5 [6] 4 "log:"); try reflexivity.
  - by split.
  - by repeat split.
  - cbn. lia.
Defined.

(** X2.  With [check_circular=False] nothing stops conversions that go
    from instance to instance for ever, be it round a cycle, on an instance
    without [to_json], or along new instances: the recursion of the encoder
    has no end (the interpreter breaks it off with a [RecursionError]), and
    nothing is written. *)
Theorem unchecked_conversions_never_end w g kw P i fuel fp :
  kw_cls kw = None -> default_unset kw -> circular_checked kw = false ->
  endless w P -> P i ->
  json_dumps fuel w g (VObj i) kw = Unfinished
  /\ json_dump fuel w g (VObj i) fp kw = (fp, Unfinished).
Proof.
  intros Hcls Hunset Hcheck Hendless Hi.
  rewrite json_dumps_eq, json_dump_eq by done.
  cbn zeta. unfold json.JSONEncoder.encode, json.JSONEncoder.iterencode.
  rewrite wrapper_check_circular, Hcheck.
  by rewrite (endless_unfinished w (wrapper_encoder w kw) (wrapper_unset_encoder w kw Hunset)
                P fuel i 0 Hendless Hi).
Qed.

Lemma unchecked_conversions_never_end_witness :
  json_dumps 50 sample (json.module sample) (VObj 5) kw_unchecked = Unfinished
  /\ json_dump 50 sample (json.module sample) (VObj 5) "log:" kw_unchecked
     = ("log:", Unfinished).
Proof.
  apply (unchecked_conversions_never_end sample (json.module sample) kw_unchecked
           (fun i => i = 5 \/ i = 6) 5 50 "log:"); try reflexivity.
  - intros i [-> | ->]; [exists 6 | exists 5]; split; try reflexivity; auto.
  - by left.
Defined.

(** ** A container is written as its items are *)

(** [i] is the identity of nothing inside [v], container or instance. *)
Fixpoint absent (i : ident) (v : value) : bool :=
  match v with
  | VList j l | VTuple j l => negb (Nat.eqb i j) && forallb (absent i) l
  | VDict j d => negb (Nat.eqb i j) && forallb (fun kv => absent i (snd kv)) d
  | VObj j => negb (Nat.eqb i j)
  | _ => true
  end.

(** The identity [i] is that of one object: nothing that a [to_json] of
    another instance returns bears it. *)
Definition own_identity (w : interp) (i : ident) : Prop :=
  forall j r, j <> i -> to_json_returns w (VObj j) r -> absent i r = true.

Section Fresh.

Variable w : interp.
Variable self : encoder.
Variable i : ident.

Hypothesis Hids :
  forall j r', j <> i -> _default self (VObj j) = Return r' -> absent i r' = true.

Local Abbreviation E := (json.JSONEncoder._iterencode w self).

Lemma fresh_marks j : j <> i -> sim_marks (grows i) true True True False j.
Proof.
  intros Hj. split; intros ms1 ms2 (a & -> & -> & Ha) Hg; right.
  - unfold mark. case_bool_decide as Hja.
    + rewrite bool_decide_eq_true_2 by (apply elem_of_union; by right).
      cbn. repeat split. by exists a.
    + rewrite bool_decide_eq_false_2.
      * cbn. repeat split. exists ({[j]} ∪ a). repeat split.
        -- f_equal. apply leibniz_equiv. intros x. rewrite !elem_of_union. tauto.
        -- rewrite elem_of_union, elem_of_singleton. intros [->|]; done.
      * rewrite elem_of_union, elem_of_singleton. intros [->|]; done.
  - cbn. repeat split. exists (a ∖ {[j]}). repeat split.
    + f_equal. apply leibniz_equiv. intros x.
      rewrite !elem_of_union, !elem_of_difference, !elem_of_union, !elem_of_singleton.
      split; [intros [[->|?] ?]; auto | intros [->|[? ?]]; auto].
    + rewrite elem_of_difference. tauto.
Qed.

Lemma absent_Forall l : forallb (absent i) l = true -> Forall (fun v => absent i v = true) l.
Proof.
  intros H. apply Forall_forall. intros v Hv. rewrite forallb_forall in H.
  apply H. by apply list_elem_of_In.
Qed.

Lemma iterencode_fresh_sim k :
  forall v, absent i v = true -> sim_rec (grows i) true True True False (E k) (E k) v.
Proof.
  induction k as [| k IH]; intros v Hv l1 l2 Hl; [apply sim_out_of_fuel|].
  cbn [json.JSONEncoder._iterencode].
  apply sim_iterencode_body; [apply same_config_refl | done |].
  destruct v as [| | | | | j lst | j lst | j dct | j]; cbn in *; try done.
  - apply andb_true_iff in Hv as [Hj Hlst]. apply negb_true_iff, Nat.eqb_neq in Hj.
    split; [intros _; by apply fresh_marks|].
    eapply Forall_impl; [by apply absent_Forall|]. intros v'. apply IH.
  - apply andb_true_iff in Hv as [Hj Hlst]. apply negb_true_iff, Nat.eqb_neq in Hj.
    split; [intros _; by apply fresh_marks|].
    eapply Forall_impl; [by apply absent_Forall|]. intros v'. apply IH.
  - apply andb_true_iff in Hv as [Hj Hdct]. apply negb_true_iff, Nat.eqb_neq in Hj.
    split; [intros _; by apply fresh_marks|].
    apply Forall_forall. intros kv Hkv. apply IH.
    rewrite forallb_forall in Hdct. apply Hdct. by apply list_elem_of_In.
  - apply negb_true_iff, Nat.eqb_neq in Hv.
    destruct (fresh_marks j) as [Hm Hu]; [done|].
    apply sim_seq; [done|].
    destruct (_default self (VObj j)) as [r'|e] eqn:Ed; cbn -[mbind mret].
    + apply sim_ret_bind. apply sim_seq; [|done]. apply IH; [|done].
      by apply (Hids j r').
    + apply sim_raise_bind.
Qed.

(** A run does not see an identity that is absent from its value. *)
Lemma iterencode_fresh k v l a :
  absent i v = true -> i ∉ a ->
  ending (E k v l (Some ({[i]} ∪ a))) = ending (E k v l (Some a))
  /\ chunks (E k v l (Some ({[i]} ∪ a))) = chunks (E k v l (Some a)).
Proof.
  intros Hv Ha.
  destruct (iterencode_fresh_sim k v Hv l l (fun _ => eq_refl) (Some a) (Some ({[i]} ∪ a)))
    as [[] | (Hch & Hen & _)].
  - by exists a.
  - by destruct (ending _).
  - split; [done|]. symmetry. by apply Hch.
Qed.

End Fresh.

(** The text a key is written as, before it is quoted. *)
Definition key_name (k : key) : string :=
  match k with
  | KStr s => s
  | KBool true => "true"
  | KBool false => "false"
  | KNone => "null"
  | KInt n => _intstr n
  | KTuple _ => ""
  end.

(** The keys the encoder accepts. *)
Definition simple_key (k : key) : bool :=
  match k with
  | KTuple _ => false
  | _ => true
  end.

(** The text of an entry whose value has the text [s]. *)
Definition entry (kv : key * value) (s : string) : string :=
  encode_basestring_ascii (key_name (fst kv)) +:+ ": " +:+ s.

Section Compose.

Variable w : interp.
Variable self : encoder.
Hypothesis Hfmt : default_format self.

Local Abbreviation E := (json.JSONEncoder._iterencode w self).

(** From the table [ms], the run of [v] completes with the text [s]. *)
Definition writes (ms : markers) (n : nat) (v : value) (s : string) : Prop :=
  ending (E n v 0 ms) = Done tt /\ String.concat "" (chunks (E n v 0 ms)) = s.

(** From the table [ms], the run of [v] raises [e] after the text [s]. *)
Definition breaks (ms : markers) (n : nat) (v : value) (s : string) (e : exn) : Prop :=
  ending (E n v 0 ms) = Raised e /\ String.concat "" (chunks (E n v 0 ms)) = s.

Lemma atom_iterencode n v t l ms :
  json.JSONEncoder.atom w self v = Some t ->
  E (S n) v l ms = (text ← lift t; yield text) ms.
Proof. destruct v as [| [] | | | | | | |]; cbn; intros [= <-]; done. Qed.

(** What the loop of a list does for one item. *)
Definition item_step (n : nat) (buf : string) (v : value) : gen unit :=
  match json.JSONEncoder.atom w self v with
  | Some t => text ← lift t; yield (buf +:+ text)
  | None => yield buf;; E n v 0
  end.

Lemma item_step_writes n ms buf v s :
  writes ms n v s ->
  ending (item_step n buf v ms) = Done tt /\ table (item_step n buf v ms) = ms
  /\ String.concat "" (chunks (item_step n buf v ms)) = buf +:+ s.
Proof.
  intros [Hend Hs]. unfold item_step.
  destruct (json.JSONEncoder.atom w self v) as [t|] eqn:Hat.
  - destruct n as [| n]; [done|]. rewrite (atom_iterencode n v t 0 ms Hat) in Hend, Hs.
    destruct t as [text | e]; [| done]. cbn in Hs. subst s. rewrite !run_bind. by cbn.
  - rewrite run_bind. cbn [yield ending chunks table]. rewrite Hend. cbn [ending chunks table].
    split; [done|]. split; [by apply (restores_iterencode w self n v 0 ms tt)|].
    change ([buf] ++ ?l)%list with (buf :: l). by rewrite concat_cons, Hs.
Qed.

(** The text of a loop: [buf] before the first item, [', '] before the
    others. *)
Fixpoint loop_text (buf : string) (texts : list string) : string :=
  match texts with
  | [] => ""
  | t :: ts => buf +:+ t +:+ loop_text ", " ts
  end.

Lemma loop_text_tail ts : loop_text ", " ts = tail_text ts.
Proof.
  induction ts as [| t ts IH]; [done|].
  unfold tail_text in *. cbn [loop_text map]. by rewrite concat_cons, IH, append_assoc.
Qed.

Lemma loop_text_join buf t ts : loop_text buf (t :: ts) = buf +:+ join (t :: ts).
Proof. by rewrite join_cons, <- loop_text_tail. Qed.

Lemma list_step n buf v lst ms :
  json.JSONEncoder.list_loop w self (E n) 0 ", " buf (v :: lst) ms
  = (item_step n buf v;; json.JSONEncoder.list_loop w self (E n) 0 ", " ", " lst) ms.
Proof. done. Qed.

Lemma list_loop_writes n ms items texts :
  Forall2 (writes ms n) items texts ->
  forall buf,
    let r := json.JSONEncoder.list_loop w self (E n) 0 ", " buf items ms in
    ending r = Done tt /\ table r = ms
    /\ String.concat "" (chunks r) = loop_text buf texts.
Proof.
  induction 1 as [| v s items texts Hv _ IH]; intros buf; [done|].
  cbn zeta. rewrite list_step, run_bind.
  destruct (item_step_writes n ms buf v s Hv) as (-> & -> & Hs).
  destruct (IH ", ") as (Hend & Htable & Htext). cbn zeta in *.
  cbn [ending chunks table]. rewrite Hend, Htable. repeat split.
  by rewrite concat_app, Hs, Htext, append_assoc.
Qed.

Lemma item_step_breaks n ms buf v s e :
  json.JSONEncoder.atom w self v = None -> breaks ms n v s e ->
  ending (item_step n buf v ms) = Raised e
  /\ String.concat "" (chunks (item_step n buf v ms)) = buf +:+ s.
Proof.
  intros Hat [Hend Hs]. unfold item_step. rewrite Hat, run_bind.
  cbn [yield ending chunks table]. rewrite Hend. cbn [ending chunks table].
  split; [done|]. change ([buf] ++ ?l)%list with (buf :: l). by rewrite concat_cons, Hs.
Qed.

(** The texts of the items before the one that raises, each with the
    separator that follows it. *)
Definition written (texts : list string) : string :=
  String.concat "" (map (fun t => t +:+ ", ") texts).

Lemma list_loop_breaks n ms pre texts bad s e post :
  Forall2 (writes ms n) pre texts ->
  json.JSONEncoder.atom w self bad = None -> breaks ms n bad s e ->
  forall buf,
    let r := json.JSONEncoder.list_loop w self (E n) 0 ", " buf (pre ++ bad :: post)%list ms in
    ending r = Raised e
    /\ String.concat "" (chunks r) = buf +:+ written texts +:+ s.
Proof.
  intros Hpre Hat Hbad.
  induction Hpre as [| v t pre texts Hv _ IH]; intros buf; cbn zeta.
  - change ([] ++ bad :: post)%list with (bad :: post). rewrite list_step, run_bind.
    destruct (item_step_breaks n ms buf bad s e Hat Hbad) as (-> & Hs).
    cbn [ending chunks table]. by rewrite Hs.
  - change ((v :: pre) ++ bad :: post)%list with (v :: (pre ++ bad :: post)%list).
    rewrite list_step, run_bind.
    destruct (item_step_writes n ms buf v t Hv) as (-> & -> & Hs).
    destruct (IH ", ") as (Hend & Htext). cbn zeta in *.
    cbn [ending chunks table]. rewrite Hend. split; [done|].
    rewrite concat_app, Hs, Htext. unfold written. cbn [map].
    by rewrite concat_cons, !append_assoc.
Qed.

Lemma no_indent l : json.JSONEncoder.newline_indent self l = None.
Proof.
  destruct Hfmt as (_ & Hindent & _).
  unfold json.JSONEncoder.newline_indent, json.JSONEncoder._indent. by rewrite Hindent.
Qed.

Lemma iterencode_list_writes n i items texts ms ms' :
  mark i ms = Run [] ms' (Done tt) ->
  Forall2 (writes ms' n) items texts ->
  let r := json.JSONEncoder._iterencode_list w self (E n) i items 0 ms in
  ending r = Done tt /\ String.concat "" (chunks r) = "[" +:+ join texts +:+ "]".
Proof.
  intros Hmark Hitems. destruct Hfmt as (_ & _ & Hisep & _).
  pose proof (list_loop_writes n ms' items texts Hitems "[") as Hloop.
  destruct Hitems as [| v t items texts Hv Hitems]; [done|].
  cbn zeta in *. destruct Hloop as (Hend & Htable & Htext).
  unfold json.JSONEncoder._iterencode_list. rewrite no_indent, Hisep.
  rewrite run_bind, Hmark. cbn [ending chunks table].
  rewrite run_bind, Hend, Htable. cbn [ending chunks table].
  rewrite run_bind. cbn [yield ending chunks table unmark_ending].
  rewrite unmark_ending, unmark_chunks. split; [done|].
  cbn [app]. rewrite concat_app, Htext, loop_text_join. cbn [app].
  by rewrite concat_cons, append_assoc.
Qed.

Lemma iterencode_list_breaks n i pre texts bad s e post ms ms' :
  mark i ms = Run [] ms' (Done tt) ->
  Forall2 (writes ms' n) pre texts ->
  json.JSONEncoder.atom w self bad = None -> breaks ms' n bad s e ->
  let r := json.JSONEncoder._iterencode_list w self (E n) i (pre ++ bad :: post)%list 0 ms in
  ending r = Raised e /\ String.concat "" (chunks r) = "[" +:+ written texts +:+ s.
Proof.
  intros Hmark Hpre Hat Hbad. destruct Hfmt as (_ & _ & Hisep & _).
  destruct (list_loop_breaks n ms' pre texts bad s e post Hpre Hat Hbad "[") as (Hend & Htext).
  cbn zeta in *. unfold json.JSONEncoder._iterencode_list.
  destruct (pre ++ bad :: post)%list as [| x lst] eqn:Hlst.
  { by destruct pre. }
  rewrite no_indent, Hisep. rewrite run_bind, Hmark. cbn [ending chunks table].
  rewrite run_bind, Hend. cbn [ending chunks table app]. by rewrite Htext.
Qed.

Lemma writes_mono ms n m v s : n <= m -> writes ms n v s -> writes ms m v s.
Proof.
  intros Hnm [Hend Hs]. unfold writes.
  rewrite (iterencode_mono w self n m v 0 ms Hnm) by (by rewrite Hend). done.
Qed.

Lemma breaks_mono ms n m v s e : n <= m -> breaks ms n v s e -> breaks ms m v s e.
Proof.
  intros Hnm [Hend Hs]. unfold breaks.
  rewrite (iterencode_mono w self n m v 0 ms Hnm) by (by rewrite Hend). done.
Qed.

(** One fuel for all the items. *)
Lemma writes_all {A B} (P : nat -> A -> B -> Prop) (items : list A) (texts : list B) :
  (forall n m a b, n <= m -> P n a b -> P m a b) ->
  Forall2 (fun a b => exists n, P n a b) items texts ->
  exists n, Forall2 (P n) items texts.
Proof.
  intros Hmono. induction 1 as [| a b items texts [n Hn] _ [m Hm]]; [by exists 0|].
  exists (n `max` m). constructor.
  - apply (Hmono n); [lia | done].
  - eapply Forall2_impl; [done|]. intros x y Hxy. apply (Hmono m); [lia | done].
Qed.

(** The run of the value of a dict entry. *)
Definition value_step (n : nat) (v : value) : gen unit :=
  match json.JSONEncoder.atom w self v with
  | Some t => text ← lift t; yield text
  | None => E n v 0
  end.

Lemma value_step_writes n ms v s :
  writes ms n v s ->
  ending (value_step n v ms) = Done tt /\ table (value_step n v ms) = ms
  /\ String.concat "" (chunks (value_step n v ms)) = s.
Proof.
  intros [Hend Hs]. unfold value_step.
  destruct (json.JSONEncoder.atom w self v) as [t|] eqn:Hat.
  - destruct n as [| n]; [done|]. rewrite <- (atom_iterencode n v t 0 ms Hat).
    split; [done|]. split; [by apply (restores_iterencode w self (S n) v 0 ms tt) | done].
  - split; [done|]. split; [by apply (restores_iterencode w self n v 0 ms tt) | done].
Qed.

Lemma key_text_simple k :
  simple_key k = true -> json.JSONEncoder.key_text self k = Some (Return (key_name k)).
Proof. by destruct k as [| | [] | |]. Qed.

Lemma dict_step n first k v items ms :
  simple_key k = true ->
  json.JSONEncoder.dict_loop w self (E n) 0 ", " first ((k, v) :: items) ms
  = ((if first then mret tt else yield ", ");;
     yield (encode_basestring_ascii (key_name k));;
     yield ": ";;
     value_step n v;;
     json.JSONEncoder.dict_loop w self (E n) 0 ", " false items) ms.
Proof.
  intros Hk. destruct Hfmt as (Hascii & _ & _ & Hksep & _).
  cbn [json.JSONEncoder.dict_loop]. rewrite (key_text_simple k Hk).
  cbn [lift]. rewrite run_bind. cbn [mret gen_ret ending chunks table app].
  unfold json.JSONEncoder._encoder. rewrite Hascii, Hksep. symmetry. apply run_eta.
Qed.

Lemma dict_loop_writes n ms items texts :
  Forall2 (fun kv s => simple_key (fst kv) = true /\ writes ms n (snd kv) s) items texts ->
  forall first,
    let r := json.JSONEncoder.dict_loop w self (E n) 0 ", " first items ms in
    ending r = Done tt /\ table r = ms
    /\ String.concat "" (chunks r)
       = loop_text (if first then "" else ", ") (zip_with entry items texts).
Proof.
  induction 1 as [| [k v] s items texts [Hk Hv] _ IH]; intros first; [done|].
  cbn zeta. cbn [fst snd] in *. rewrite (dict_step n first k v items ms Hk).
  destruct (value_step_writes n ms v s Hv) as (Hvend & Hvtable & Hvtext).
  destruct (IH false) as (Hend & Htable & Htext). cbn zeta in *.
  assert (Hfirst : forall ms0, ending ((if first then mret tt else yield ", ") ms0) = Done tt
                               /\ table ((if first then mret tt else yield ", ") ms0) = ms0
                               /\ String.concat "" (chunks ((if first then mret tt
                                                             else yield ", ") ms0))
                                  = (if first then "" else ", ")).
  { intros ms0. by destruct first. }
  destruct (Hfirst ms) as (Hfend & Hftable & Hftext).
  rewrite run_bind, Hfend, Hftable. cbn [ending chunks table].
  rewrite run_bind. cbn [yield ending chunks table].
  rewrite run_bind. cbn [yield ending chunks table].
  rewrite run_bind, Hvend, Hvtable. cbn [ending chunks table].
  rewrite Hend, Htable. repeat split.
  rewrite concat_app, Hftext. cbn [app zip_with loop_text].
  rewrite !concat_cons, concat_app, Hvtext, Htext. unfold entry. cbn [fst].
  by rewrite !append_assoc.
Qed.

Lemma iterencode_dict_writes n i items texts ms ms' :
  mark i ms = Run [] ms' (Done tt) ->
  Forall2 (fun kv s => simple_key (fst kv) = true /\ writes ms' n (snd kv) s) items texts ->
  let r := json.JSONEncoder._iterencode_dict w self (E n) i items 0 ms in
  ending r = Done tt
  /\ String.concat "" (chunks r) = "{" +:+ join (zip_with entry items texts) +:+ "}".
Proof.
  intros Hmark Hitems. destruct Hfmt as (_ & _ & Hisep & _ & Hsort).
  pose proof (dict_loop_writes n ms' items texts Hitems true) as Hloop.
  destruct Hitems as [| kv t items texts Hkv Hitems]; [done|].
  cbn zeta in *. destruct Hloop as (Hend & Htable & Htext).
  unfold json.JSONEncoder._iterencode_dict. rewrite no_indent, Hisep, Hsort.
  rewrite run_bind, Hmark. cbn [ending chunks table].
  rewrite run_bind. cbn [yield ending chunks table].
  rewrite run_bind. rewrite (run_bind (lift _)). cbn [lift mret gen_ret ending chunks table].
  rewrite Hend, Htable. cbn [ending chunks table].
  rewrite run_bind. cbn [yield ending chunks table].
  rewrite unmark_ending, unmark_chunks. split; [done|].
  cbn [app]. rewrite concat_cons, concat_app, Htext.
  change (zip_with entry (kv :: items) (t :: texts))
    with (entry kv t :: zip_with entry items texts).
  rewrite loop_text_join. cbn [app]. by rewrite concat_cons, !append_assoc.
Qed.

Section Marked.

Variable i : ident.
Hypothesis Hids :
  forall j r', j <> i -> _default self (VObj j) = Return r' -> absent i r' = true.

Lemma writes_fresh a n v s :
  absent i v = true -> i ∉ a -> writes (Some a) n v s -> writes (Some ({[i]} ∪ a)) n v s.
Proof.
  intros Hv Ha [Hend Hs]. unfold writes.
  destruct (iterencode_fresh w self i Hids n v 0 a Hv Ha) as [-> ->]. done.
Qed.

Lemma breaks_fresh a n v s e :
  absent i v = true -> i ∉ a -> breaks (Some a) n v s e -> breaks (Some ({[i]} ∪ a)) n v s e.
Proof.
  intros Hv Ha [Hend Hs]. unfold breaks.
  destruct (iterencode_fresh w self i Hids n v 0 a Hv Ha) as [-> ->]. done.
Qed.

(** The table after [mark i] on a new table, and the runs on it. *)
Lemma mark_new :
  exists ms', mark i (new_table self) = Run [] ms' (Done tt)
    /\ (forall n v s, absent i v = true -> writes (new_table self) n v s -> writes ms' n v s)
    /\ (forall n v s e, absent i v = true ->
           breaks (new_table self) n v s e -> breaks ms' n v s e).
Proof.
  unfold new_table. destruct (check_circular self).
  - exists (Some ({[i]} ∪ ∅)). split; [by apply mark_fresh, not_elem_of_empty|].
    split; intros; [apply writes_fresh | apply breaks_fresh]; try done;
      apply not_elem_of_empty.
  - by exists None.
Qed.

End Marked.

End Compose.

Lemma Forall2_and_l {A B} (P : A -> Prop) (R : A -> B -> Prop) l k :
  Forall P l -> Forall2 R l k -> Forall2 (fun a b => P a /\ R a b) l k.
Proof.
  intros HP HR. induction HR as [| a b l k Hab _ IH]; [constructor|].
  inversion HP; subst. constructor; auto.
Qed.

Lemma hook_absent w kw i :
  default_unset kw -> own_identity w i ->
  forall j r', j <> i -> _default (wrapper_encoder w kw) (VObj j) = Return r' ->
               absent i r' = true.
Proof.
  intros Hunset Hown j r' Hj. rewrite (wrapper_unset_encoder w kw Hunset).
  destruct (getattr w (VObj j) "to_json") as [[v | body]|] eqn:Hattr.
  - by rewrite (default_data w j v Hattr).
  - rewrite (default_method w j body Hattr). intros ->. by apply (Hown j r').
  - rewrite (default_absent w j Hattr). intros [= <-]. cbn.
    apply negb_true_iff, Nat.eqb_neq. congruence.
Qed.

Lemma atomic_atom w e v : atomic v = false -> json.JSONEncoder.atom w e v = None.
Proof. by destruct v as [| [] | | | | | | |]. Qed.

(** The runs of items that serialize, on the table of their container and
    with one fuel. *)
Lemma items_written w g kw i (items : list value) (texts : list string) :
  kw_cls kw = None -> default_unset kw -> own_identity w i ->
  Forall (fun v => absent i v = true) items ->
  Forall2 (serializes w g kw) items texts ->
  forall ms',
    (forall n v s, absent i v = true ->
       writes w (wrapper_encoder w kw) (new_table (wrapper_encoder w kw)) n v s ->
       writes w (wrapper_encoder w kw) ms' n v s) ->
    exists n, forall m, n <= m -> Forall2 (writes w (wrapper_encoder w kw) ms' m) items texts.
Proof.
  intros Hcls Hunset Hown Habs Hitems ms' Hms.
  destruct (writes_all (fun n v s => writes w (wrapper_encoder w kw) ms' n v s) items texts)
    as [n Hn].
  { intros n m v s. apply writes_mono. }
  { eapply Forall2_impl; [apply (Forall2_and_l _ _ _ _ Habs Hitems)|].
    intros v s [Hv Hs]. cbn beta in *.
    apply (serializes_completes w g kw v s Hcls) in Hs as (n & Hend & Htext).
    exists n. apply Hms; [done|]. by split. }
  exists n. intros m Hm. eapply Forall2_impl; [exact Hn|].
  intros v s. by apply writes_mono.
Qed.

(** X4.  With the default format, a list (or tuple) whose items serialize
    is serialized as the bracketed texts of its items, joined by [', '], in
    order; an item may be anything that serializes, instances converted by
    [to_json] and the same instance twice included.  The identity of the
    list is that of no object inside the items or in what a [to_json]
    returns, as [id] ensures. *)
Theorem list_is_written_as_its_items w g kw i items texts :
  kw_cls kw = None -> default_unset kw -> default_format (wrapper_encoder w kw) ->
  own_identity w i -> Forall (fun v => absent i v = true) items ->
  Forall2 (serializes w g kw) items texts ->
  serializes w g kw (VList i items) ("[" +:+ join texts +:+ "]")
  /\ serializes w g kw (VTuple i items) ("[" +:+ join texts +:+ "]").
Proof.
  intros Hcls Hunset Hfmt Hown Habs Hitems.
  destruct (mark_new w (wrapper_encoder w kw) i (hook_absent w kw i Hunset Hown))
    as (ms' & Hmark & Hw & _).
  destruct (items_written w g kw i items texts Hcls Hunset Hown Habs Hitems ms' Hw) as [n Hn].
  destruct (iterencode_list_writes w (wrapper_encoder w kw) Hfmt n i items texts _ ms' Hmark
              (Hn n (le_n n))) as [Hend Htext].
  split; apply (serializes_completes w g kw _ _ Hcls); by exists (S n).
Qed.

Lemma sample_own_identity i : 6 < i < 100 -> own_identity sample i.
Proof.
  intros Hi j r' Hj Hret. unfold to_json_returns in Hret.
  destruct j as [|[|[|[|[|[|[|j]]]]]]]; vm_compute in Hret;
    try discriminate Hret; injection Hret as <-; cbn;
    rewrite ?andb_true_r; apply negb_true_iff, Nat.eqb_neq; lia.
Qed.

Lemma list_is_written_as_its_items_witness :
  serializes sample (json.module sample) no_kwargs (VList 9 [VObj 2; VInt 3; VObj 2])
    ("[" +:+ join [q "{'x': 1, 'y': 2}"; "3"; q "{'x': 1, 'y': 2}"] +:+ "]")
  /\ serializes sample (json.module sample) no_kwargs (VTuple 9 [VObj 2; VInt 3; VObj 2])
       ("[" +:+ join [q "{'x': 1, 'y': 2}"; "3"; q "{'x': 1, 'y': 2}"] +:+ "]").
Proof.
  apply (list_is_written_as_its_items sample (json.module sample) no_kwargs 9
           [VObj 2; VInt 3; VObj 2] [q "{'x': 1, 'y': 2}"; "3"; q "{'x': 1, 'y': 2}"]);
    try reflexivity.
  - by repeat split.
  - apply sample_own_identity. lia.
  - by repeat constructor.
  - repeat constructor; by exists 4.
Defined.

(** X5.  With the default format, a dict whose values serialize is
    serialized as the braced entries [key: text], joined by [', '], in the
    order of the dict.  A key that is not a string is written as the string
    of its text: [1] as ['1'], [True] as ['true'], [None] as ['null'];
    [to_json] plays no part in the keys. *)
Theorem dict_is_written_as_its_entries w g kw i d texts :
  kw_cls kw = None -> default_unset kw -> default_format (wrapper_encoder w kw) ->
  own_identity w i -> Forall (fun kv => absent i (snd kv) = true) d ->
  Forall2 (fun kv s => simple_key (fst kv) = true /\ serializes w g kw (snd kv) s) d texts ->
  serializes w g kw (VDict i d) ("{" +:+ join (zip_with entry d texts) +:+ "}").
Proof.
  intros Hcls Hunset Hfmt Hown Habs Hitems.
  destruct (mark_new w (wrapper_encoder w kw) i (hook_absent w kw i Hunset Hown))
    as (ms' & Hmark & Hw & _).
  destruct (writes_all (fun n (kv : key * value) s =>
                          simple_key (fst kv) = true
                          /\ writes w (wrapper_encoder w kw) ms' n (snd kv) s) d texts)
    as [n Hn].
  { intros n m kv s Hnm [Hk Hs]. split; [done|]. by apply (writes_mono _ _ _ n). }
  { eapply Forall2_impl; [apply (Forall2_and_l _ _ _ _ Habs Hitems)|].
    intros kv s (Hv & Hk & Hs). cbn beta in *.
    apply (serializes_completes w g kw _ s Hcls) in Hs as (n & Hend & Htext).
    exists n. split; [done|]. apply Hw; [done|]. by split. }
  destruct (iterencode_dict_writes w (wrapper_encoder w kw) Hfmt n i d texts _ ms' Hmark Hn)
    as [Hend Htext].
  apply (serializes_completes w g kw _ _ Hcls). by exists (S n).
Qed.

Lemma dict_is_written_as_its_entries_witness :
  serializes sample (json.module sample) no_kwargs
    (VDict 9 [(KStr "p", VObj 1); (KInt 1, VList 8 []); (KNone, VStr "n")])
    ("{" +:+ join (zip_with entry
                     [(KStr "p", VObj 1); (KInt 1, VList 8 []); (KNone, VStr "n")]
                     [q "{'x': 1, 'y': 2}"; "[]"; q "'n'"]) +:+ "}").
Proof.
  apply (dict_is_written_as_its_entries sample (json.module sample) no_kwargs 9
           [(KStr "p", VObj 1); (KInt 1, VList 8 []); (KNone, VStr "n")]
           [q "{'x': 1, 'y': 2}"; "[]"; q "'n'"]);
    try reflexivity.
  - by repeat split.
  - apply sample_own_identity. lia.
  - by repeat constructor.
  - repeat constructor; by exists 4.
Defined.

(** X6.  [json_dump] writes as the encoder goes, and does not take back
    what it wrote: when an item of a list raises, the sink has received the
    opening bracket, the texts of the items before it, each followed by
    [', '], and what the failing item wrote of itself.  The failing item is
    a container or an instance. *)
Theorem json_dump_keeps_what_it_wrote w g kw i pre texts bad partial e post fp :
  kw_cls kw = None -> default_unset kw -> default_format (wrapper_encoder w kw) ->
  own_identity w i ->
  Forall (fun v => absent i v = true) pre -> absent i bad = true ->
  Forall2 (serializes w g kw) pre texts ->
  atomic bad = false ->
  (exists fuel, json_dump fuel w g bad "" kw = (partial, Raised e)) ->
  exists fuel,
    json_dump fuel w g (VList i (pre ++ bad :: post)) fp kw
    = (fp +:+ "[" +:+ written texts +:+ partial, Raised e).
Proof.
  intros Hcls Hunset Hfmt Hown Habs Hbad Hpre Hatomic [nb Hnb].
  destruct (mark_new w (wrapper_encoder w kw) i (hook_absent w kw i Hunset Hown))
    as (ms' & Hmark & Hw & Hb).
  destruct (items_written w g kw i pre texts Hcls Hunset Hown Habs Hpre ms' Hw) as [n Hn].
  rewrite json_dump_eq in Hnb by done. cbn zeta in Hnb. rewrite fold_write in Hnb.
  injection Hnb as Htext Hend. change ("" +:+ ?x) with x in Htext.
  assert (Hbreaks : breaks w (wrapper_encoder w kw) ms' (n `max` nb) bad partial e).
  { apply (breaks_mono _ _ _ nb); [lia|]. apply Hb; [done|]. by split. }
  destruct (iterencode_list_breaks w (wrapper_encoder w kw) Hfmt (n `max` nb) i pre texts bad
              partial e post _ ms' Hmark (Hn _ (Nat.le_max_l n nb))
              (atomic_atom w _ bad Hatomic) Hbreaks) as [Hlend Hltext].
  exists (S (n `max` nb)). rewrite json_dump_eq by done. cbn zeta. rewrite fold_write.
  unfold json.JSONEncoder.iterencode. cbn [json.JSONEncoder._iterencode].
  cbn [json.JSONEncoder._iterencode_body]. cbn zeta in Hlend, Hltext.
  unfold new_table in Hlend, Hltext. by rewrite Hlend, Hltext.
Qed.

Lemma json_dump_keeps_what_it_wrote_witness :
  exists fuel,
    json_dump fuel sample (json.module sample) (VList 9 ([VInt 1; VObj 1] ++ VObj 4 :: [VInt 2]))
      "log:" no_kwargs
    = ("log:" +:+ "[" +:+ written ["1"; q "{'x': 1, 'y': 2}"] +:+ "",
       Raised (Exn "KeyError" "'k'")).
Proof.
  apply (json_dump_keeps_what_it_wrote sample (json.module sample) no_kwargs 9
           [VInt 1; VObj 1] ["1"; q "{'x': 1, 'y': 2}"] (VObj 4) "" (Exn "KeyError" "'k'")
           [VInt 2] "log:");
    try reflexivity.
  - by repeat split.
  - apply sample_own_identity. lia.
  - by repeat constructor.
  - repeat constructor; by exists 4.
  - by exists 1.
Defined.

(** ** The text of a plain value *)

(** The characters from the space to the tilde. *)
Definition printable (c : ascii) : bool :=
  Nat.leb 32 (nat_of_ascii c) && Nat.leb (nat_of_ascii c) 126.

Fixpoint all_printable (s : string) : bool :=
  match s with
  | EmptyString => true
  | String c s' => printable c && all_printable s'
  end.

(** [skipkeys=True], and nothing else. *)
Definition kw_skipkeys_on : kwargs :=
  KwArgs (Some true) None None None None None None None None.

Lemma all_printable_app s t :
  all_printable (s +:+ t) = all_printable s && all_printable t.
Proof.
  induction s as [| c s IH]; [done|].
  rewrite append_cons. cbn [all_printable]. by rewrite IH, andb_assoc.
Qed.

Lemma replace_ascii_printable c : all_printable (replace_ascii c) = true.
Proof. destruct c as [[] [] [] [] [] [] [] []]; reflexivity. Qed.

Lemma basestring_ascii_printable s : all_printable (encode_basestring_ascii s) = true.
Proof.
  unfold encode_basestring_ascii. rewrite !all_printable_app.
  assert (all_printable (sub replace_ascii s) = true) as ->; [| done].
  induction s as [| c s IH]; [done|].
  change (sub replace_ascii (String c s)) with (replace_ascii c +:+ sub replace_ascii s).
  by rewrite all_printable_app, replace_ascii_printable, IH.
Qed.

Lemma uint_printable d : all_printable (NilEmpty.string_of_uint d) = true.
Proof. induction d; cbn; done. Qed.

Lemma intstr_printable n : all_printable (_intstr n) = true.
Proof.
  destruct (intstr_cases n) as [-> | [(d & _ & ->) | (d & _ & ->)]]; [done | |].
  - apply uint_printable.
  - cbn. apply uint_printable.
Qed.

Lemma join_printable texts :
  Forall (fun t => all_printable t = true) texts -> all_printable (join texts) = true.
Proof.
  induction 1 as [| t texts Ht Hts IH]; [done|].
  destruct texts as [| u texts]; [done|].
  change (join (t :: u :: texts)) with (t +:+ ", " +:+ join (u :: texts)).
  by rewrite !all_printable_app, Ht, IH.
Qed.

Lemma render_printable v : plain v = true -> all_printable (render v) = true.
Proof.
  induction v as [v Hv | i l IH | i l IH | i d IH | i] using value_nested_ind; intros Hp.
  - destruct v as [| [] | n | f | s | | | |]; try done; cbn [render].
    + apply intstr_printable.
    + apply basestring_ascii_printable.
  - cbn [render]. rewrite !all_printable_app, join_printable; [done|].
    cbn in Hp. apply forallb_Forall in Hp. apply Forall_map.
    apply Forall_forall. intros x Hx. rewrite Forall_forall in IH, Hp. auto.
  - cbn [render]. rewrite !all_printable_app, join_printable; [done|].
    cbn in Hp. apply forallb_Forall in Hp. apply Forall_map.
    apply Forall_forall. intros x Hx. rewrite Forall_forall in IH, Hp. auto.
  - cbn [render]. rewrite !all_printable_app, join_printable; [done|].
    cbn in Hp. apply andb_true_iff in Hp as [_ Hp]. apply forallb_Forall in Hp.
    apply Forall_map. apply Forall_forall. intros x Hx. rewrite Forall_forall in IH, Hp.
    cbn beta. rewrite !all_printable_app, basestring_ascii_printable.
    rewrite (IH x Hx (Hp x Hx)). done.
  - done.
Qed.

(** X9.  With the default keywords the text of a value built from [None],
    bools, integers, strings, lists, tuples and dicts with string keys is
    [render v]: it depends on the value alone, not on the state of the
    interpreter, on the [json] module or on the identities of the
    containers.  [json_dumps] returns no other text, and returns this one
    once the fuel suffices, when no container is nested in itself. *)
Theorem plain_value_text w g v :
  plain v = true ->
  (forall fuel s, json_dumps fuel w g v no_kwargs = Done s -> s = render v)
  /\ (well_identified ∅ v = true ->
      exists n, forall fuel, n <= fuel -> json_dumps fuel w g v no_kwargs = Done (render v)).
Proof.
  intros Hp. split.
  - intros fuel s. by apply json_dumps_render.
  - intros Hw. destruct (plain_serializes w g v Hp Hw) as [n Hn]. exists n.
    intros fuel Hfuel. rewrite json_dumps_eq in * by done.
    destruct (encode_cases w v) as [[t ->] | Hjoin]; [done|].
    rewrite Hjoin in *. unfold joined, json.JSONEncoder.iterencode in *.
    rewrite (iterencode_mono w _ n fuel v 0 _ Hfuel); [done|].
    by destruct (ending _).
Qed.

Lemma plain_value_text_witness :
  let v := VDict 7 [(KStr "a", VList 8 [VInt (-1); VStr "x"; VNone]); (KStr "b", VTuple 9 [])] in
  (forall fuel s, json_dumps fuel sample (json.module sample) v no_kwargs = Done s ->
                  s = render v)
  /\ (well_identified ∅ v = true ->
      exists n, forall fuel, n <= fuel ->
        json_dumps fuel sample (json.module sample) v no_kwargs = Done (render v)).
Proof.
  intros v. apply (plain_value_text sample (json.module sample) v). by vm_compute.
Defined.

(** X8.  With the default keywords the text [json_dumps] returns for a
    value built from [None], bools, integers, strings, lists, tuples and
    dicts with string keys holds printable ASCII characters only, whatever
    characters the strings of the value hold: no newline, no control
    character, nothing above the tilde. *)
Theorem plain_text_is_printable_ascii fuel w g v s :
  plain v = true -> json_dumps fuel w g v no_kwargs = Done s -> all_printable s = true.
Proof.
  intros Hp Hs. rewrite (json_dumps_render fuel w g v s Hp Hs). by apply render_printable.
Qed.

Lemma plain_text_is_printable_ascii_witness :
  let v := VList 7 [VStr (String (ascii_of_nat 10) (String (ascii_of_nat 233) "a")); VInt (-5)] in
  let s := "[" +:+ dquote +:+ "\n\u00e9a" +:+ dquote +:+ ", -5]" in
  json_dumps 2 sample (json.module sample) v no_kwargs = Done s /\ all_printable s = true.
Proof.
  intros v s. split; [reflexivity|].
  apply (plain_text_is_printable_ascii 2 sample (json.module sample) v s); reflexivity.
Defined.

(** ** [skipkeys] *)

(** The entries of a dict that [skipkeys=True] keeps. *)
Definition kept (d : list (key * value)) : list (key * value) :=
  List.filter (fun kv => simple_key (fst kv)) d.

Lemma dict_loop_kept w e rec l sep d :
  skipkeys e = true ->
  forall first,
    json.JSONEncoder.dict_loop w e rec l sep first d
    = json.JSONEncoder.dict_loop w e rec l sep first (kept d).
Proof.
  intros Hskip. induction d as [| [k v] d IH]; intros first; [done|].
  destruct k as [s | n | [] | | t].
  1-5: cbn [kept List.filter fst simple_key json.JSONEncoder.dict_loop
            json.JSONEncoder.key_text];
       fold (kept d); by rewrite (IH false).
  cbn [kept List.filter fst simple_key json.JSONEncoder.dict_loop json.JSONEncoder.key_text].
  rewrite Hskip. fold (kept d). apply IH.
Qed.

Lemma mret_bind_run {A B} (a : A) (f : A -> gen B) ms : (mret a ≫= f) ms = f a ms.
Proof. rewrite run_bind. cbn. symmetry. apply run_eta. Qed.

Lemma iterencode_dict_kept w e rec i d l ms ms' :
  skipkeys e = true -> sort_keys e = false -> indent e = IndentNone ->
  mark i ms = Run [] ms' (Done tt) ->
  let r1 := json.JSONEncoder._iterencode_dict w e rec i d l ms in
  let r2 := json.JSONEncoder._iterencode_dict w e rec i (kept d) l ms in
  ending r1 = ending r2
  /\ String.concat "" (chunks r1) = String.concat "" (chunks r2).
Proof.
  intros Hskip Hsort Hindent Hmark. cbn zeta.
  assert (Hnl : forall l, json.JSONEncoder.newline_indent e l = None).
  { intros l'. unfold json.JSONEncoder.newline_indent, json.JSONEncoder._indent.
    by rewrite Hindent. }
  destruct d as [| kv d]; [done|]. unfold json.JSONEncoder._iterencode_dict.
  rewrite Hnl, Hsort. cbn [lift].
  destruct (kept (kv :: d)) as [| kv' d'] eqn:Hkept.
  - rewrite run_bind, Hmark. cbn [ending chunks table].
    rewrite run_bind. cbn [yield ending chunks table].
    rewrite run_bind, mret_bind_run, (dict_loop_kept w e rec l _ (kv :: d) Hskip true), Hkept.
    cbn [json.JSONEncoder.dict_loop mret gen_ret ending chunks table].
    rewrite run_bind. cbn [yield ending chunks table].
    by rewrite unmark_ending, unmark_chunks.
  - rewrite !(run_bind (mark i)), Hmark. cbn [ending chunks table].
    rewrite !(run_bind (yield "{")). cbn [yield ending chunks table].
    rewrite !(run_bind (mret _ ≫= _)), !mret_bind_run.
    by rewrite (dict_loop_kept w e rec l _ (kv :: d) Hskip true), Hkept.
Qed.

Lemma mark_new_table e i : exists ms', mark i (new_table e) = Run [] ms' (Done tt).
Proof.
  unfold new_table. destruct (check_circular e); [| by exists None].
  exists (Some ({[i]} ∪ ∅)). apply mark_fresh, not_elem_of_empty.
Qed.

(** X10.  With [skipkeys=True], and neither [sort_keys] nor [indent], the
    entries of a dict whose key is not a string, a number, a bool or [None]
    are left out, and the dict is written as the dict of the other entries
    is: same text, same exception, also when no entry is left ([{}]). *)
Theorem skipkeys_drops_the_entries w g kw i d fuel fp :
  kw_cls kw = None ->
  json.arg false (kw_skipkeys kw) = true ->
  json.arg false (kw_sort_keys kw) = false ->
  json.arg IndentNone (kw_indent kw) = IndentNone ->
  json_dumps fuel w g (VDict i d) kw = json_dumps fuel w g (VDict i (kept d)) kw
  /\ json_dump fuel w g (VDict i d) fp kw = json_dump fuel w g (VDict i (kept d)) fp kw.
Proof.
  intros Hcls Hskip Hsort Hindent. rewrite !json_dumps_eq, !json_dump_eq by done.
  cbn zeta. rewrite !fold_write.
  unfold json.JSONEncoder.encode, json.JSONEncoder.iterencode.
  destruct fuel as [| fuel]; [done|].
  cbn [json.JSONEncoder._iterencode json.JSONEncoder._iterencode_body].
  destruct (mark_new_table (wrapper_encoder w kw) i) as [ms' Hmark].
  destruct (iterencode_dict_kept w (wrapper_encoder w kw)
              (json.JSONEncoder._iterencode w (wrapper_encoder w kw) fuel) i d 0 _ ms'
              Hskip Hsort Hindent Hmark) as [Hend Htext].
  cbn zeta in Hend, Htext. unfold new_table in Hend, Htext. by rewrite Hend, Htext.
Qed.

Lemma skipkeys_drops_the_entries_witness :
  let d := [(KTuple [1; 2]%Z, VInt 0); (KStr "a", VObj 1); (KTuple [], VObj 0)] in
  json_dumps 4 sample (json.module sample) (VDict 9 d) kw_skipkeys_on
  = json_dumps 4 sample (json.module sample) (VDict 9 (kept d)) kw_skipkeys_on
  /\ json_dump 4 sample (json.module sample) (VDict 9 d) "" kw_skipkeys_on
     = json_dump 4 sample (json.module sample) (VDict 9 (kept d)) "" kw_skipkeys_on.
Proof.
  intros d.
  apply (skipkeys_drops_the_entries sample (json.module sample) kw_skipkeys_on 9 d 4 "");
    reflexivity.
Defined.

(** ** The exceptions of the wrappers *)

(** The exceptions the encoder raises by itself once [default] is
    [JsonEncoder.default]. *)
Definition encoder_error (e : exn) : Prop :=
  e = circular_reference
  \/ e = TypeError "keys must be str, int, float, bool or None, not tuple"
  \/ e = TypeError "'<' not supported between instances"
  \/ exists t, e = ValueError ("Out of range float values are not JSON compliant: " +:+ t).

(** The exceptions of calling the [to_json] attribute of an instance of
    the heap. *)
Definition to_json_error (w : interp) (e : exn) : Prop :=
  exists j a, getattr w (VObj j) "to_json" = Some a /\ call w a = Raise e.

(** A generator that raises nothing else. *)
Definition sound {A} (w : interp) (c : gen A) : Prop :=
  forall ms e, ending (c ms) = Raised e -> encoder_error e \/ to_json_error w e.

Lemma sound_ret {A} w (a : A) : sound w (mret a).
Proof. by intros ms e. Qed.

Lemma sound_yield w s : sound w (yield s).
Proof. by intros ms e. Qed.

Lemma sound_out_of_fuel {A} w : sound w (@out_of_fuel A).
Proof. by intros ms e. Qed.

Lemma sound_unmark w i : sound w (unmark i).
Proof. by intros [a|] e. Qed.

Lemma sound_mark w i : sound w (mark i).
Proof.
  intros [a|] e; [| done]. unfold mark. case_bool_decide; [| done].
  intros [= <-]. left. by left.
Qed.

Lemma sound_lift {A} w (r : result A) :
  (forall e, r = Raise e -> encoder_error e \/ to_json_error w e) -> sound w (lift r).
Proof. intros Hr ms e. destruct r as [a | e']; [done|]. intros [= <-]. by apply Hr. Qed.

Lemma sound_bind {A B} w (c : gen A) (f : A -> gen B) :
  sound w c -> (forall a, sound w (f a)) -> sound w (c ≫= f).
Proof.
  intros Hc Hf ms e. rewrite run_bind. specialize (Hc ms).
  destruct (ending (c ms)) as [a | e' |]; cbn; [apply Hf | | done].
  intros [= <-]. by apply Hc.
Qed.

Lemma sound_seq {A B} w (c : gen A) (d : gen B) : sound w c -> sound w d -> sound w (c;; d).
Proof. intros Hc Hd. by apply sound_bind. Qed.

Lemma key_lt_error a b e :
  key_lt a b = Raise e -> e = TypeError "'<' not supported between instances".
Proof.
  unfold key_lt. destruct a, b; cbn; try (by intros [= <-]); try done;
    repeat (match goal with |- context [match ?x with _ => _ end] => destruct x end);
    by intros [= <-].
Qed.

Lemma insort_error x l e :
  insort x l = Raise e -> e = TypeError "'<' not supported between instances".
Proof.
  induction l as [| y l IH]; [done|]. cbn [insort].
  destruct (key_lt (fst y) (fst x)) as [[] |] eqn:Hlt; cbn.
  - destruct (insort x l); [done|]. intros [= <-]. by apply IH.
  - done.
  - intros [= <-]. by apply (key_lt_error _ _ _ Hlt).
Qed.

Lemma sorted_error l e :
  sorted l = Raise e -> e = TypeError "'<' not supported between instances".
Proof.
  induction l as [| x l IH]; [done|]. cbn [sorted].
  destruct (sorted l) as [s |]; cbn; [apply insort_error|].
  intros [= <-]. by apply IH.
Qed.

Lemma default_error w o e :
  JsonEncoder.default w o = Raise e -> to_json_error w e.
Proof.
  unfold JsonEncoder.default, hasattr, call_method.
  destruct o as [| | | | | | | | j]; try done.
  destruct (getattr w (VObj j) "to_json") as [a|] eqn:Hattr; [| done].
  destruct (call w a) as [r | e'] eqn:Hcall; [done|]. intros [= <-]. by exists j, a.
Qed.

Section Errors.

Variable w : interp.
Variable self : encoder.
Hypothesis Hdefault : _default self = JsonEncoder.default w.

Local Abbreviation E := (json.JSONEncoder._iterencode w self).

Lemma sound_atom v t :
  json.JSONEncoder.atom w self v = Some t -> sound w (lift t).
Proof.
  intros Hat. apply sound_lift. intros e He. left.
  destruct v as [| [] | | fl | | | | |]; cbn in Hat; try done; injection Hat as <-; try done.
  unfold json.JSONEncoder.floatstr in He.
  destruct fl; try done; destruct (allow_nan self); try done;
    injection He as <-; do 3 right; by eexists.
Qed.

Lemma sound_list_loop rec l sep lst :
  (forall v l, sound w (rec v l)) ->
  forall buf, sound w (json.JSONEncoder.list_loop w self rec l sep buf lst).
Proof.
  intros Hrec. induction lst as [| v lst IH]; intros buf; [apply sound_ret|].
  cbn [json.JSONEncoder.list_loop]. apply sound_seq; [| apply IH].
  destruct (json.JSONEncoder.atom w self v) as [t|] eqn:Hat.
  - apply sound_bind; [by apply (sound_atom v) | intros; apply sound_yield].
  - apply sound_seq; [apply sound_yield | apply Hrec].
Qed.

Lemma sound_dict_loop rec l sep items :
  (forall v l, sound w (rec v l)) ->
  forall first, sound w (json.JSONEncoder.dict_loop w self rec l sep first items).
Proof.
  intros Hrec. induction items as [| [k v] items IH]; intros first; [apply sound_ret|].
  cbn [json.JSONEncoder.dict_loop].
  destruct (json.JSONEncoder.key_text self k) as [kt|] eqn:Hkt; [| apply IH].
  apply sound_bind.
  { apply sound_lift. intros e ->. left. right. left.
    destruct k as [| | [] | |]; cbn in Hkt; try done.
    destruct (skipkeys self); [done|]. by injection Hkt as <-. }
  intros k'. apply sound_seq; [destruct first; [apply sound_ret | apply sound_yield]|].
  apply sound_seq; [apply sound_yield|]. apply sound_seq; [apply sound_yield|].
  apply sound_seq; [| apply IH].
  destruct (json.JSONEncoder.atom w self v) as [t|] eqn:Hat.
  - apply sound_bind; [by apply (sound_atom v) | intros; apply sound_yield].
  - apply Hrec.
Qed.

Lemma sound_sorted dct (f : list (key * value) -> gen unit) :
  (forall items, sound w (f items)) ->
  sound w (items ← lift (if sort_keys self then sorted dct else Return dct); f items).
Proof.
  intros Hf. apply sound_bind; [| done]. apply sound_lift. intros e He. left.
  destruct (sort_keys self); [| done]. do 2 right. left. by apply (sorted_error dct).
Qed.

Lemma sound_iterencode n : forall v l, sound w (E n v l).
Proof.
  induction n as [| n IH]; intros v l; [apply sound_out_of_fuel|].
  cbn [json.JSONEncoder._iterencode].
  assert (Hlist : forall i lst, sound w (json.JSONEncoder._iterencode_list w self (E n) i lst l)).
  { intros i lst. unfold json.JSONEncoder._iterencode_list.
    destruct lst as [| x lst]; [apply sound_yield|].
    apply sound_seq; [apply sound_mark|]. apply sound_seq.
    - destruct (json.JSONEncoder.newline_indent self (S l)).
      + apply sound_seq; [by apply sound_list_loop | apply sound_yield].
      + by apply sound_list_loop.
    - apply sound_seq; [apply sound_yield | apply sound_unmark]. }
  destruct v as [| [] | k | f | s | i lst | i lst | i dct | i];
    cbn [json.JSONEncoder._iterencode_body]; try apply sound_yield; try apply Hlist.
  - apply sound_bind; [by apply (sound_atom (VFloat f)) | intros; apply sound_yield].
  - unfold json.JSONEncoder._iterencode_dict.
    destruct dct as [| kv dct]; [apply sound_yield|].
    apply sound_seq; [apply sound_mark|]. apply sound_seq; [apply sound_yield|].
    apply sound_seq; [| apply sound_seq; [apply sound_yield | apply sound_unmark]].
    destruct (json.JSONEncoder.newline_indent self (S l)).
    + apply sound_seq; [apply sound_yield|].
      apply (sound_sorted _ (fun items => json.JSONEncoder.dict_loop w self (E n) (S l) _ true
                                            items;; yield _)).
      intros items. apply sound_seq; [by apply sound_dict_loop | apply sound_yield].
    + apply sound_sorted. intros items. by apply sound_dict_loop.
  - apply sound_seq; [apply sound_mark|]. apply sound_bind.
    + apply sound_lift. intros e He. right. rewrite Hdefault in He.
      by apply (default_error w (VObj i)).
    + intros o'. apply sound_seq; [apply IH | apply sound_unmark].
Qed.

End Errors.



(** ** An instance and the parser *)

Lemma converts_serializes w g kw o v s :
  kw_cls kw = None -> default_unset kw -> converts_to w o v ->
  serializes w g kw o s <-> serializes w g kw v s.
Proof.
  intros Hcls Hunset Hconv. rewrite !serializes_completes by done.
  induction Hconv as [v | i r v Hret Hun Hconv IH]; [done|].
  by rewrite completes_step.
Qed.



(** ** Back references *)

(** [None], bools, integers and strings. *)
Definition scalar (v : value) : bool :=
  match v with
  | VNone | VBool _ | VInt _ | VStr _ => true
  | _ => false
  end.

(** The encoder, on its way through [v] with the identities [m] marked,
    comes to a marked identity before anything else goes wrong: through the
    conversion of an instance, or through an item of a container whose
    items before it are scalars. *)
Inductive comes_back (w : interp) : gset ident -> value -> Prop :=
| back_instance m i : i ∈ m -> comes_back w m (VObj i)
| back_list m i x l : i ∈ m -> comes_back w m (VList i (x :: l))
| back_tuple m i x l : i ∈ m -> comes_back w m (VTuple i (x :: l))
| back_dict m i x d : i ∈ m -> comes_back w m (VDict i (x :: d))
| through_instance m i r :
    i ∉ m -> JsonEncoder.default w (VObj i) = Return r ->
    comes_back w ({[i]} ∪ m) r -> comes_back w m (VObj i)
| through_list m i pre x post :
    i ∉ m -> forallb scalar pre = true ->
    comes_back w ({[i]} ∪ m) x -> comes_back w m (VList i (pre ++ x :: post))
| through_tuple m i pre x post :
    i ∉ m -> forallb scalar pre = true ->
    comes_back w ({[i]} ∪ m) x -> comes_back w m (VTuple i (pre ++ x :: post))
| through_dict m i pre k x post :
    i ∉ m -> forallb (fun kv => simple_key (fst kv) && scalar (snd kv)) pre = true ->
    simple_key k = true ->
    comes_back w ({[i]} ∪ m) x -> comes_back w m (VDict i (pre ++ (k, x) :: post)).

(** [sort_keys] is left alone (absent, or [False]). *)
Definition unsorted (kw : kwargs) : Prop := json.arg false (kw_sort_keys kw) = false.

Lemma comes_back_atom w e m v : comes_back w m v -> json.JSONEncoder.atom w e v = None.
Proof. by destruct 1. Qed.

Section Back.

Variable w : interp.
Variable self : encoder.
Hypothesis Hdefault : _default self = JsonEncoder.default w.
Hypothesis Hsort : sort_keys self = false.

Local Abbreviation E := (json.JSONEncoder._iterencode w self).

Lemma scalar_atom v :
  scalar v = true -> exists t, json.JSONEncoder.atom w self v = Some (Return t).
Proof. destruct v as [| [] | | | | | | |]; try done; intros _; by eexists. Qed.

Lemma list_loop_raises rec l sep ms pre x post e :
  forallb scalar pre = true -> json.JSONEncoder.atom w self x = None ->
  ending (rec x l ms) = Raised e ->
  forall buf,
    ending (json.JSONEncoder.list_loop w self rec l sep buf (pre ++ x :: post)%list ms)
    = Raised e.
Proof.
  intros Hpre Hat Hx. induction pre as [| v pre IH]; intros buf.
  - change ([] ++ x :: post)%list with (x :: post). cbn [json.JSONEncoder.list_loop].
    rewrite Hat, run_bind, run_bind. cbn [yield ending chunks table]. by rewrite Hx.
  - cbn in Hpre. apply andb_true_iff in Hpre as [Hv Hpre].
    change ((v :: pre) ++ x :: post)%list with (v :: (pre ++ x :: post)%list).
    cbn [json.JSONEncoder.list_loop]. destruct (scalar_atom v Hv) as [t ->].
    cbn [lift]. rewrite run_bind, mret_bind_run. cbn [yield ending chunks table]. by apply IH.
Qed.

Lemma dict_loop_raises rec l sep ms pre k x post e :
  forallb (fun kv => simple_key (fst kv) && scalar (snd kv)) pre = true ->
  simple_key k = true -> json.JSONEncoder.atom w self x = None ->
  ending (rec x l ms) = Raised e ->
  forall first,
    ending (json.JSONEncoder.dict_loop w self rec l sep first (pre ++ (k, x) :: post)%list ms)
    = Raised e.
Proof.
  intros Hpre Hk Hat Hx.
  assert (Hfirst : forall (first : bool) ms0,
            ending ((if first then mret tt else yield sep) ms0) = Done tt
            /\ table ((if first then mret tt else yield sep) ms0) = ms0).
  { intros first ms0. by destruct first. }
  induction pre as [| [k' v] pre IH]; intros first.
  - change ([] ++ (k, x) :: post)%list with ((k, x) :: post).
    cbn [json.JSONEncoder.dict_loop]. rewrite (key_text_simple self k Hk), Hat.
    cbn [lift]. rewrite mret_bind_run. destruct (Hfirst first ms) as [Hfe Hft].
    rewrite run_bind, Hfe, Hft. cbn [ending chunks table].
    rewrite run_bind. cbn [yield ending chunks table].
    rewrite run_bind. cbn [yield ending chunks table].
    rewrite run_bind. by rewrite Hx.
  - cbn in Hpre. apply andb_true_iff in Hpre as [[Hk' Hv]%andb_true_iff Hpre].
    change (((k', v) :: pre) ++ (k, x) :: post)%list
      with ((k', v) :: (pre ++ (k, x) :: post)%list).
    cbn [json.JSONEncoder.dict_loop]. rewrite (key_text_simple self k' Hk').
    destruct (scalar_atom v Hv) as [t ->].
    cbn [lift]. rewrite mret_bind_run. destruct (Hfirst first ms) as [Hfe Hft].
    rewrite run_bind, Hfe, Hft. cbn [ending chunks table].
    rewrite run_bind. cbn [yield ending chunks table].
    rewrite run_bind. cbn [yield ending chunks table].
    rewrite run_bind, mret_bind_run. cbn [yield ending chunks table]. by apply IH.
Qed.

Lemma marked_raises {A} i m (c : gen A) :
  i ∈ m -> ending ((mark i;; c) (Some m)) = Raised circular_reference.
Proof. intros Hi. by rewrite run_bind, mark_seen. Qed.

Lemma comes_back_raises m v :
  comes_back w m v ->
  exists n, forall l, ending (E n v l (Some m)) = Raised circular_reference.
Proof.
  induction 1 as [m i Hi | m i x lst Hi | m i x lst Hi | m i x d Hi
                  | m i r Hi Hr _ [n IH] | m i pre x post Hi Hpre Hx [n IH]
                  | m i pre x post Hi Hpre Hx [n IH] | m i pre k x post Hi Hpre Hk Hx [n IH]].
  1-4: exists 1; intros l; cbn [json.JSONEncoder._iterencode json.JSONEncoder._iterencode_body
                               json.JSONEncoder._iterencode_list
                               json.JSONEncoder._iterencode_dict];
       by apply marked_raises.
  - exists (S n). intros l. rewrite iterencode_obj, Hdefault, Hr.
    rewrite obj_block_ending by done. apply IH.
  - exists (S n). intros l. cbn [json.JSONEncoder._iterencode json.JSONEncoder._iterencode_body].
    unfold json.JSONEncoder._iterencode_list.
    destruct (pre ++ x :: post)%list as [| y lst] eqn:Hlst; [by destruct pre|]. rewrite <- Hlst.
    rewrite run_bind, mark_fresh by done. cbn [ending chunks table].
    pose proof (comes_back_atom w self _ _ Hx) as Hat.
    destruct (json.JSONEncoder.newline_indent self (S l)); rewrite run_bind.
    + by rewrite run_bind, (list_loop_raises _ _ _ _ pre x post _ Hpre Hat (IH (S l))).
    + by rewrite (list_loop_raises _ _ _ _ pre x post _ Hpre Hat (IH l)).
  - exists (S n). intros l. cbn [json.JSONEncoder._iterencode json.JSONEncoder._iterencode_body].
    unfold json.JSONEncoder._iterencode_list.
    destruct (pre ++ x :: post)%list as [| y lst] eqn:Hlst; [by destruct pre|]. rewrite <- Hlst.
    rewrite run_bind, mark_fresh by done. cbn [ending chunks table].
    pose proof (comes_back_atom w self _ _ Hx) as Hat.
    destruct (json.JSONEncoder.newline_indent self (S l)); rewrite run_bind.
    + by rewrite run_bind, (list_loop_raises _ _ _ _ pre x post _ Hpre Hat (IH (S l))).
    + by rewrite (list_loop_raises _ _ _ _ pre x post _ Hpre Hat (IH l)).
  - exists (S n). intros l. cbn [json.JSONEncoder._iterencode json.JSONEncoder._iterencode_body].
    unfold json.JSONEncoder._iterencode_dict.
    destruct (pre ++ (k, x) :: post)%list as [| y lst] eqn:Hlst; [by destruct pre|].
    rewrite <- Hlst, Hsort. cbn [lift].
    rewrite run_bind, mark_fresh by done. cbn [ending chunks table].
    rewrite run_bind. cbn [yield ending chunks table].
    pose proof (comes_back_atom w self _ _ Hx) as Hat.
    destruct (json.JSONEncoder.newline_indent self (S l)); rewrite run_bind.
    + rewrite run_bind. cbn [yield ending chunks table].
      rewrite mret_bind_run, run_bind.
      by rewrite (dict_loop_raises _ _ _ _ pre k x post _ Hpre Hk Hat (IH (S l))).
    + rewrite mret_bind_run.
      by rewrite (dict_loop_raises _ _ _ _ pre k x post _ Hpre Hk Hat (IH l)).
Qed.

End Back.

(** A parent and its child: the [to_json] of the parent (instance 1) lists
    its children, the [to_json] of the child (instance 2) names its
    parent. *)
Definition family_heap (i : ident) : pyobject :=
  match i with
  | 1 => PyObject "Parent"
           {[ "to_json" := Method (Return (VDict 10 [(KStr "name", VStr "p");
                                                     (KStr "children", VList 11 [VObj 2])])) ]}
  | 2 => PyObject "Child"
           {[ "to_json" := Method (Return (VDict 12 [(KStr "parent", VObj 1)])) ]}
  | _ => PyObject "object" ∅
  end.

Definition family : interp := Interp family_heap sample_repr sample_float.

(** X13.  A back reference is a circular reference: when the encoder, on
    its way through the value and the conversions of its instances, comes
    to an instance or a container it is inside of, [json_dumps] and
    [json_dump] raise [ValueError('Circular reference detected')].  The way
    goes through [to_json] results and through items of lists, tuples and
    dicts whose items before are scalars; [check_circular] and [sort_keys]
    are left alone.  A parent whose [to_json] lists children whose
    [to_json] name the parent is the typical case. *)
Theorem back_reference_is_a_circular_reference w g kw v fp :
  kw_cls kw = None -> default_unset kw -> circular_checked kw = true -> unsorted kw ->
  comes_back w ∅ v ->
  exists n, forall fuel, n <= fuel ->
    json_dumps fuel w g v kw = Raised circular_reference
    /\ snd (json_dump fuel w g v fp kw) = Raised circular_reference.
Proof.
  intros Hcls Hunset Hcheck Hsort Hback.
  destruct (comes_back_raises w (wrapper_encoder w kw) (wrapper_unset_encoder w kw Hunset)
              Hsort ∅ v Hback) as [n Hn].
  exists n. intros fuel Hfuel. rewrite json_dumps_eq, json_dump_eq by done. cbn [snd].
  assert (Hrun : ending (json.JSONEncoder.iterencode w (wrapper_encoder w kw) fuel v)
                 = Raised circular_reference).
  { unfold json.JSONEncoder.iterencode. rewrite wrapper_check_circular, Hcheck.
    rewrite (iterencode_mono w _ n fuel v 0 _ Hfuel); [apply Hn|]. by rewrite Hn. }
  split; [| done].
  destruct (encode_cases w v) as [[t ->] | Hjoin]; [inversion Hback|].
  rewrite Hjoin. unfold joined. by rewrite Hrun.
Qed.

Lemma back_reference_is_a_circular_reference_witness :
  exists n, forall fuel, n <= fuel ->
    json_dumps fuel family (json.module family) (VObj 1) no_kwargs = Raised circular_reference
    /\ snd (json_dump fuel family (json.module family) (VObj 1) "" no_kwargs)
       = Raised circular_reference.
Proof.
  apply (back_reference_is_a_circular_reference family (json.module family) no_kwargs
           (VObj 1) ""); try reflexivity.
  eapply (through_instance family _ 1); [by apply (bool_decide_unpack _) | reflexivity |].
  apply (through_dict family _ 10 [(KStr "name", VStr "p")] (KStr "children")
           (VList 11 [VObj 2]) []); [by apply (bool_decide_unpack _) | reflexivity | reflexivity |].
  apply (through_list family _ 11 [] (VObj 2) []); [by apply (bool_decide_unpack _) | reflexivity |].
  eapply (through_instance family _ 2); [by apply (bool_decide_unpack _) | reflexivity |].
  apply (through_dict family _ 12 [] (KStr "parent") (VObj 1) []);
    [by apply (bool_decide_unpack _) | reflexivity | reflexivity |].
  apply back_instance. by apply (bool_decide_unpack _).
Defined.

(** ** Keywords of format *)

(** Two calls that differ at most in [ensure_ascii], [indent] and
    [separators]. *)
Definition same_rules (kw kw' : kwargs) : Prop :=
  kw_skipkeys kw = kw_skipkeys kw' /\ kw_check_circular kw = kw_check_circular kw'
  /\ kw_allow_nan kw = kw_allow_nan kw' /\ kw_default kw = kw_default kw'
  /\ kw_sort_keys kw = kw_sort_keys kw'.

(** [indent=2, separators=(',', ':'), ensure_ascii=False] *)
Definition kw_compact_indented : kwargs :=
  KwArgs None (Some false) None None None (Some (IndentInt 2)) (Some (Some (",", ":")))
    None None.

(** Two generators that end alike and leave the same table. *)
Definition agree {A B} (c1 : gen A) (c2 : gen B) : Prop :=
  forall ms, outcome (ending (c1 ms)) = outcome (ending (c2 ms))
             /\ table (c1 ms) = table (c2 ms).

Lemma agree_refl_unit (c : gen unit) : agree c c.
Proof. by intros ms. Qed.

Lemma agree_yield s1 s2 : agree (yield s1) (yield s2).
Proof. by intros ms. Qed.

Lemma agree_bind {A1 A2 B1 B2} (c1 : gen A1) (c2 : gen A2)
    (f1 : A1 -> gen B1) (f2 : A2 -> gen B2) :
  agree c1 c2 -> (forall a1 a2, agree (f1 a1) (f2 a2)) -> agree (c1 ≫= f1) (c2 ≫= f2).
Proof.
  intros Hc Hf ms. rewrite !run_bind. destruct (Hc ms) as [Hend Htable].
  destruct (ending (c1 ms)) as [a1 | e1 |], (ending (c2 ms)) as [a2 | e2 |];
    try discriminate Hend; cbn [ending table]; [| done | done].
  rewrite Htable. apply Hf.
Qed.

Lemma agree_seq {A1 A2 B1 B2} (c1 : gen A1) (c2 : gen A2) (d1 : gen B1) (d2 : gen B2) :
  agree c1 c2 -> agree d1 d2 -> agree (c1;; d1) (c2;; d2).
Proof. intros Hc Hd. by apply agree_bind. Qed.

Lemma agree_lift {A} (r1 r2 : result A) :
  (forall e, r1 = Raise e <-> r2 = Raise e) -> agree (lift r1) (lift r2).
Proof.
  intros Hr ms. destruct r1 as [a1 | e1], r2 as [a2 | e2]; try done.
  - by destruct (proj2 (Hr e2) eq_refl).
  - by destruct (proj1 (Hr e1) eq_refl).
  - by injection (proj1 (Hr e1) eq_refl) as ->.
Qed.

Lemma agree_then_yield_l {B} (c1 : gen unit) (c2 : gen B) s :
  agree c1 c2 -> agree (c1;; yield s) c2.
Proof.
  intros Hc ms. rewrite run_bind. destruct (Hc ms) as [Hend Htable].
  by destruct (ending (c1 ms)) as [[]| |].
Qed.

Lemma agree_then_yield_r {A} (c1 : gen A) (c2 : gen unit) s :
  agree c1 c2 -> agree c1 (c2;; yield s).
Proof.
  intros Hc ms. rewrite run_bind. destruct (Hc ms) as [Hend Htable].
  by destruct (ending (c2 ms)) as [[]| |].
Qed.

Lemma agree_yield_then_l {A B} (c1 : gen A) (c2 : gen B) s :
  agree c1 c2 -> agree (yield s;; c1) c2.
Proof. intros Hc ms. rewrite run_bind. cbn [yield ending chunks table]. apply Hc. Qed.

Lemma agree_yield_then_r {A B} (c1 : gen A) (c2 : gen B) s :
  agree c1 c2 -> agree c1 (yield s;; c2).
Proof. intros Hc ms. rewrite run_bind. cbn [yield ending chunks table]. apply Hc. Qed.

Lemma agree_lift_bind {A B1 B2} (r : result A) (f1 : A -> gen B1) (f2 : A -> gen B2) :
  (forall a, agree (f1 a) (f2 a)) -> agree (lift r ≫= f1) (lift r ≫= f2).
Proof.
  intros Hf ms. rewrite !run_bind. destruct r as [a | e]; cbn [lift]; [| done].
  cbn [mret gen_ret ending chunks table]. apply Hf.
Qed.

Section Format.

Variable w : interp.
Variables self1 self2 : encoder.
Hypothesis Hskip : skipkeys self1 = skipkeys self2.
Hypothesis Hnan : allow_nan self1 = allow_nan self2.
Hypothesis Hsort : sort_keys self1 = sort_keys self2.
Hypothesis Hdefault : _default self1 = _default self2.

Local Abbreviation E1 := (json.JSONEncoder._iterencode w self1).
Local Abbreviation E2 := (json.JSONEncoder._iterencode w self2).

Lemma agree_atom v :
  match json.JSONEncoder.atom w self1 v, json.JSONEncoder.atom w self2 v with
  | Some t1, Some t2 => agree (lift t1) (lift t2)
  | None, None => True
  | _, _ => False
  end.
Proof.
  destruct v as [| [] | | f | | | | |]; cbn; try done; try (by apply agree_lift).
  apply agree_lift. intros e. unfold json.JSONEncoder.floatstr. rewrite Hnan.
  by destruct f.
Qed.

Lemma agree_key_text k :
  match json.JSONEncoder.key_text self1 k, json.JSONEncoder.key_text self2 k with
  | Some t1, Some t2 => agree (lift t1) (lift t2)
  | None, None => True
  | _, _ => False
  end.
Proof.
  destruct k as [| | [] | |]; try (by cbn).
  unfold json.JSONEncoder.key_text. rewrite Hskip.
  destruct (skipkeys self2); [done|]. by apply agree_lift.
Qed.

Section Loops.

Variables rec1 rec2 : value -> nat -> gen unit.
Hypothesis Hrec : forall v l1 l2, agree (rec1 v l1) (rec2 v l2).

Lemma agree_list_loop l1 l2 sep1 sep2 lst :
  forall buf1 buf2,
    agree (json.JSONEncoder.list_loop w self1 rec1 l1 sep1 buf1 lst)
          (json.JSONEncoder.list_loop w self2 rec2 l2 sep2 buf2 lst).
Proof.
  induction lst as [| v lst IH]; intros buf1 buf2; [done|].
  cbn [json.JSONEncoder.list_loop]. apply agree_seq; [| apply IH].
  pose proof (agree_atom v) as Hat.
  destruct (json.JSONEncoder.atom w self1 v), (json.JSONEncoder.atom w self2 v); try done.
  - apply agree_bind; [done | intros; apply agree_yield].
  - apply agree_seq; [apply agree_yield | apply Hrec].
Qed.

Lemma agree_dict_loop l1 l2 sep1 sep2 items :
  forall first,
    agree (json.JSONEncoder.dict_loop w self1 rec1 l1 sep1 first items)
          (json.JSONEncoder.dict_loop w self2 rec2 l2 sep2 first items).
Proof.
  induction items as [| [k v] items IH]; intros first; [done|].
  cbn [json.JSONEncoder.dict_loop]. pose proof (agree_key_text k) as Hkt.
  destruct (json.JSONEncoder.key_text self1 k), (json.JSONEncoder.key_text self2 k);
    try done.
  apply agree_bind; [done|]. intros k1 k2.
  apply agree_seq; [destruct first; [done | apply agree_yield]|].
  apply agree_seq; [apply agree_yield|]. apply agree_seq; [apply agree_yield|].
  apply agree_seq; [| apply IH].
  pose proof (agree_atom v) as Hat.
  destruct (json.JSONEncoder.atom w self1 v), (json.JSONEncoder.atom w self2 v); try done.
  apply agree_bind; [done | intros; apply agree_yield].
Qed.

Lemma agree_iterencode_list i lst l1 l2 :
  agree (json.JSONEncoder._iterencode_list w self1 rec1 i lst l1)
        (json.JSONEncoder._iterencode_list w self2 rec2 i lst l2).
Proof.
  unfold json.JSONEncoder._iterencode_list. destruct lst as [| x lst]; [apply agree_yield|].
  apply agree_seq; [apply agree_refl_unit|]. apply agree_seq.
  - destruct (json.JSONEncoder.newline_indent self1 (S l1)),
             (json.JSONEncoder.newline_indent self2 (S l2)).
    + apply agree_seq; [apply agree_list_loop | apply agree_yield].
    + apply agree_then_yield_l, agree_list_loop.
    + apply agree_then_yield_r, agree_list_loop.
    + apply agree_list_loop.
  - apply agree_seq; [apply agree_yield | apply agree_refl_unit].
Qed.

Lemma agree_iterencode_dict i dct l1 l2 :
  agree (json.JSONEncoder._iterencode_dict w self1 rec1 i dct l1)
        (json.JSONEncoder._iterencode_dict w self2 rec2 i dct l2).
Proof.
  unfold json.JSONEncoder._iterencode_dict. destruct dct as [| x dct]; [apply agree_yield|].
  apply agree_seq; [apply agree_refl_unit|]. apply agree_seq; [apply agree_yield|].
  rewrite Hsort. apply agree_seq.
  - destruct (json.JSONEncoder.newline_indent self1 (S l1)),
             (json.JSONEncoder.newline_indent self2 (S l2)).
    + apply agree_seq; [apply agree_yield|]. apply agree_lift_bind. intros items.
      apply agree_seq; [apply agree_dict_loop | apply agree_yield].
    + apply agree_yield_then_l, agree_lift_bind. intros items.
      apply agree_then_yield_l, agree_dict_loop.
    + apply agree_yield_then_r, agree_lift_bind. intros items.
      apply agree_then_yield_r, agree_dict_loop.
    + apply agree_lift_bind. intros items. apply agree_dict_loop.
  - apply agree_seq; [apply agree_yield | apply agree_refl_unit].
Qed.

End Loops.

Lemma agree_iterencode n : forall v l1 l2, agree (E1 n v l1) (E2 n v l2).
Proof.
  induction n as [| n IH]; intros v l1 l2; [done|].
  cbn [json.JSONEncoder._iterencode].
  destruct v as [| [] | k | f | s | i lst | i lst | i dct | i];
    cbn [json.JSONEncoder._iterencode_body]; try apply agree_yield.
  - pose proof (agree_atom (VFloat f)) as Hat. cbn [json.JSONEncoder.atom] in Hat.
    apply agree_bind; [done | intros; apply agree_yield].
  - by apply agree_iterencode_list.
  - by apply agree_iterencode_list.
  - by apply agree_iterencode_dict.
  - apply agree_seq; [apply agree_refl_unit|]. rewrite Hdefault. apply agree_lift_bind.
    intros o'. apply agree_seq; [apply IH | apply agree_refl_unit].
Qed.

End Format.



(** ** [check_circular] *)

(** Two calls that differ at most in [check_circular]. *)
Definition same_but_check (kw kw' : kwargs) : Prop :=
  kw_skipkeys kw = kw_skipkeys kw' /\ kw_ensure_ascii kw = kw_ensure_ascii kw'
  /\ kw_allow_nan kw = kw_allow_nan kw' /\ kw_cls kw = kw_cls kw'
  /\ kw_indent kw = kw_indent kw' /\ kw_separators kw = kw_separators kw'
  /\ kw_default kw = kw_default kw' /\ kw_sort_keys kw = kw_sort_keys kw'.

(** The encoder [e] with [check_circular] set to [b]. *)
Definition with_check (b : bool) (e : encoder) : encoder :=
  Encoder (skipkeys e) (ensure_ascii e) b (allow_nan e) (sort_keys e) (indent e)
    (item_separator e) (key_separator e) (_default e).

(** The generator does not read [check_circular]: it has the table. *)
Lemma iterencode_with_check w b e n :
  json.JSONEncoder._iterencode w (with_check b e) n = json.JSONEncoder._iterencode w e n.
Proof.
  induction n as [| n IH]; [done|]. cbn [json.JSONEncoder._iterencode]. by rewrite IH.
Qed.

Lemma wrapper_with_check w kw kw' :
  same_but_check kw kw' ->
  wrapper_encoder w kw' = with_check (circular_checked kw') (wrapper_encoder w kw).
Proof.
  destruct kw, kw'. unfold same_but_check. cbn.
  intros (-> & -> & -> & _ & -> & -> & -> & ->). done.
Qed.

(** The table is on in the first run and off in the second. *)
Definition unchecks (ms1 ms2 : markers) : Prop := ms2 = None.

Lemma uncheck_marks i : sim_marks unchecks true False False False i.
Proof.
  split; intros ms1 ms2 -> Hg; right.
  - destruct ms1 as [a|]; [| done]. unfold mark in *.
    case_bool_decide; cbn in Hg; [done|]. by repeat split.
  - by destruct ms1.
Qed.

Lemma iterencode_uncheck_sim w self n :
  forall v, sim_rec unchecks true False False False
              (json.JSONEncoder._iterencode w self n) (json.JSONEncoder._iterencode w self n) v.
Proof.
  induction n as [| n IH]; intros v l1 l2 Hl.
  - intros ms1 ms2 _ [].
  - cbn [json.JSONEncoder._iterencode].
    apply sim_iterencode_body; [apply same_config_refl | done |].
    destruct v; cbn; try done.
    + split; [intros _; apply uncheck_marks | by apply Forall_forall].
    + split; [intros _; apply uncheck_marks | by apply Forall_forall].
    + split; [intros _; apply uncheck_marks | by apply Forall_forall].
    + apply sim_seq; [apply uncheck_marks|].
      apply sim_bind; [apply sim_lift|]. intros o'.
      apply sim_seq; [by apply IH | apply uncheck_marks].
Qed.

Lemma iterencode_uncheck w self n v l ms :
  ending (json.JSONEncoder._iterencode w self n v l ms) = Done tt ->
  chunks (json.JSONEncoder._iterencode w self n v l None)
  = chunks (json.JSONEncoder._iterencode w self n v l ms)
  /\ ending (json.JSONEncoder._iterencode w self n v l None) = Done tt.
Proof.
  intros Hend.
  destruct (iterencode_uncheck_sim w self n v l l (fun _ => eq_refl) ms None eq_refl)
    as [[] | (Hch & Hen & _)].
  - by rewrite Hend.
  - split; [symmetry; by apply Hch | congruence].
Qed.

(** X15.  Switching the circular check off changes no result: when a call
    returns a text, the call that differs by [check_circular=False] only
    returns the same text, and [json_dump] writes the same. *)
Theorem unchecked_call_gives_the_same_text fuel w g v kw kw' fp s fp' :
  kw_cls kw = None -> same_but_check kw kw' -> circular_checked kw' = false ->
  (json_dumps fuel w g v kw = Done s -> json_dumps fuel w g v kw' = Done s)
  /\ (json_dump fuel w g v fp kw = (fp', Done tt) ->
      json_dump fuel w g v fp kw' = (fp', Done tt)).
Proof.
  intros Hcls Hsame Hcheck.
  assert (Hcls' : kw_cls kw' = None).
  { destruct Hsame as (_ & _ & _ & <- & _). done. }
  rewrite !json_dumps_eq, !json_dump_eq by done. cbn zeta.
  rewrite (wrapper_with_check w kw kw' Hsame), Hcheck.
  assert (Hrun : ending (json.JSONEncoder.iterencode w (wrapper_encoder w kw) fuel v) = Done tt ->
                 json.JSONEncoder.iterencode w (with_check false (wrapper_encoder w kw)) fuel v
                 = Run (chunks (json.JSONEncoder.iterencode w (wrapper_encoder w kw) fuel v))
                       None (Done tt)).
  { unfold json.JSONEncoder.iterencode. cbn [with_check check_circular].
    rewrite iterencode_with_check. intros Hend.
    destruct (iterencode_uncheck w _ fuel v 0 _ Hend) as [Hch Hen].
    rewrite (run_eta (_ None)), Hch, Hen. f_equal.
    pose proof (restores_iterencode w (wrapper_encoder w kw) fuel v 0 None tt Hen) as Ht.
    done. }
  split.
  - destruct (encode_cases w v) as [[t ->] | Hjoin]; [done|].
    rewrite !Hjoin. unfold joined.
    destruct (ending (json.JSONEncoder.iterencode w (wrapper_encoder w kw) fuel v))
      as [[]| |] eqn:Hend; try done.
    by rewrite (Hrun eq_refl).
  - intros [= <- Hend]. by rewrite (Hrun Hend).
Qed.

Lemma unchecked_call_gives_the_same_text_witness :
  let v := VList 9 [VObj 2; VInt 3; VObj 2] in
  let s := "[" +:+ join [q "{'x': 1, 'y': 2}"; "3"; q "{'x': 1, 'y': 2}"] +:+ "]" in
  (json_dumps 5 sample (json.module sample) v no_kwargs = Done s ->
   json_dumps 5 sample (json.module sample) v kw_unchecked = Done s)
  /\ (json_dump 5 sample (json.module sample) v "" no_kwargs = (s, Done tt) ->
      json_dump 5 sample (json.module sample) v "" kw_unchecked = (s, Done tt)).
Proof.
  intros v s.
  apply (unchecked_call_gives_the_same_text 5 sample (json.module sample) v no_kwargs
           kw_unchecked "" s s); try reflexivity.
  by repeat split.
Defined.
